(** * EasyGrant: text chunking, citation extraction and paragraph locks

    A shallow embedding of
    - [backend/src/utils/chunking.py]      (RecursiveCharacterTextSplitter),
    - [backend/src/agents/section_generator.py] (citation extraction),
    - [backend/src/utils/paragraph_lock.py] and [backend/src/models/section.py]
      (paragraph splitting and lock merging),
    - [backend/src/api/routes/sections.py] ([update_section]),
    and the properties of their natural-language specification.

    Python [str] values are modelled as Rocq [string]s whose characters are
    the code points below 256; Python [int]s are [Z]. *)

From Stdlib Require Import ZArith Ascii String List Lia Bool.
From stdpp Require Import base list list_numbers strings pretty gmap.

Local Open Scope Z_scope.

(** ** Outcomes of Python calls

    [Ret v] is a normal return, [Raise e] an exception that reaches the
    caller, and [OutOfFuel] is an artefact of the embedding: recursion and
    [while] loops are driven by a fuel argument, and [OutOfFuel] says that
    the fuel given was too small (see the adequacy lemmas below). *)

Inductive exn : Type :=
| ValueError (msg : string)
| IndexError (msg : string)
| ValidationError (msg : string).

Inductive outcome (A : Type) : Type :=
| Ret (a : A)
| Raise (e : exn)
| OutOfFuel.

Arguments Ret {A} a.
Arguments Raise {A} e.
Arguments OutOfFuel {A}.

Global Instance outcome_ret : MRet outcome := λ A a, Ret a.

Global Instance outcome_bind : MBind outcome := λ A B k m,
  match m with
  | Ret a => k a
  | Raise e => Raise e
  | OutOfFuel => OutOfFuel
  end.

(** The call comes back: it returns a value or raises. *)
Definition returns_or_raises {A : Type} (m : outcome A) : Prop := m ≠ OutOfFuel.

(** [rec2] agrees with [rec1] wherever [rec1] comes back. *)
Definition extends {A B : Type} (rec1 rec2 : A → outcome B) : Prop :=
  ∀ p, returns_or_raises (rec1 p) → rec2 p = rec1 p.

(** ** Python string and list primitives *)

Module Py.

Definition LF : ascii := "010"%char.

(** [not s] for a [str]. *)
Definition is_empty (s : string) : bool :=
  match s with EmptyString => true | String _ _ => false end.

(** [sep in s]; the empty string is a substring of every string. *)
Fixpoint contains (sep s : string) : bool :=
  String.prefix sep s ||
  match s with
  | EmptyString => false
  | String _ s' => contains sep s'
  end.

(** The scan of [s.split(sep)] for a non-empty [sep]: left to right, without
    overlaps. [skip] counts the characters of a separator just found that
    are still to be passed over; [acc] is the piece being built. *)
Fixpoint split_from (sep : string) (skip : nat) (acc s : string) : list string :=
  match s with
  | EmptyString => [acc]
  | String c s' =>
      match skip with
      | S k => split_from sep k acc s'
      | O =>
          if String.prefix sep s
          then acc :: split_from sep (Nat.pred (String.length sep)) "" s'
          else split_from sep 0 (acc +:+ String c "") s'
      end
  end.

(** The pieces of [s] around the occurrences of a non-empty [sep]. *)
Definition split_pieces (s sep : string) : list string := split_from sep 0 "" s.

(** [s.split(sep)]: raises [ValueError] on an empty separator. *)
Definition split (s sep : string) : outcome (list string) :=
  if is_empty sep then Raise (ValueError "empty separator")
  else Ret (split_pieces s sep).

(** [sep.join(l)]. *)
Definition join (sep : string) (l : list string) : string := String.concat sep l.

(** [str.isspace] on the code points below 256. *)
Definition isspace (c : ascii) : bool :=
  let n := N_of_ascii c in
  ((9 <=? n) && (n <=? 13) || (28 <=? n) && (n <=? 32)
   || (n =? 133) || (n =? 160))%N.

Fixpoint lstrip (s : string) : string :=
  match s with
  | EmptyString => EmptyString
  | String c s' => if isspace c then lstrip s' else s
  end.

(** [s.rstrip()]: a character is kept when it is not a space or when
    something is kept after it. *)
Fixpoint rstrip (s : string) : string :=
  match s with
  | EmptyString => EmptyString
  | String c s' =>
      let r := rstrip s' in
      if isspace c && is_empty r then EmptyString else String c r
  end.

(** [s.strip()]. *)
Definition strip (s : string) : string := rstrip (lstrip s).

(** [s.split()] with no argument: maximal runs of non-space characters. *)
Fixpoint split_ws_go (cur : string) (s : string) : list string :=
  match s with
  | EmptyString => if is_empty cur then [] else [cur]
  | String c s' =>
      if isspace c
      then (if is_empty cur then [] else [cur]) ++ split_ws_go "" s'
      else split_ws_go (cur +:+ String c "") s'
  end.

Definition split_ws (s : string) : list string := split_ws_go "" s.

(** [str.lower] on the code points below 256: A-Z and the Latin-1 capitals
    (192-222 without the multiplication sign 215) move up by 32. *)
Definition lower_char (c : ascii) : ascii :=
  let n := N_of_ascii c in
  if ((65 <=? n) && (n <=? 90)
      || (192 <=? n) && (n <=? 222) && negb (n =? 215))%N
  then ascii_of_N (n + 32) else c.

Fixpoint lower (s : string) : string :=
  match s with
  | EmptyString => EmptyString
  | String c s' => String (lower_char c) (lower s')
  end.

(** Slice bounds: a negative index counts from the end, and every index is
    clamped to [0, len]. *)
Definition clamp_index (len i : Z) : Z :=
  if i <? 0 then Z.max 0 (len + i) else Z.min i len.

(** [l[start:stop]]. *)
Definition slice {A : Type} (l : list A) (start stop : Z) : list A :=
  let len := Z.of_nat (length l) in
  let a := clamp_index len start in
  let b := clamp_index len stop in
  take (Z.to_nat (b - a)) (drop (Z.to_nat a) l).

(** [l[start:]]. *)
Definition slice_from {A : Type} (l : list A) (start : Z) : list A :=
  slice l start (Z.of_nat (length l)).

(** [max(l, default=d)]. *)
Definition max_default (l : list Z) (d : Z) : Z :=
  match l with
  | [] => d
  | x :: l' => foldl Z.max x l'
  end.

(** [range(n)]. *)
Definition range (n : Z) : list Z := seqZ 0 n.

(** [s[n:]] for a [str] and an index that is not negative. *)
Fixpoint str_drop (n : nat) (s : string) : string :=
  match n, s with
  | O, _ => s
  | S n', String _ s' => str_drop n' s'
  | S _, EmptyString => EmptyString
  end.

(** The scan of [s.find(sub)]: the offset of the first occurrence. *)
Fixpoint find_at (sub s : string) : option nat :=
  if String.prefix sub s then Some O
  else
    match s with
    | EmptyString => None
    | String _ s' => S <$> find_at sub s'
    end.

(** [s.find(sub, start)]: the lowest index from [start] on where [sub]
    occurs, [-1] when there is none or when [start] is beyond the end. *)
Definition find (s sub : string) (start : Z) : Z :=
  let len := Z.of_nat (String.length s) in
  let start := if start <? 0 then Z.max 0 (len + start) else start in
  if len <? start then -1
  else
    match find_at sub (str_drop (Z.to_nat start) s) with
    | Some k => start + Z.of_nat k
    | None => -1
    end.

End Py.

(** ** The tokenizer interface (tiktoken)

    The library itself is outside the repository: an encoding is any pair of
    functions between text and token ids. [encode] gives the tokens of a text
    that the encoding accepts. That [encode], called with its default
    arguments, raises on a text holding a special token is not part of this
    interface; [CheckedChunking] embeds the splitter with that exception. *)

Module tiktoken.

Record Encoding : Type := {
  encode : string → list Z;
  decode : list Z → string
}.

End tiktoken.

(** ** [backend/src/utils/chunking.py] *)

Module Chunking.

Record RecursiveCharacterTextSplitter : Type := {
  chunk_size : Z;
  chunk_overlap : Z;
  encoding : tiktoken.Encoding;
  separators : list string
}.

Definition default_separators : list string :=
  [String Py.LF (String Py.LF ""); String Py.LF ""; ". "; " "; ""].

Section Construction.

(** [tiktoken.get_encoding]: raises on an unknown encoding name. *)
Variable get_encoding : string → outcome tiktoken.Encoding.

(** [RecursiveCharacterTextSplitter.__init__]. *)
Definition __init__ (chunk_size chunk_overlap : Z) (encoding_name : string)
  : outcome RecursiveCharacterTextSplitter :=
  enc ← get_encoding encoding_name;
  mret {| chunk_size := chunk_size;
          chunk_overlap := chunk_overlap;
          encoding := enc;
          separators := default_separators |}.

Definition create_text_splitter (chunk_size chunk_overlap : Z)
  : outcome RecursiveCharacterTextSplitter :=
  __init__ chunk_size chunk_overlap "cl100k_base".

End Construction.

Section Methods.

Variable self : RecursiveCharacterTextSplitter.

Definition count_tokens (text : string) : Z :=
  Z.of_nat (length (tiktoken.encode (encoding self) text)).

(** [_get_overlap_text]: the text of the last [chunk_overlap] tokens of
    the joined pieces. *)
Definition _get_overlap_text (chunks : list string) (separator : string) : string :=
  if bool_decide (chunks = []) || (chunk_overlap self <=? 0) then ""
  else
    let combined := Py.join separator chunks in
    let tokens := tiktoken.encode (encoding self) combined in
    let overlap_tokens := Py.slice_from tokens (- chunk_overlap self) in
    tiktoken.decode (encoding self) overlap_tokens.

(** [_split_by_tokens]: the [while start < len(tokens)] loop, [fuel]
    bounding the number of iterations. *)
Fixpoint _split_by_tokens_loop (fuel : nat) (tokens : list Z)
    (chunks : list string) (start : Z) : outcome (list string) :=
  if start <? Z.of_nat (length tokens) then
    match fuel with
    | O => OutOfFuel
    | S fuel' =>
        let end_ := Z.min (start + chunk_size self) (Z.of_nat (length tokens)) in
        let chunk_tokens := Py.slice tokens start end_ in
        let chunk_text := tiktoken.decode (encoding self) chunk_tokens in
        let start' :=
          if end_ <? Z.of_nat (length tokens)
          then end_ - chunk_overlap self else end_ in
        _split_by_tokens_loop fuel' tokens (chunks ++ [chunk_text]) start'
    end
  else Ret chunks.

Definition _split_by_tokens (text : string) : outcome (list string) :=
  let tokens := tiktoken.encode (encoding self) text in
  _split_by_tokens_loop (S (length tokens)) tokens [] 0.

(** The local variables of the loop of [_merge_splits]. *)
Record merge_state : Type := {
  chunks : list string;
  current_chunk : list string;
  current_tokens : Z
}.

(** One iteration of [for split in splits] in [_merge_splits];
    [split_text] is the method called on an oversized piece. *)
Definition merge_step (split_text : string → outcome (list string))
    (separator : string) (st : merge_state) (split : string)
  : outcome merge_state :=
  if Py.is_empty split then Ret st
  else
    let split_tokens := count_tokens split in
    if chunk_size self <? split_tokens then
      let chunks1 :=
        if bool_decide (current_chunk st = []) then chunks st
        else chunks st ++ [Py.join separator (current_chunk st)] in
      let current1 :=
        if bool_decide (current_chunk st = []) then current_chunk st else [] in
      let tokens1 :=
        if bool_decide (current_chunk st = []) then current_tokens st else 0 in
      sub_chunks ← split_text split;
      Ret {| chunks := chunks1 ++ sub_chunks;
             current_chunk := current1;
             current_tokens := tokens1 |}
    else
      let new_tokens :=
        if negb (Py.is_empty separator) && negb (bool_decide (current_chunk st = []))
        then current_tokens st + split_tokens + count_tokens separator
        else current_tokens st + split_tokens in
      if new_tokens <=? chunk_size self then
        Ret {| chunks := chunks st;
               current_chunk := current_chunk st ++ [split];
               current_tokens := new_tokens |}
      else
        let chunks1 :=
          if bool_decide (current_chunk st = []) then chunks st
          else chunks st ++ [Py.join separator (current_chunk st)] in
        let overlap_text := _get_overlap_text (current_chunk st) separator in
        let current1 :=
          if Py.is_empty overlap_text then [split] else [overlap_text; split] in
        Ret {| chunks := chunks1;
               current_chunk := current1;
               current_tokens := count_tokens (Py.join separator current1) |}.

Fixpoint merge_loop (split_text : string → outcome (list string))
    (separator : string) (st : merge_state) (splits : list string)
  : outcome merge_state :=
  match splits with
  | [] => Ret st
  | split :: rest =>
      st' ← merge_step split_text separator st split;
      merge_loop split_text separator st' rest
  end.

(** [_merge_splits]. *)
Definition _merge_splits (split_text : string → outcome (list string))
    (splits : list string) (separator : string) : outcome (list string) :=
  st ← merge_loop split_text separator
         {| chunks := []; current_chunk := []; current_tokens := 0 |} splits;
  Ret (if bool_decide (current_chunk st = []) then chunks st
       else chunks st ++ [Py.join separator (current_chunk st)]).

(** The loop [for separator in self.separators] of [split_text], followed
    by the forced split by tokens. *)
Fixpoint try_separators (split_text : string → outcome (list string))
    (seps : list string) (text : string) : outcome (list string) :=
  match seps with
  | [] => _split_by_tokens text
  | separator :: rest =>
      if Py.contains separator text then
        splits ← Py.split text separator;
        chunks ← _merge_splits split_text splits separator;
        if bool_decide (chunks = []) then try_separators split_text rest text
        else Ret chunks
      else try_separators split_text rest text
  end.

(** [split_text]; [fuel] bounds the depth of the recursion through
    [_merge_splits]. *)
Fixpoint split_text_fuel (fuel : nat) (text : string) : outcome (list string) :=
  match fuel with
  | O => OutOfFuel
  | S fuel' =>
      if Py.is_empty text then Ret []
      else if count_tokens text <=? chunk_size self then Ret [text]
      else try_separators (split_text_fuel fuel') (separators self) text
  end.

(** Every recursive call is on a strictly shorter piece, so the length of
    the text is fuel enough ([split_text_fuel_enough]). *)
Definition split_text (text : string) : outcome (list string) :=
  split_text_fuel (S (String.length text)) text.

End Methods.

End Chunking.

(** ** [backend/src/utils/chunking.py] with a tokenizer that refuses texts

    [self.encoding.encode(text)], called with its default arguments, raises
    on a text that the encoding refuses (a text holding one of its special
    tokens). [Chunking] leaves that exception out: it takes the tokens of a
    text as given. Here the methods are embedded once more with it:
    [refused text] is the exception that [encode] raises on [text], and
    [None] when the text is encoded. The calls of [encode] are in the order
    of the source. *)

Module CheckedChunking.

Import Chunking.

Section Methods.

Variable self : RecursiveCharacterTextSplitter.
Variable refused : string → option exn.

(** [self.encoding.encode(text)]. *)
Definition encode (text : string) : outcome (list Z) :=
  match refused text with
  | Some e => Raise e
  | None => Ret (tiktoken.encode (encoding self) text)
  end.

Definition count_tokens (text : string) : outcome Z :=
  tokens ← encode text;
  Ret (Z.of_nat (length tokens)).

Definition _get_overlap_text (chunks : list string) (separator : string)
  : outcome string :=
  if bool_decide (chunks = []) || (chunk_overlap self <=? 0) then Ret ""
  else
    let combined := Py.join separator chunks in
    tokens ← encode combined;
    let overlap_tokens := Py.slice_from tokens (- chunk_overlap self) in
    Ret (tiktoken.decode (encoding self) overlap_tokens).

(** [_split_by_tokens]; the loop makes no call of [encode]. *)
Definition _split_by_tokens (text : string) : outcome (list string) :=
  tokens ← encode text;
  _split_by_tokens_loop self (S (length tokens)) tokens [] 0.

Definition merge_step (split_text : string → outcome (list string))
    (separator : string) (st : merge_state) (split : string)
  : outcome merge_state :=
  if Py.is_empty split then Ret st
  else
    split_tokens ← count_tokens split;
    if chunk_size self <? split_tokens then
      let chunks1 :=
        if bool_decide (current_chunk st = []) then chunks st
        else chunks st ++ [Py.join separator (current_chunk st)] in
      let current1 :=
        if bool_decide (current_chunk st = []) then current_chunk st else [] in
      let tokens1 :=
        if bool_decide (current_chunk st = []) then current_tokens st else 0 in
      sub_chunks ← split_text split;
      Ret {| chunks := chunks1 ++ sub_chunks;
             current_chunk := current1;
             current_tokens := tokens1 |}
    else
      new_tokens ←
        (if negb (Py.is_empty separator) && negb (bool_decide (current_chunk st = []))
         then
           separator_tokens ← count_tokens separator;
           Ret (current_tokens st + split_tokens + separator_tokens)
         else Ret (current_tokens st + split_tokens));
      if new_tokens <=? chunk_size self then
        Ret {| chunks := chunks st;
               current_chunk := current_chunk st ++ [split];
               current_tokens := new_tokens |}
      else
        let chunks1 :=
          if bool_decide (current_chunk st = []) then chunks st
          else chunks st ++ [Py.join separator (current_chunk st)] in
        overlap_text ← _get_overlap_text (current_chunk st) separator;
        let current1 :=
          if Py.is_empty overlap_text then [split] else [overlap_text; split] in
        joined_tokens ← count_tokens (Py.join separator current1);
        Ret {| chunks := chunks1;
               current_chunk := current1;
               current_tokens := joined_tokens |}.

Fixpoint merge_loop (split_text : string → outcome (list string))
    (separator : string) (st : merge_state) (splits : list string)
  : outcome merge_state :=
  match splits with
  | [] => Ret st
  | split :: rest =>
      st' ← merge_step split_text separator st split;
      merge_loop split_text separator st' rest
  end.

Definition _merge_splits (split_text : string → outcome (list string))
    (splits : list string) (separator : string) : outcome (list string) :=
  st ← merge_loop split_text separator
         {| chunks := []; current_chunk := []; current_tokens := 0 |} splits;
  Ret (if bool_decide (current_chunk st = []) then chunks st
       else chunks st ++ [Py.join separator (current_chunk st)]).

Fixpoint try_separators (split_text : string → outcome (list string))
    (seps : list string) (text : string) : outcome (list string) :=
  match seps with
  | [] => _split_by_tokens text
  | separator :: rest =>
      if Py.contains separator text then
        splits ← Py.split text separator;
        chunks ← _merge_splits split_text splits separator;
        if bool_decide (chunks = []) then try_separators split_text rest text
        else Ret chunks
      else try_separators split_text rest text
  end.

Fixpoint split_text_fuel (fuel : nat) (text : string) : outcome (list string) :=
  match fuel with
  | O => OutOfFuel
  | S fuel' =>
      if Py.is_empty text then Ret []
      else
        text_tokens ← count_tokens text;
        if text_tokens <=? chunk_size self then Ret [text]
        else try_separators (split_text_fuel fuel') (separators self) text
  end.

Definition split_text (text : string) : outcome (list string) :=
  split_text_fuel (S (String.length text)) text.

End Methods.

End CheckedChunking.

(** ** [backend/src/models/citation.py]

    A relevance score is a Python [float]; the embedding only compares
    scores, so it takes them from any type with a decidable equality.
    [c in l] on a list of citations finds [c] itself or a citation equal to
    it field by field. *)

Module Citations.

Record Citation (score : Type) : Type := {
  document_id : string;
  document_title : string;
  page_number : Z;
  chunk_text : string;
  chunk_id : option string;
  relevance_score : option score
}.

Arguments document_id {score} _.
Arguments document_title {score} _.
Arguments page_number {score} _.
Arguments chunk_text {score} _.
Arguments chunk_id {score} _.
Arguments relevance_score {score} _.

(** Pydantic models compare field by field. *)
Global Instance Citation_eq_dec {score : Type} `{EqDecision score} :
  EqDecision (Citation score).
Proof. solve_decision. Defined.

End Citations.

(** ** [backend/src/agents/section_generator.py]: citation extraction *)

Module SectionGenerator.

Import Citations.

(** *** The pattern [\[([^\]]+),\s*p\.\s*(\d+)\]] *)

(** [\d] on the code points below 256. *)
Definition is_digit (c : ascii) : bool :=
  let n := N_of_ascii c in ((48 <=? n) && (n <=? 57))%N.

(** A literal character. *)
Definition expect (c : ascii) (s : string) : option string :=
  match s with
  | String c' s' => if bool_decide (c = c') then Some s' else None
  | EmptyString => None
  end.

(** [\s*]: the character that follows in the pattern is never a space, so
    giving spaces back cannot help. *)
Fixpoint spaces (s : string) : string :=
  match s with
  | String c s' => if Py.isspace c then spaces s' else s
  | EmptyString => EmptyString
  end.

(** [(\d+)], as many digits as there are: the digits and what follows. *)
Fixpoint digits (s : string) : string * string :=
  match s with
  | String c s' =>
      if is_digit c then let '(d, r) := digits s' in (String c d, r)
      else (EmptyString, s)
  | EmptyString => (EmptyString, EmptyString)
  end.

(** [,\s*p\.\s*(\d+)\]]: the page digits and what follows the match. *)
Definition match_tail (s : string) : option (string * string) :=
  s1 ← expect "," s;
  s2 ← expect "p" (spaces s1);
  s3 ← expect "." s2;
  let '(page_str, s4) := digits (spaces s3) in
  if Py.is_empty page_str then None
  else s5 ← expect "]" s4; Some (page_str, s5).

(** [([^\]]+)] and then the tail: the title takes every character it can and
    gives them back one at a time until the tail matches. *)
Fixpoint match_title (s : string) : option (string * string * string) :=
  match s with
  | EmptyString => None
  | String c s' =>
      if bool_decide (c = "]"%char) then None
      else
        match match_title s' with
        | Some (title, page_str, rest) => Some (String c title, page_str, rest)
        | None =>
            '(page_str, rest) ← match_tail s';
            Some (String c EmptyString, page_str, rest)
        end
  end.

(** The whole pattern at the head of [s]. *)
Definition match_here (s : string) : option (string * string * string) :=
  s1 ← expect "[" s; match_title s1.

(** [re.findall(citation_pattern, text)]: matches from left to right,
    without overlaps; [skip] counts the characters of the last match that
    are still to be passed over. *)
Fixpoint findall_from (skip : nat) (s : string) : list (string * string) :=
  match s with
  | EmptyString => []
  | String c s' =>
      match skip with
      | S k => findall_from k s'
      | O =>
          match match_here s with
          | Some (title, page_str, rest) =>
              (title, page_str)
                :: findall_from (String.length s' - String.length rest)%nat s'
          | None => findall_from 0 s'
          end
      end
  end.

Definition findall (text : string) : list (string * string) := findall_from 0 text.

(** [int(page_str)] on a string of digits (the interpreter's limit on the
    number of digits is not modelled). *)
Fixpoint int_go (acc : Z) (s : string) : Z :=
  match s with
  | EmptyString => acc
  | String c s' => int_go (10 * acc + (Z.of_N (N_of_ascii c) - 48)) s'
  end.

Definition int (s : string) : Z := int_go 0 s.

Section CitationMatching.

Context {score : Type} `{EqDecision score}.

(** The loop [for citation in available_citations]: the pair
    [(exact_match, fallback_match)] it leaves behind. *)
Fixpoint match_loop (doc_title : string) (page_num : Z)
    (available_citations : list (Citation score))
    (fallback_match : option (Citation score))
  : option (Citation score) * option (Citation score) :=
  match available_citations with
  | [] => (None, fallback_match)
  | citation :: rest =>
      let title_matches :=
        bool_decide (Py.lower (document_title citation) = Py.lower doc_title) in
      let page_matches := bool_decide (page_number citation = page_num) in
      if title_matches && page_matches then (Some citation, fallback_match)
      else if title_matches && negb (bool_decide (is_Some fallback_match))
      then match_loop doc_title page_num rest (Some citation)
      else match_loop doc_title page_num rest fallback_match
  end.

(** [exact_match or fallback_match]. *)
Definition citation_to_use (doc_title : string) (page_num : Z)
    (available_citations : list (Citation score)) : option (Citation score) :=
  let '(exact_match, fallback_match) :=
    match_loop doc_title page_num available_citations None in
  match exact_match with
  | Some c => Some c
  | None => fallback_match
  end.

(** The body of [for doc_title, page_str in matches]. *)
Definition extract_step (available_citations : list (Citation score))
    (used_citations : list (Citation score)) (m : string * string)
  : list (Citation score) :=
  let '(doc_title, page_str) := m in
  let page_num := int page_str in
  match citation_to_use doc_title page_num available_citations with
  | Some c =>
      if bool_decide (c ∈ used_citations) then used_citations
      else used_citations ++ [c]
  | None => used_citations
  end.

Definition _extract_citations_from_text (text : string)
    (available_citations : list (Citation score)) : list (Citation score) :=
  foldl (extract_step available_citations) [] (findall text).

(** *** Notions for the properties of the extraction *)

(** The identity of the specification, and the key the matching loop
    compares (titles without case). *)
Definition key (c : Citation score) : string * Z :=
  (document_title c, page_number c).

Definition lkey (c : Citation score) : string * Z :=
  (Py.lower (document_title c), page_number c).

(** [c] is the first citation of [available] with its title (without case)
    and page. *)
Definition canonical (available : list (Citation score)) (c : Citation score) : Prop :=
  List.find (λ x, bool_decide (lkey x = lkey c)) available = Some c.

(** What every prefix of the loop over the markers keeps true. *)
Definition extraction_invariant (available used : list (Citation score)) : Prop :=
  Forall (canonical available) used ∧ NoDup (key <$> used).

End CitationMatching.

(** [SectionGenerator.count_words]: [len(text.split())]. *)
Definition count_words (text : string) : Z := Z.of_nat (length (Py.split_ws text)).

End SectionGenerator.

(** ** [backend/src/utils/paragraph_lock.py] *)

Module ParagraphLock.

(** The paragraph separator, two line feeds. *)
Definition blank_line : string := String Py.LF (String Py.LF EmptyString).

Definition split_into_paragraphs (text : string) : list string :=
  if Py.is_empty text then []
  else
    let paragraphs := Py.split_pieces text blank_line in
    Py.strip <$> List.filter (λ p, negb (Py.is_empty (Py.strip p))) paragraphs.

(** [{idx: text for idx, text in locked_paragraphs}]: a later entry replaces
    an earlier one with the same index. *)
Definition locked_dict_of (locked_paragraphs : list (Z * string)) : gmap Z string :=
  foldl (λ d '(idx, text), <[idx := text]> d) ∅ locked_paragraphs.

(** The loop [for i in range(n)] that builds [merged_paragraphs]. *)
Definition merged_paragraphs_of (locked_dict : gmap Z string)
    (new_paragraphs : list string) (n : Z) : list string :=
  omap (λ i,
          match locked_dict !! i with
          | Some text => Some text
          | None =>
              if i <? Z.of_nat (length new_paragraphs)
              then new_paragraphs !! Z.to_nat i
              else None
          end) (Py.range n).

Definition merge_paragraphs_with_locks (new_text : string)
    (locked_paragraphs : list (Z * string)) : string :=
  if bool_decide (locked_paragraphs = []) then new_text
  else
    let new_paragraphs := split_into_paragraphs new_text in
    let locked_dict := locked_dict_of locked_paragraphs in
    let max_idx :=
      Z.max (Z.of_nat (length new_paragraphs) - 1)
            (Py.max_default (map_to_list locked_dict).*1 (-1)) in
    let merged_paragraphs := merged_paragraphs_of locked_dict new_paragraphs (max_idx + 1) in
    Py.join blank_line merged_paragraphs.

Definition count_words (text : string) : Z :=
  if Py.is_empty text then 0
  else
    let words := Py.split_ws (Py.strip text) in
    Z.of_nat (length (List.filter (λ w, negb (Py.is_empty w)) words)).

End ParagraphLock.

(** ** [backend/src/models/section.py] *)

Module SectionModel.

Record LockedParagraph : Type := {
  index : Z;
  text : string;
  locked_at : option string
}.

(** [GeneratedSection.merge_with_locked_paragraphs], a function of the
    section's [locked_paragraphs] and of the new text. *)
Definition merge_with_locked_paragraphs (locked_paragraphs : list LockedParagraph)
    (new_text : string) : string :=
  if bool_decide (locked_paragraphs = []) then new_text
  else
    let new_paragraphs := Py.split_pieces new_text ParagraphLock.blank_line in
    let new_paragraphs :=
      Py.strip <$> List.filter (λ p, negb (Py.is_empty (Py.strip p))) new_paragraphs in
    let locked_dict :=
      foldl (λ d lp, <[index lp := text lp]> d) (∅ : gmap Z string) locked_paragraphs in
    let n :=
      Z.max (Z.of_nat (length new_paragraphs))
            (Py.max_default (map_to_list locked_dict).*1 (-1) + 1) in
    Py.join ParagraphLock.blank_line
      (ParagraphLock.merged_paragraphs_of locked_dict new_paragraphs n).

End SectionModel.

(** ** [backend/src/api/routes/sections.py]: [update_section] *)

Module SectionsApi.

Import Citations.

(** [l[i]] for a list: [IndexError] out of range. *)
Definition getitem {A : Type} (l : list A) (i : Z) : outcome A :=
  let len := Z.of_nat (length l) in
  let j := if i <? 0 then i + len else i in
  if (0 <=? j) && (j <? len) then
    match l !! Z.to_nat j with
    | Some x => Ret x
    | None => Raise (IndexError "list index out of range")
    end
  else Raise (IndexError "list index out of range").

(** What a handler gives back: a response, or an [HTTPException] with its
    status code. The detail text is not modelled, so error answers are
    compared by their status code only: the handlers word the detail of a
    500 differently. *)
Inductive http_result (A : Type) : Type :=
| Ok (a : A)
| HTTPException (status_code : Z).

Arguments Ok {A} a.
Arguments HTTPException {A} status_code.

Record UpdateSectionRequest : Type := {
  req_text : string;
  locked_paragraph_indices : list Z
}.

Section Handlers.

Context {score : Type}.

Record CitationResponse : Type := {
  cr_document_id : string;
  cr_document_title : string;
  cr_page_number : Z;
  cr_chunk_text : string;
  cr_relevance_score : score
}.

Record GeneratedSectionResponse : Type := {
  resp_section_id : string;
  resp_section_name : string;
  resp_text : string;
  resp_word_count : Z;
  resp_citations : list CitationResponse;
  resp_warning : option string;
  resp_locked_paragraphs : list Z;
  resp_generated_at : string
}.

(** A value of the dictionary [_generated_sections[session_id]]; the key
    [locked_paragraphs_data] is absent until the first update. *)
Record section_data : Type := {
  section_id : string;
  section_name : string;
  text : string;
  word_count : Z;
  citations : list (Citation score);
  warning : option string;
  locked_paragraphs : list Z;
  locked_paragraphs_data : option (list (Z * string));
  generated_at : string
}.

(** [CitationResponse(...)]: the score field is a required [float], so a
    citation without a score fails validation. *)
Definition make_citation_response (c : Citation score) : outcome CitationResponse :=
  match relevance_score c with
  | Some r =>
      Ret {| cr_document_id := document_id c;
             cr_document_title := document_title c;
             cr_page_number := page_number c;
             cr_chunk_text := chunk_text c;
             cr_relevance_score := r |}
  | None => Raise (ValidationError "relevance_score")
  end.

(** A list comprehension whose body may raise. *)
Fixpoint comprehension {A B : Type} (f : A → outcome B) (l : list A) : outcome (list B) :=
  match l with
  | [] => Ret []
  | x :: l' => y ← f x; ys ← comprehension f l'; Ret (y :: ys)
  end.

(** [update_section] on the store [_generated_sections]: the store it leaves
    and what the handler gives back. The section's dictionary is updated in
    place before the response is built. *)
Definition update_section
    (_generated_sections : gmap string (gmap string section_data))
    (session_id section_name_ : string) (request : UpdateSectionRequest)
  : gmap string (gmap string section_data) * http_result GeneratedSectionResponse :=
  match _generated_sections !! session_id with
  | None => (_generated_sections, HTTPException 404)
  | Some sections =>
      match sections !! section_name_ with
      | None => (_generated_sections, HTTPException 404)
      | Some data =>
          let paragraphs := ParagraphLock.split_into_paragraphs (req_text request) in
          let valid_indices :=
            List.filter
              (λ idx, (0 <=? idx) && (idx <? Z.of_nat (length paragraphs)))
              (locked_paragraph_indices request) in
          match comprehension
                  (λ idx, p ← getitem paragraphs idx; Ret (idx, p)) valid_indices with
          | Ret locked_paragraphs_data_ =>
              let data' :=
                {| section_id := section_id data;
                   section_name := section_name data;
                   text := req_text request;
                   word_count := ParagraphLock.count_words (req_text request);
                   citations := citations data;
                   warning := warning data;
                   locked_paragraphs := valid_indices;
                   locked_paragraphs_data := Some locked_paragraphs_data_;
                   generated_at := generated_at data |} in
              let store' :=
                <[session_id := <[section_name_ := data']> sections]> _generated_sections in
              match comprehension make_citation_response (citations data') with
              | Ret cs =>
                  (store',
                   Ok {| resp_section_id := section_id data';
                         resp_section_name := section_name data';
                         resp_text := text data';
                         resp_word_count := word_count data';
                         resp_citations := cs;
                         resp_warning := warning data';
                         resp_locked_paragraphs := valid_indices;
                         resp_generated_at := generated_at data' |})
              | _ => (store', HTTPException 500)
              end
          | _ => (_generated_sections, HTTPException 500)
          end
      end
  end.

(** [get_section]: the stored section as a response; the store is only
    read. The key [locked_paragraphs] is always there ([generate_section]
    stores it), so its default is never used. *)
Definition get_section
    (_generated_sections : gmap string (gmap string section_data))
    (session_id section_name_ : string) : http_result GeneratedSectionResponse :=
  match _generated_sections !! session_id with
  | None => HTTPException 404
  | Some sections =>
      match sections !! section_name_ with
      | None => HTTPException 404
      | Some data =>
          match comprehension make_citation_response (citations data) with
          | Ret cs =>
              Ok {| resp_section_id := section_id data;
                    resp_section_name := section_name data;
                    resp_text := text data;
                    resp_word_count := word_count data;
                    resp_citations := cs;
                    resp_warning := warning data;
                    resp_locked_paragraphs := locked_paragraphs data;
                    resp_generated_at := generated_at data |}
          | _ => HTTPException 500
          end
      end
  end.

(** What [regenerate_section] reads of the dictionary returned by
    [section_generator.generate_section]. *)
Record generation_result : Type := {
  generated_text : string;
  citations_used : list (Citation score);
  result_warning : option string
}.

(** [regenerate_section]. The session manager, the retriever, the generator
    and the clock are outside this file: [session] says whether the session
    manager knows the session, [result] is what retrieval and generation
    give ([None] when one of them raises), [now] is the time stamp. *)
Definition regenerate_section
    (_generated_sections : gmap string (gmap string section_data))
    (session : bool) (session_id section_name_ : string)
    (result : option generation_result) (now : string)
  : gmap string (gmap string section_data) * http_result GeneratedSectionResponse :=
  if negb session then (_generated_sections, HTTPException 404)
  else
    match _generated_sections !! session_id with
    | None => (_generated_sections, HTTPException 404)
    | Some sections =>
        match sections !! section_name_ with
        | None => (_generated_sections, HTTPException 404)
        | Some data =>
            match result with
            | None => (_generated_sections, HTTPException 500)
            | Some result =>
                let locked_indices := locked_paragraphs data in
                let new_text := generated_text result in
                let merged_text :=
                  match locked_paragraphs_data data with
                  | Some (lp :: lps) =>
                      ParagraphLock.merge_paragraphs_with_locks new_text (lp :: lps)
                  | _ => new_text
                  end in
                let data' :=
                  {| section_id := section_id data;
                     section_name := section_name data;
                     text := merged_text;
                     word_count := ParagraphLock.count_words merged_text;
                     citations := citations_used result;
                     warning := result_warning result;
                     locked_paragraphs := locked_indices;
                     locked_paragraphs_data := locked_paragraphs_data data;
                     generated_at := now |} in
                let store' :=
                  <[session_id := <[section_name_ := data']> sections]> _generated_sections in
                match comprehension make_citation_response (citations_used result) with
                | Ret cs =>
                    (store',
                     Ok {| resp_section_id := section_id data';
                           resp_section_name := section_name data';
                           resp_text := merged_text;
                           resp_word_count := word_count data';
                           resp_citations := cs;
                           resp_warning := warning data';
                           resp_locked_paragraphs := locked_indices;
                           resp_generated_at := generated_at data' |})
                | _ => (store', HTTPException 500)
                end
            end
        end
    end.

End Handlers.

Arguments CitationResponse score : clear implicits.
Arguments GeneratedSectionResponse score : clear implicits.
Arguments section_data score : clear implicits.
Arguments generation_result score : clear implicits.

End SectionsApi.

(** ** [backend/src/utils/paragraph_lock.py]: the positions of the paragraphs *)

Module ParagraphPositions.

Import ParagraphLock.

(** The loop [for idx, para in enumerate(paragraphs)] of
    [find_paragraph_at_position]. *)
Fixpoint find_loop (text : string) (cursor_position : Z) (idx : Z)
    (paragraphs : list string) (current_pos : Z) : Z * string :=
  match paragraphs with
  | [] => (-1, "")
  | para :: rest =>
      let para_start := Py.find text para current_pos in
      let para_end := para_start + Z.of_nat (String.length para) in
      if (para_start <=? cursor_position) && (cursor_position <=? para_end)
      then (idx, para)
      else find_loop text cursor_position (idx + 1) rest para_end
  end.

Definition find_paragraph_at_position (text : string) (cursor_position : Z)
  : Z * string :=
  if Py.is_empty text || (cursor_position <? 0)
     || (Z.of_nat (String.length text) <? cursor_position)
  then (-1, "")
  else find_loop text cursor_position 0 (split_into_paragraphs text) 0.

(** The loop [for i in range(paragraph_index)] of [get_paragraph_boundaries];
    [None] stands for the early [return (-1, -1)]. *)
Fixpoint search_loop (text : string) (paragraphs : list string)
    (indices : list Z) (search_start : Z) : outcome (option Z) :=
  match indices with
  | [] => Ret (Some search_start)
  | i :: rest =>
      p ← SectionsApi.getitem paragraphs i;
      let found_pos := Py.find text p search_start in
      if found_pos =? -1 then Ret None
      else search_loop text paragraphs rest (found_pos + Z.of_nat (String.length p))
  end.

Definition get_paragraph_boundaries (text : string) (paragraph_index : Z)
  : outcome (Z * Z) :=
  let paragraphs := split_into_paragraphs text in
  if (paragraph_index <? 0) || (Z.of_nat (length paragraphs) <=? paragraph_index)
  then Ret (-1, -1)
  else
    target_para ← SectionsApi.getitem paragraphs paragraph_index;
    found ← search_loop text paragraphs (Py.range paragraph_index) 0;
    match found with
    | None => Ret (-1, -1)
    | Some search_start =>
        let start_pos := Py.find text target_para search_start in
        if start_pos =? -1 then Ret (-1, -1)
        else Ret (start_pos, start_pos + Z.of_nat (String.length target_para))
    end.

End ParagraphPositions.

(** ** The algorithms as the specification words them *)

Module Spec.

Import Citations.

(** "Exact match: first Citation whose title equals the marker's title
    (case-insensitive) and whose page equals the marker's page"; "if no
    exact match exists, the first Citation whose title matches regardless of
    page". *)
Definition resolve {score : Type} (title : string) (page : Z)
    (available : list (Citation score)) : option (Citation score) :=
  match List.find (λ c, bool_decide (Py.lower (document_title c) = Py.lower title)
                        && bool_decide (page_number c = page)) available with
  | Some c => Some c
  | None =>
      List.find (λ c, bool_decide (Py.lower (document_title c) = Py.lower title))
                available
  end.

(** "A Citation already present in the result (compared by
    document_title+page_number identity) is not appended twice". *)
Definition present {score : Type} (c : Citation score)
    (result : list (Citation score)) : bool :=
  bool_decide ((document_title c, page_number c)
               ∈ (λ x, (document_title x, page_number x)) <$> result).

(** [extract_used_citations]: the markers in order of appearance (the marker
    grammar is the pattern of the code), each resolved and appended unless
    present. *)
Definition extract_used_citations {score : Type} (generated_text : string)
    (available : list (Citation score)) : list (Citation score) :=
  foldl (λ result '(title, page_str),
           match resolve title (SectionGenerator.int page_str) available with
           | Some c => if present c result then result else result ++ [c]
           | None => result
           end)
        [] (SectionGenerator.findall generated_text).

(** "if [i] has a lock": the text locked at [i], the last entry listed for
    [i] when there are several (last write wins). *)
Fixpoint lock_at (locked : list (Z * string)) (i : Z) : option string :=
  match locked with
  | [] => None
  | (idx, text) :: rest =>
      match lock_at rest i with
      | Some t => Some t
      | None => if bool_decide (idx = i) then Some text else None
      end
  end.

(** "N = max(len(new_paragraphs), 1 + max(locked index))", and
    "N = len(new_paragraphs)" without locks. *)
Definition positions (new_paragraphs : list string) (locked : list (Z * string)) : Z :=
  match locked with
  | [] => Z.of_nat (length new_paragraphs)
  | (idx, _) :: rest =>
      Z.max (Z.of_nat (length new_paragraphs)) (1 + foldr Z.max idx rest.*1)
  end.

(** "For i in 0..N: if i has a lock, emit the locked text; else if
    i < len(new_paragraphs), emit new_paragraphs[i]; else emit nothing". *)
Definition emit (new_paragraphs : list string) (locked : list (Z * string))
    (i : Z) : option string :=
  match lock_at locked i with
  | Some text => Some text
  | None =>
      if i <? Z.of_nat (length new_paragraphs)
      then new_paragraphs !! Z.to_nat i else None
  end.

(** "Join emitted paragraphs with a blank-line separator." *)
Definition merge (new_text : string) (locked : list (Z * string)) : string :=
  let new_paragraphs := ParagraphLock.split_into_paragraphs new_text in
  let N := positions new_paragraphs locked in
  Py.join ParagraphLock.blank_line (omap (emit new_paragraphs locked) (seqZ 0 N)).

End Spec.

(** ** A small encoding for the worked examples

    The examples need some concrete encoding. This one cuts a run of decimal
    digits into groups of at most three, from the left (as the pre-tokenizer
    of [cl100k_base] does with digit runs), and makes every other character a
    token of its own. A token id below 256 is that character; the id of a
    group of [k] digits of value [v] is [256 + 1000 * (k - 1) + v]. *)

Module DigitEncoding.

Definition is_digit (c : ascii) : bool :=
  let n := N_of_ascii c in ((48 <=? n) && (n <=? 57))%N.

Definition digit_value (c : ascii) : Z := Z.of_N (N_of_ascii c) - 48.

Definition group_token (k : nat) (v : Z) : Z := 256 + 1000 * (Z.of_nat k - 1) + v.

Definition flush (k : nat) (v : Z) : list Z :=
  match k with O => [] | S _ => [group_token k v] end.

(** [k] digits of value [v] are pending. *)
Fixpoint encode_go (k : nat) (v : Z) (s : string) : list Z :=
  match s with
  | EmptyString => flush k v
  | String c s' =>
      if is_digit c then
        if (k <? 3)%nat then encode_go (S k) (10 * v + digit_value c) s'
        else group_token k v :: encode_go 1 (digit_value c) s'
      else flush k v ++ Z.of_N (N_of_ascii c) :: encode_go 0 0 s'
  end.

Definition encode (s : string) : list Z := encode_go 0 0 s.

Definition digit_char (d : Z) : ascii := ascii_of_N (Z.to_N (48 + d)).

Definition decode_token (t : Z) : string :=
  if t <? 256 then String (ascii_of_N (Z.to_N t)) ""
  else
    let k := (t - 256) / 1000 in
    let v := (t - 256) mod 1000 in
    if k =? 0 then String (digit_char v) ""
    else if k =? 1 then String (digit_char (v / 10)) (String (digit_char (v mod 10)) "")
    else String (digit_char (v / 100))
           (String (digit_char ((v / 10) mod 10)) (String (digit_char (v mod 10)) "")).

Definition decode (ts : list Z) : string := String.concat "" (decode_token <$> ts).

Definition encoding : tiktoken.Encoding :=
  {| tiktoken.encode := encode; tiktoken.decode := decode |}.

Definition get_encoding (name : string) : outcome tiktoken.Encoding :=
  if bool_decide (name = "cl100k_base") then Ret encoding
  else Raise (ValueError "Unknown encoding").

Definition splitter (chunk_size chunk_overlap : Z) : Chunking.RecursiveCharacterTextSplitter :=
  {| Chunking.chunk_size := chunk_size;
     Chunking.chunk_overlap := chunk_overlap;
     Chunking.encoding := encoding;
     Chunking.separators := Chunking.default_separators |}.

(** 75 digits: 25 tokens, no separator. *)
Definition digits75 : string :=
  "123123123123123123123123123123123123123123123123123123123123123123123123123".

(** Two runs of 24 digits (8 tokens each) around one space: 17 tokens. *)
Definition two_runs : string :=
  "123123123123123123123123 456456456456456456456456".

End DigitEncoding.

(** ** A stored section and an update request, for the worked examples *)

Module Examples.

Import Citations SectionsApi.

Definition report_page_3 : Citation Z :=
  {| document_id := "doc-1";
     document_title := "Annual Report";
     page_number := 3;
     chunk_text := "Revenue grew.";
     chunk_id := None;
     relevance_score := Some 1 |}.

Definition stored : section_data Z :=
  {| section_id := "sec-1";
     section_name := "Summary";
     text := "old";
     word_count := 1;
     citations := [report_page_3];
     warning := None;
     locked_paragraphs := [];
     locked_paragraphs_data := None;
     generated_at := "2024-01-01T00:00:00" |}.

Definition store : gmap string (gmap string (section_data Z)) :=
  {[ "session-1" := {[ "Summary" := stored ]} ]}.

(** Three paragraphs; the indices 5 and -1 are out of range. *)
Definition request : UpdateSectionRequest :=
  {| req_text := "P0" +:+ ParagraphLock.blank_line +:+ "P1"
                  +:+ ParagraphLock.blank_line +:+ "P2";
     locked_paragraph_indices := [1; 5; -1; 0] |}.

End Examples.

(** ** [backend/src/models/citation.py]: the methods of [Citation] *)

Module CitationMethods.

Import Citations.

(** [str(n)] for an [int]: decimal digits, with a minus sign when negative. *)
Definition str (n : Z) : string := pretty n.

(** [s[:n]] for a [str]. *)
Definition str_upto (s : string) (n : Z) : string :=
  String.substring 0 (Z.to_nat (Py.clamp_index (Z.of_nat (String.length s)) n)) s.

Section Methods.

Context {score : Type}.

(** [to_inline_format]: [f"[{self.document_title}, p.{self.page_number}]"]. *)
Definition to_inline_format (self : Citation score) : string :=
  "[" +:+ document_title self +:+ ", p." +:+ str (page_number self) +:+ "]".

(** [get_snippet]. *)
Definition get_snippet (self : Citation score) (max_chars : Z) : string :=
  if Z.of_nat (String.length (chunk_text self)) <=? max_chars then chunk_text self
  else str_upto (chunk_text self) max_chars +:+ "...".

End Methods.

End CitationMethods.

(** ** A character-level encoding

    One token per character, its code point: the simplest encoding whose
    counts add up under concatenation. *)

Module CharEncoding.

Fixpoint encode (s : string) : list Z :=
  match s with
  | EmptyString => []
  | String c s' => Z.of_N (N_of_ascii c) :: encode s'
  end.

Fixpoint decode (ts : list Z) : string :=
  match ts with
  | [] => EmptyString
  | t :: ts' => String (ascii_of_N (Z.to_N t)) (decode ts')
  end.

Definition encoding : tiktoken.Encoding :=
  {| tiktoken.encode := encode; tiktoken.decode := decode |}.

Definition splitter (chunk_size chunk_overlap : Z) : Chunking.RecursiveCharacterTextSplitter :=
  {| Chunking.chunk_size := chunk_size;
     Chunking.chunk_overlap := chunk_overlap;
     Chunking.encoding := encoding;
     Chunking.separators := Chunking.default_separators |}.

End CharEncoding.

(** ** [backend/src/services/indexing_service.py]

    The parser and the vector store are outside this file: [parse_file]
    gives the pages of a file or the exception it raises, [add_documents]
    says whether the vector store took the chunks ([None]) or raised. What
    [index_document] hands to the vector store is returned beside its
    result. *)

Module IndexingService.

(** A page as the parser gives it: [page['text']], [page['page_number']]. *)
Record page : Type := {
  page_text : string;
  page_number : Z
}.

Record metadata : Type := {
  md_document_id : string;
  md_document_title : string;
  md_page_number : Z;
  md_chunk_index : Z;
  md_source_file : string
}.

(** The dictionary [index_document] returns; the key [document_title] is
    there on success only, the key [error] on failure only. *)
Record indexing_result : Type := {
  success : bool;
  chunk_count : Z;
  document_id : string;
  document_title : option string;
  error : option string
}.

(** An entry of [documents]. *)
Record document : Type := {
  doc_file_path : string;
  doc_document_id : string;
  doc_document_title : string
}.

(** The dictionary [index_multiple_documents] returns. *)
Record indexing_summary : Type := {
  total_documents : Z;
  successful : Z;
  failed : Z;
  total_chunks : Z;
  results : list indexing_result
}.

(** The arguments of a call of [vector_store.add_documents]. *)
Record add_documents_call : Type := {
  call_session_id : string;
  call_texts : list string;
  call_metadatas : list metadata
}.

(** [str(e)]. *)
Definition str_of_exn (e : exn) : string :=
  match e with
  | ValueError msg | IndexError msg | ValidationError msg => msg
  end.

(** The locals [texts], [metadatas] and [chunk_index] of [index_document]. *)
Record chunking_state : Type := {
  texts : list string;
  metadatas : list metadata;
  chunk_index : Z
}.

Section Methods.

Variable text_splitter : Chunking.RecursiveCharacterTextSplitter.
Variable parse_file : string → exn + list page.
Variable add_documents : add_documents_call → option exn.

(** The body of [for chunk_text in page_chunks]. *)
Definition append_chunk (file_path document_id document_title : string)
    (page_number : Z) (st : chunking_state) (chunk_text : string) : chunking_state :=
  if Py.is_empty (Py.strip chunk_text) then st
  else
    {| texts := texts st ++ [chunk_text];
       metadatas :=
         metadatas st ++
         [{| md_document_id := document_id;
             md_document_title := document_title;
             md_page_number := page_number;
             md_chunk_index := chunk_index st;
             md_source_file := file_path |}];
       chunk_index := chunk_index st + 1 |}.

(** The loop [for page in pages]. *)
Fixpoint chunk_pages (file_path document_id document_title : string)
    (st : chunking_state) (pages : list page) : outcome chunking_state :=
  match pages with
  | [] => Ret st
  | page :: rest =>
      page_chunks ← Chunking.split_text text_splitter (page_text page);
      chunk_pages file_path document_id document_title
        (foldl (append_chunk file_path document_id document_title (page_number page))
               st page_chunks)
        rest
  end.

Definition failure (document_id error : string) : indexing_result :=
  {| success := false;
     chunk_count := 0;
     document_id := document_id;
     document_title := None;
     error := Some error |}.

(** [index_document]: every exception is caught and reported in the result. *)
Definition index_document (session_id file_path document_id document_title : string)
  : outcome (option add_documents_call * indexing_result) :=
  match parse_file file_path with
  | inl e => Ret (None, failure document_id (str_of_exn e))
  | inr pages =>
      if bool_decide (pages = [])
      then Ret (None, failure document_id "No content extracted from document")
      else
        match chunk_pages file_path document_id document_title
                {| texts := []; metadatas := []; chunk_index := 0 |} pages with
        | OutOfFuel => OutOfFuel
        | Raise e => Ret (None, failure document_id (str_of_exn e))
        | Ret st =>
            if bool_decide (texts st = [])
            then Ret (None,
                      failure document_id "No text chunks generated from document")
            else
              let call :=
                {| call_session_id := session_id;
                   call_texts := texts st;
                   call_metadatas := metadatas st |} in
              match add_documents call with
              | Some e => Ret (Some call, failure document_id (str_of_exn e))
              | None =>
                  Ret (Some call,
                       {| success := true;
                          chunk_count := Z.of_nat (length (texts st));
                          document_id := document_id;
                          document_title := Some document_title;
                          error := None |})
              end
        end
  end.

(** The loop [for doc in documents] of [index_multiple_documents], on the
    dictionary that is returned at the end. *)
Fixpoint index_documents_loop (session_id : string) (acc : indexing_summary)
    (documents : list document) : outcome indexing_summary :=
  match documents with
  | [] => Ret acc
  | doc :: rest =>
      '(_, result) ← index_document session_id (doc_file_path doc)
                       (doc_document_id doc) (doc_document_title doc);
      index_documents_loop session_id
        (if success result
         then {| total_documents := total_documents acc;
                 successful := successful acc + 1;
                 failed := failed acc;
                 total_chunks := total_chunks acc + chunk_count result;
                 results := results acc ++ [result] |}
         else {| total_documents := total_documents acc;
                 successful := successful acc;
                 failed := failed acc + 1;
                 total_chunks := total_chunks acc;
                 results := results acc ++ [result] |})
        rest
  end.

Definition index_multiple_documents (session_id : string)
    (documents : list document) : outcome indexing_summary :=
  index_documents_loop session_id
    {| total_documents := Z.of_nat (length documents);
       successful := 0;
       failed := 0;
       total_chunks := 0;
       results := [] |}
    documents.

End Methods.

End IndexingService.

(** A parser and a vector store for the worked examples: two files of
    three and two pages, any other path is refused; the store takes
    everything. *)

Module IndexingExamples.

Import IndexingService.

Definition parse_file (file_path : string) : exn + list page :=
  if String.eqb file_path "notes.pdf" then
    inr [ {| page_text := "Revenue grew."; page_number := 1 |};
          {| page_text := "   "; page_number := 2 |};
          {| page_text := "Costs fell."; page_number := 3 |} ]
  else if String.eqb file_path "scan.pdf" then
    inr [ {| page_text := "Revenue grew."; page_number := 1 |};
          {| page_text := DigitEncoding.digits75; page_number := 2 |} ]
  else inl (ValueError "Unsupported file type").

Definition add_documents (call : add_documents_call) : option exn := None.

(** What indexing the notes hands to the vector store, and answers: the
    blank page gives no chunk. *)
Definition notes_call : add_documents_call :=
  {| call_session_id := "session-1";
     call_texts := ["Revenue grew."; "Costs fell."];
     call_metadatas :=
       [ {| md_document_id := "doc-1"; md_document_title := "Notes";
            md_page_number := 1; md_chunk_index := 0;
            md_source_file := "notes.pdf" |};
         {| md_document_id := "doc-1"; md_document_title := "Notes";
            md_page_number := 3; md_chunk_index := 1;
            md_source_file := "notes.pdf" |} ] |}.

Definition notes_result : indexing_result :=
  {| success := true;
     chunk_count := 2;
     document_id := "doc-1";
     document_title := Some "Notes";
     error := None |}.

Definition documents : list document :=
  [ {| doc_file_path := "notes.pdf";
       doc_document_id := "doc-1";
       doc_document_title := "Notes" |};
    {| doc_file_path := "scan.pdf";
       doc_document_id := "doc-2";
       doc_document_title := "Scan" |} ].

End IndexingExamples.

(** ** [backend/src/models/section.py]: further methods of [GeneratedSection]

    Each method is a function of the fields it reads. *)

Module GeneratedSection.

Import SectionModel.

(** [count_words]: the whitespace-separated words of [ai_generated_text]. *)
Definition count_words (ai_generated_text : string) : Z :=
  if Py.is_empty ai_generated_text then 0
  else Z.of_nat (length (Py.split_ws ai_generated_text)).

Definition split_into_paragraphs (ai_generated_text : string) : list string :=
  if Py.is_empty ai_generated_text then []
  else
    let paragraphs := Py.split_pieces ai_generated_text ParagraphLock.blank_line in
    Py.strip <$> List.filter (λ p, negb (Py.is_empty (Py.strip p))) paragraphs.

(** [is_paragraph_locked]: [any(lp.index == paragraph_index ...)]. *)
Definition is_paragraph_locked (locked_paragraphs : list LockedParagraph)
    (paragraph_index : Z) : bool :=
  existsb (λ lp, bool_decide (index lp = paragraph_index)) locked_paragraphs.

(** [lock_paragraph]: the new list of locks; [now] is the time stamp of the
    clock. *)
Definition lock_paragraph (locked_paragraphs : list LockedParagraph)
    (paragraph_index : Z) (text : string) (now : string) : list LockedParagraph :=
  List.filter (λ lp, negb (bool_decide (index lp = paragraph_index))) locked_paragraphs
  ++ [{| index := paragraph_index; text := text; locked_at := Some now |}].

End GeneratedSection.

(** ** Notions for the further properties *)

Module Notions.

(** The token stream behind a list of overlapping windows: the first window,
    then every later window without its first [k] tokens. *)
Definition remove_overlap (k : nat) (windows : list (list Z)) : list Z :=
  match windows with
  | [] => []
  | w :: rest => w ++ concat (drop k <$> rest)
  end.

(** [checked] does what [total] does, unless the tokenizer refuses a text:
    then it raises the exception of the tokenizer. *)
Definition simulates {A : Type} (refused : string → option exn)
    (checked total : outcome A) : Prop :=
  checked = total ∨ ∃ t e, refused t = Some e ∧ checked = Raise e.

(** A tokenizer that refuses the texts holding the special token
    [<|endoftext|>]. *)
Definition refuses_endoftext (text : string) : option exn :=
  if Py.contains "<|endoftext|>" text
  then Some (ValueError "disallowed special token")
  else None.

(** The status code of an answer; a response is answered with 200. *)
Definition status_code {A : Type} (r : SectionsApi.http_result A) : Z :=
  match r with
  | SectionsApi.Ok _ => 200
  | SectionsApi.HTTPException code => code
  end.

(** The exception of [text.split] on the empty separator. *)
Definition empty_separator_error : exn := ValueError "empty separator".

(** What a call can raise: [e0] and nothing else. *)
Definition raises_only {A : Type} (e0 : exn) (m : outcome A) : Prop :=
  ∀ e, m = Raise e → e = e0.

(** The state of the loop of [_merge_splits] as groups of pieces. *)
Definition grouped (separator : string) (st : Chunking.merge_state)
    (pieces : list string) : Prop :=
  ∃ groups,
    Chunking.chunks st = Py.join separator <$> groups
    ∧ Forall (λ g, g ≠ []) groups
    ∧ concat groups ++ Chunking.current_chunk st = pieces.

(** No occurrence of [sep] in [acc ++ s] starts inside [acc]. *)
Fixpoint no_start (sep acc s : string) : bool :=
  match acc with
  | EmptyString => true
  | String _ acc' => negb (String.prefix sep (acc +:+ s)) && no_start sep acc' s
  end.

(** What [split_into_paragraphs] returns: a paragraph is not empty, has no
    space at either end, and holds no blank line. *)
Definition well_formed_paragraph (p : string) : Prop :=
  p ≠ "" ∧ Py.strip p = p ∧ Py.contains ParagraphLock.blank_line p = false.

(** The strings of [ps] occur in [s] one after the other, in order. *)
Fixpoint in_order (ps : list string) (s : string) : Prop :=
  match ps with
  | [] => True
  | p :: ps' => ∃ a b, s = a +:+ p +:+ b ∧ in_order ps' b
  end.

(** The end of the search of [get_paragraph_boundaries] for the paragraphs
    [ps], begun at [search_start]. *)
Fixpoint greedy_end (text : string) (ps : list string) (search_start : Z) : Z :=
  match ps with
  | [] => search_start
  | p :: ps' =>
      greedy_end text ps'
        (Py.find text p search_start + Z.of_nat (String.length p))
  end.

(** A text that holds none of the four real separators of the splitter. *)
Definition separator_free (text : string) : Prop :=
  Py.contains ParagraphLock.blank_line text = false
  ∧ Py.contains (String Py.LF "") text = false
  ∧ Py.contains ". " text = false
  ∧ Py.contains " " text = false.

(** A chunk that [index_document] keeps: not only spaces. *)
Definition not_blank (chunk_text : string) : bool :=
  negb (Py.is_empty (Py.strip chunk_text)).

(** The chunks kept of a document, in order, each with the number of its
    page; [chunks_per_page] lists what [split_text] gives for each page. *)
Definition kept_chunks (pages : list IndexingService.page)
    (chunks_per_page : list (list string)) : list (Z * string) :=
  concat (zip_with (λ page page_chunks,
                      (λ chunk_text, (IndexingService.page_number page, chunk_text))
                      <$> List.filter not_blank page_chunks)
                   pages chunks_per_page).

(** Token counts never grow under concatenation. *)
Definition subadditive (enc : tiktoken.Encoding) : Prop :=
  ∀ a b : string,
    (length (tiktoken.encode enc (a +:+ b))
     ≤ length (tiktoken.encode enc a) + length (tiktoken.encode enc b))%nat.

End Notions.

(** ** Facts about the string primitives *)

Section PyFacts.

Lemma prefix_length (sep s : string) :
  String.prefix sep s = true → (String.length sep ≤ String.length s)%nat.
Proof.
  revert s. induction sep as [|a sep IH]; intros [|b s]; simpl; try lia.
  destruct (ascii_dec a b); [|intros; discriminate].
  intros H. apply IH in H. lia.
Qed.

Lemma length_append (a b : string) :
  String.length (a +:+ b) = (String.length a + String.length b)%nat.
Proof. induction a; simpl; auto. Qed.

Lemma contains_empty (s : string) : Py.contains "" s = true.
Proof. destruct s; reflexivity. Qed.

Lemma split_from_cons (sep acc : string) (c : ascii) (s : string) :
  Py.split_from sep 0 acc (String c s) =
  if String.prefix sep (String c s)
  then acc :: Py.split_from sep (Nat.pred (String.length sep)) "" s
  else Py.split_from sep 0 (acc +:+ String c "") s.
Proof. reflexivity. Qed.

(** No piece is longer than what was scanned. *)
Lemma split_from_length (sep : string) (s : string) :
  ∀ (skip : nat) (acc p : string),
    (skip ≤ String.length s)%nat →
    p ∈ Py.split_from sep skip acc s →
    (String.length p + skip ≤ String.length acc + String.length s)%nat.
Proof.
  induction s as [|c s IH]; intros skip acc p Hskip Hin.
  - simpl in *. apply list_elem_of_singleton in Hin. subst. lia.
  - destruct skip as [|k].
    + rewrite split_from_cons in Hin.
      destruct (String.prefix sep (String c s)) eqn:Hpre.
      * apply elem_of_cons in Hin as [-> | Hin]; [lia|].
        apply prefix_length in Hpre. simpl in Hpre.
        apply IH in Hin; simpl in *; lia.
      * apply IH in Hin; [|lia]. rewrite length_append in Hin. simpl in *. lia.
    + simpl in Hin, Hskip. apply IH in Hin; simpl; lia.
Qed.

(** When the separator occurs, every piece is strictly shorter than the
    text. *)
Lemma split_from_shorter (sep : string) (s : string) :
  sep ≠ "" →
  ∀ (acc p : string),
    Py.contains sep s = true →
    p ∈ Py.split_from sep 0 acc s →
    (String.length p < String.length acc + String.length s)%nat.
Proof.
  intros Hsep. induction s as [|c s IH]; intros acc p Hc Hin.
  - simpl in Hc. destruct sep; [done | discriminate].
  - rewrite split_from_cons in Hin.
    destruct (String.prefix sep (String c s)) eqn:Hpre.
    + apply elem_of_cons in Hin as [-> | Hin]; [simpl; lia|].
      apply prefix_length in Hpre.
      assert (0 < String.length sep)%nat by (destruct sep; [done | simpl; lia]).
      apply split_from_length in Hin; simpl in *; lia.
    + cbn [Py.contains] in Hc. rewrite Hpre in Hc. simpl in Hc.
      apply IH in Hin; [|done]. rewrite length_append in Hin. simpl in *. lia.
Qed.

(** Slices with bounds in range. *)
Lemma slice_in_range {A : Type} (l : list A) (a b : Z) :
  0 ≤ a ≤ b → b ≤ Z.of_nat (length l) →
  Py.slice l a b = take (Z.to_nat (b - a)) (drop (Z.to_nat a) l).
Proof.
  intros Hab Hb. unfold Py.slice, Py.clamp_index.
  destruct (Z.ltb_spec a 0); [lia|]. destruct (Z.ltb_spec b 0); [lia|].
  by rewrite !Z.min_l by lia.
Qed.

Lemma length_slice {A : Type} (l : list A) (a b : Z) :
  0 ≤ a ≤ b → b ≤ Z.of_nat (length l) →
  length (Py.slice l a b) = Z.to_nat (b - a).
Proof.
  intros Hab Hb. rewrite slice_in_range by done.
  rewrite length_take, length_drop. lia.
Qed.

(** The end of a slice, and its beginning, are slices. *)
Lemma slice_suffix {A : Type} (l : list A) (a b c : Z) :
  0 ≤ a ≤ c → c ≤ b → b ≤ Z.of_nat (length l) →
  drop (Z.to_nat (c - a)) (Py.slice l a b) = Py.slice l c b.
Proof.
  intros Hac Hcb Hb. rewrite !slice_in_range by lia.
  rewrite !take_drop_commute, drop_drop. f_equal; [lia|]. f_equal. lia.
Qed.

Lemma slice_prefix {A : Type} (l : list A) (a b c : Z) :
  0 ≤ a ≤ c → c ≤ b → b ≤ Z.of_nat (length l) →
  take (Z.to_nat (c - a)) (Py.slice l a b) = Py.slice l a c.
Proof.
  intros Hac Hcb Hb. rewrite !slice_in_range by lia.
  rewrite take_take. f_equal. lia.
Qed.

End PyFacts.

(** ** Termination of [split_text] *)

Section ChunkingFacts.

Import Chunking.

Variable self : RecursiveCharacterTextSplitter.

Lemma merge_step_total (rec : string → outcome (list string))
    (separator : string) (st : merge_state) (split : string) :
  returns_or_raises (rec split) →
  returns_or_raises (merge_step self rec separator st split).
Proof.
  unfold returns_or_raises, merge_step. intros Hrec.
  destruct (Py.is_empty split); [done|].
  destruct (chunk_size self <? count_tokens self split).
  - destruct (rec split); simpl; done.
  - repeat case_match; done.
Qed.

Lemma merge_loop_total (rec : string → outcome (list string))
    (separator : string) (splits : list string) :
  ∀ st : merge_state,
    (∀ p, p ∈ splits → returns_or_raises (rec p)) →
    returns_or_raises (merge_loop self rec separator st splits).
Proof.
  induction splits as [|split rest IH]; intros st Hrec; [done|].
  cbn [merge_loop].
  pose proof (merge_step_total rec separator st split) as Hstep.
  destruct (merge_step self rec separator st split) as [st'| |]; simpl.
  - apply IH. intros p Hp. apply Hrec. by right.
  - done.
  - exfalso. apply Hstep; [|done]. apply Hrec. by left.
Qed.

Lemma _merge_splits_total (rec : string → outcome (list string))
    (separator : string) (splits : list string) :
  (∀ p, p ∈ splits → returns_or_raises (rec p)) →
  returns_or_raises (_merge_splits self rec splits separator).
Proof.
  intros Hrec. unfold _merge_splits.
  pose proof (merge_loop_total rec separator splits
    {| chunks := []; current_chunk := []; current_tokens := 0 |} Hrec) as H.
  destruct (merge_loop _ _ _ _ _); simpl; done.
Qed.

(** The empty separator closes the list, and [split] rejects it: the loop
    over the separators never falls through to [_split_by_tokens]. *)
Lemma try_separators_total (rec : string → outcome (list string))
    (seps : list string) (text : string) :
  "" ∈ seps →
  (∀ sep p, sep ≠ "" → Py.contains sep text = true →
            p ∈ Py.split_from sep 0 "" text → returns_or_raises (rec p)) →
  returns_or_raises (try_separators self rec seps text).
Proof.
  intros Hin Hrec. induction seps as [|sep rest IH]; [inversion Hin|].
  cbn [try_separators].
  destruct (Py.contains sep text) eqn:Hc.
  - unfold Py.split. destruct sep as [|a sep'].
    + simpl. done.
    + cbn [Py.is_empty]. simpl mbind.
      pose proof (_merge_splits_total rec (String a sep')
                    (Py.split_from (String a sep') 0 "" text)) as Hm.
      unfold mbind, outcome_bind.
      destruct (_merge_splits _ _ _ _) as [cs| |].
      * case_bool_decide; [|done]. apply IH.
        apply elem_of_cons in Hin as [?|?]; done.
      * done.
      * exfalso. apply Hm; [|done]. intros p Hp. eapply Hrec; [|exact Hc|exact Hp]. discriminate.
  - destruct sep; [by rewrite contains_empty in Hc|].
    apply IH. apply elem_of_cons in Hin as [?|?]; done.
Qed.

Lemma split_text_fuel_enough (fuel : nat) :
  "" ∈ separators self →
  ∀ text : string,
    (String.length text < fuel)%nat →
    returns_or_raises (split_text_fuel self fuel text).
Proof.
  intros Hsep. induction fuel as [|fuel IH]; intros text Hlen; [lia|].
  cbn [split_text_fuel].
  destruct (Py.is_empty text); [done|].
  destruct (count_tokens self text <=? chunk_size self); [done|].
  apply try_separators_total; [done|].
  intros sep p Hne Hc Hp. apply IH.
  pose proof (split_from_shorter sep text Hne "" p Hc Hp). simpl in *. lia.
Qed.

(** More fuel never changes a result. *)
Lemma merge_step_extends (rec1 rec2 : string → outcome (list string))
    (separator : string) (st : merge_state) (split : string) :
  extends rec1 rec2 →
  returns_or_raises (merge_step self rec1 separator st split) →
  merge_step self rec2 separator st split = merge_step self rec1 separator st split.
Proof.
  unfold merge_step. intros Hext Hr.
  destruct (Py.is_empty split); [done|].
  destruct (chunk_size self <? count_tokens self split); [|done].
  rewrite Hext; [done|].
  intros Hrec. rewrite Hrec in Hr. by apply Hr.
Qed.

Lemma merge_loop_extends (rec1 rec2 : string → outcome (list string))
    (separator : string) (splits : list string) :
  extends rec1 rec2 →
  ∀ st : merge_state,
    returns_or_raises (merge_loop self rec1 separator st splits) →
    merge_loop self rec2 separator st splits = merge_loop self rec1 separator st splits.
Proof.
  intros Hext. induction splits as [|split rest IH]; intros st Hr; [done|].
  cbn [merge_loop] in *.
  rewrite (merge_step_extends rec1 rec2); [|done|].
  - destruct (merge_step self rec1 separator st split); simpl in *; [|done..].
    by apply IH.
  - intros Hs. rewrite Hs in Hr. by apply Hr.
Qed.

Lemma try_separators_extends (rec1 rec2 : string → outcome (list string))
    (seps : list string) (text : string) :
  extends rec1 rec2 →
  returns_or_raises (try_separators self rec1 seps text) →
  try_separators self rec2 seps text = try_separators self rec1 seps text.
Proof.
  intros Hext. induction seps as [|sep rest IH]; intros Hr; [done|].
  cbn [try_separators] in *.
  destruct (Py.contains sep text); [|by apply IH].
  destruct (Py.split text sep) as [splits| |]; simpl in *; [|done..].
  unfold _merge_splits in *.
  rewrite (merge_loop_extends rec1 rec2); [|done|].
  - destruct (merge_loop self rec1 sep _ splits); simpl in *; [|done..].
    case_bool_decide; [by apply IH | done].
  - intros Hs. rewrite Hs in Hr. by apply Hr.
Qed.

Lemma split_text_fuel_mono (fuel : nat) :
  ∀ (extra : nat) (text : string),
    returns_or_raises (split_text_fuel self fuel text) →
    split_text_fuel self (fuel + extra) text = split_text_fuel self fuel text.
Proof.
  induction fuel as [|fuel IH]; intros extra text Hr; [by destruct Hr|].
  cbn [split_text_fuel Nat.add] in *.
  destruct (Py.is_empty text); [done|].
  destruct (count_tokens self text <=? chunk_size self); [done|].
  apply try_separators_extends; [|done].
  intros p Hp. by apply IH.
Qed.

Lemma split_text_total (text : string) :
  "" ∈ separators self → returns_or_raises (split_text self text).
Proof. intros H. apply split_text_fuel_enough; [done | lia]. Qed.

End ChunkingFacts.

(** ** The forced split and the base case *)

Section SplitTextClaims.

Import Chunking.

Variable self : RecursiveCharacterTextSplitter.

Lemma _split_by_tokens_loop_step (fuel : nat) (tokens : list Z)
    (chunks : list string) (start : Z) :
  start < Z.of_nat (length tokens) →
  _split_by_tokens_loop self (S fuel) tokens chunks start =
  let end_ := Z.min (start + chunk_size self) (Z.of_nat (length tokens)) in
  _split_by_tokens_loop self fuel tokens
    (chunks ++ [tiktoken.decode (encoding self) (Py.slice tokens start end_)])
    (if end_ <? Z.of_nat (length tokens) then end_ - chunk_overlap self else end_).
Proof.
  intros Hlt. cbn [_split_by_tokens_loop].
  destruct (Z.ltb_spec start (Z.of_nat (length tokens))); [done | lia].
Qed.

Lemma _split_by_tokens_loop_done (fuel : nat) (tokens : list Z)
    (chunks : list string) (start : Z) :
  Z.of_nat (length tokens) ≤ start →
  _split_by_tokens_loop self fuel tokens chunks start = Ret chunks.
Proof.
  intros Hge. destruct fuel; cbn [_split_by_tokens_loop];
    destruct (Z.ltb_spec start (Z.of_nat (length tokens))); done || lia.
Qed.

(** With an overlap below the chunk size every window starts further right
    than the one before, and the loop of [_split_by_tokens] ends. *)
Lemma _split_by_tokens_loop_returns (fuel : nat) (tokens : list Z) :
  0 ≤ chunk_overlap self < chunk_size self →
  ∀ (chunks : list string) (start : Z),
    0 ≤ start →
    Z.of_nat (length tokens) - start < Z.of_nat fuel →
    ∃ result, _split_by_tokens_loop self fuel tokens chunks start = Ret result.
Proof.
  intros Hcfg. induction fuel as [|fuel IH]; intros chunks start Hs Hfuel.
  - exists chunks. apply _split_by_tokens_loop_done. lia.
  - destruct (Z.lt_ge_cases start (Z.of_nat (length tokens))) as [Hlt | Hge].
    + rewrite _split_by_tokens_loop_step by done. cbv zeta.
      destruct (Z.ltb_spec (Z.min (start + chunk_size self) (Z.of_nat (length tokens)))
                           (Z.of_nat (length tokens))); apply IH; lia.
    + exists chunks. by apply _split_by_tokens_loop_done.
Qed.

Lemma _split_by_tokens_returns (text : string) :
  0 ≤ chunk_overlap self < chunk_size self →
  ∃ result, _split_by_tokens self text = Ret result.
Proof.
  intros Hcfg. unfold _split_by_tokens.
  apply _split_by_tokens_loop_returns; [done | lia | lia].
Qed.

(** On a text over the budget that holds none of the four real separators,
    the loop of [split_text] arrives at the empty separator, which is "in"
    every text, and [text.split("")] raises. *)
Lemma try_separators_blob (rec : string → outcome (list string)) (text : string) :
  Py.contains ParagraphLock.blank_line text = false →
  Py.contains (String Py.LF "") text = false →
  Py.contains ". " text = false →
  Py.contains " " text = false →
  try_separators self rec default_separators text =
  Raise (ValueError "empty separator").
Proof.
  intros H1 H2 H3 H4. unfold default_separators. cbn [try_separators].
  change (String Py.LF (String Py.LF "")) with ParagraphLock.blank_line.
  rewrite H1, H2, H3, H4, contains_empty. reflexivity.
Qed.

(** C1. [split_text] is not total on the inputs the claim names: for every
    non-empty text whose token count exceeds [chunk_size] and that holds no
    paragraph break, line break, period-space or space, [split_text] raises
    [ValueError] instead of returning a list of chunks. *)
Theorem split_text_separator_free_raises (text : string) :
  separators self = default_separators →
  text ≠ "" →
  chunk_size self < count_tokens self text →
  Py.contains ParagraphLock.blank_line text = false →
  Py.contains (String Py.LF "") text = false →
  Py.contains ". " text = false →
  Py.contains " " text = false →
  split_text self text = Raise (ValueError "empty separator").
Proof.
  intros Hsep Hne Hbig H1 H2 H3 H4.
  unfold split_text. cbn [split_text_fuel].
  destruct text as [|c text]; [done|]. cbn [Py.is_empty].
  destruct (Z.leb_spec (count_tokens self (String c text)) (chunk_size self)); [lia|].
  rewrite Hsep. by apply try_separators_blob.
Qed.

(** C9. A text within the budget is returned whole, as the only chunk, and
    the empty text gives the empty list; one unit of fuel is enough, that is,
    [split_text] does not call itself. *)
Theorem split_text_base_case (text : string) :
  text = "" ∨ count_tokens self text ≤ chunk_size self →
  split_text self text = Ret (if Py.is_empty text then [] else [text])
  ∧ split_text_fuel self 1 text = split_text self text.
Proof.
  intros Hfit. unfold split_text. cbn [split_text_fuel].
  destruct (Py.is_empty text) eqn:He; [done|].
  destruct Hfit as [-> | Hfit]; [done|].
  destruct (Z.leb_spec (count_tokens self text) (chunk_size self)); [done | lia].
Qed.

(** C2. On the example of the claim (chunk size 10, overlap 3, 25 tokens, no
    separator) [split_text] does not return the hard-split windows: it raises
    [ValueError]. The windows are what [_split_by_tokens] would give, were it
    reached: they start at the offsets 0, 7, 14 and 21, none has more than 10
    tokens, and the last three tokens of each are the first three of the
    next. *)
Theorem hard_split_example_not_reached (text : string) :
  separators self = default_separators →
  chunk_size self = 10 →
  chunk_overlap self = 3 →
  length (tiktoken.encode (encoding self) text) = 25%nat →
  text ≠ "" →
  Py.contains ParagraphLock.blank_line text = false →
  Py.contains (String Py.LF "") text = false →
  Py.contains ". " text = false →
  Py.contains " " text = false →
  let tokens := tiktoken.encode (encoding self) text in
  let window := Py.slice tokens in
  split_text self text = Raise (ValueError "empty separator")
  ∧ _split_by_tokens self text =
    Ret (tiktoken.decode (encoding self) <$>
           [window 0 10; window 7 17; window 14 24; window 21 25])
  ∧ length <$> [window 0 10; window 7 17; window 14 24; window 21 25]
    = [10; 10; 10; 4]%nat
  ∧ drop 7 (window 0 10) = window 7 10 ∧ take 3 (window 7 17) = window 7 10
  ∧ drop 7 (window 7 17) = window 14 17 ∧ take 3 (window 14 24) = window 14 17
  ∧ drop 7 (window 14 24) = window 21 24 ∧ take 3 (window 21 25) = window 21 24
  ∧ length <$> [window 7 10; window 14 17; window 21 24] = [3; 3; 3]%nat.
Proof.
  intros Hsep Hcs Hov Hlen Hne H1 H2 H3 H4 tokens window.
  split; [|split].
  - clear tokens window. unfold split_text. cbn [split_text_fuel].
    destruct text as [|c text]; [done|]. cbn [Py.is_empty].
    unfold count_tokens. rewrite Hlen, Hcs, Hsep. simpl (_ <=? _).
    by apply try_separators_blob.
  - unfold _split_by_tokens. cbv zeta. fold tokens. fold tokens in Hlen.
    rewrite Hlen.
    assert (Hstep : ∀ fuel chunks start,
               start < 25 →
               _split_by_tokens_loop self (S fuel) tokens chunks start =
               _split_by_tokens_loop self fuel tokens
                 (chunks ++ [tiktoken.decode (encoding self)
                               (window start (Z.min (start + 10) 25))])
                 (if Z.min (start + 10) 25 <? 25
                  then Z.min (start + 10) 25 - 3 else Z.min (start + 10) 25)).
    { intros fuel chunks start Hlt.
      rewrite _split_by_tokens_loop_step by (rewrite Hlen; lia).
      by rewrite Hlen, Hcs, Hov. }
    rewrite (Hstep _ _ 0), (Hstep _ _ 7), (Hstep _ _ 14), (Hstep _ _ 21) by lia.
    rewrite _split_by_tokens_loop_done; [reflexivity|].
    rewrite Hlen. by vm_compute.
  - unfold window.
    assert (Hlen' : Z.of_nat (length tokens) = 25) by (unfold tokens; by rewrite Hlen).
    split.
    { cbn [fmap list_fmap]. rewrite !length_slice by lia. reflexivity. }
    split; [apply (slice_suffix tokens 0 10 7); lia|].
    split; [apply (slice_prefix tokens 7 17 10); lia|].
    split; [apply (slice_suffix tokens 7 17 14); lia|].
    split; [apply (slice_prefix tokens 14 24 17); lia|].
    split; [apply (slice_suffix tokens 14 24 21); lia|].
    split; [apply (slice_prefix tokens 21 25 24); lia|].
    cbn [fmap list_fmap]. rewrite !length_slice by lia. reflexivity.
Qed.

End SplitTextClaims.

Lemma split_text_separator_free_raises_witness :
  Chunking.split_text (DigitEncoding.splitter 10 3) DigitEncoding.digits75 =
  Raise (ValueError "empty separator").
Proof.
  apply split_text_separator_free_raises;
    [reflexivity | discriminate | reflexivity | reflexivity..].
Defined.

Lemma split_text_base_case_witness :
  Chunking.split_text (DigitEncoding.splitter 10 3) "123 456" = Ret ["123 456"]
  ∧ Chunking.split_text_fuel (DigitEncoding.splitter 10 3) 1 "123 456" =
    Chunking.split_text (DigitEncoding.splitter 10 3) "123 456".
Proof.
  apply (split_text_base_case (DigitEncoding.splitter 10 3) "123 456").
  right. vm_compute. discriminate.
Defined.

Lemma hard_split_example_not_reached_witness :
  Chunking.split_text (DigitEncoding.splitter 10 3) DigitEncoding.digits75 =
  Raise (ValueError "empty separator")
  ∧ Chunking._split_by_tokens (DigitEncoding.splitter 10 3) DigitEncoding.digits75 =
    Ret ["123123123123123123123123123123"; "123123123123123123123123123123";
         "123123123123123123123123123123"; "123123123123"].
Proof.
  destruct (hard_split_example_not_reached (DigitEncoding.splitter 10 3)
              DigitEncoding.digits75) as (Hraise & Hwindows & _);
    [reflexivity | reflexivity | reflexivity | reflexivity | discriminate
    | reflexivity.. |].
  split; [exact Hraise | exact Hwindows].
Defined.

(** The same happens below a real separator: a piece over the budget is
    handed back to [split_text], which raises on it. *)
Example oversized_word_raises :
  Chunking.split_text (DigitEncoding.splitter 10 3)
    ("12 " +:+ DigitEncoding.digits75) = Raise (ValueError "empty separator").
Proof. vm_compute. reflexivity. Qed.

(** ** The chunk budget *)

(** C4. A chunk seeded with overlap text can exceed the budget. With a chunk
    size of 10 and an overlap of 3, two runs of 8 tokens around a space are
    merged (no forced split takes part) into a first chunk of 8 tokens and a
    second chunk of 3 + 1 + 8 = 12 tokens. *)
Theorem overlap_seeded_chunk_exceeds_budget :
  Chunking.split_text (DigitEncoding.splitter 10 3) DigitEncoding.two_runs =
  Ret ["123123123123123123123123"; "123123123 456456456456456456456456"]
  ∧ Chunking.count_tokens (DigitEncoding.splitter 10 3)
      "123123123 456456456456456456456456" = 12
  ∧ Chunking.chunk_size (DigitEncoding.splitter 10 3) = 10
  ∧ Chunking._get_overlap_text (DigitEncoding.splitter 10 3)
      ["123123123123123123123123"] " " = "123123123".
Proof. vm_compute. done. Qed.

(** ** Construction *)

(** C3, as the claim states it, fails: a splitter with overlap 10 and chunk
    size 5 is constructed without any error. *)
Lemma construction_accepts_overlap_above_size :
  10 ≥ 5
  ∧ Chunking.create_text_splitter DigitEncoding.get_encoding 5 10 =
    Ret (DigitEncoding.splitter 5 10)
  ∧ ¬ ∃ e, Chunking.create_text_splitter DigitEncoding.get_encoding 5 10 = Raise e.
Proof.
  split; [lia|]. split; [reflexivity|]. intros [e He]. discriminate He.
Qed.

(** C3, amended. Construction compares nothing: whenever the encoding loads,
    the splitter is built with the chunk size and the overlap as given, also
    when the overlap is not below the chunk size, so that such a
    configuration is the one [split_text] runs with. *)
Theorem construction_performs_no_check
    (get_encoding : string → outcome tiktoken.Encoding)
    (chunk_size chunk_overlap : Z) (encoding_name : string)
    (enc : tiktoken.Encoding) :
  get_encoding encoding_name = Ret enc →
  ∃ self,
    Chunking.__init__ get_encoding chunk_size chunk_overlap encoding_name = Ret self
    ∧ Chunking.chunk_size self = chunk_size
    ∧ Chunking.chunk_overlap self = chunk_overlap
    ∧ Chunking.encoding self = enc.
Proof.
  intros Henc. unfold Chunking.__init__. rewrite Henc. simpl.
  eexists. split; [reflexivity|]. by repeat split.
Qed.

Lemma construction_performs_no_check_witness :
  ∃ self,
    Chunking.__init__ DigitEncoding.get_encoding 5 10 "cl100k_base" = Ret self
    ∧ Chunking.chunk_size self = 5
    ∧ Chunking.chunk_overlap self = 10
    ∧ Chunking.encoding self = DigitEncoding.encoding.
Proof.
  apply (construction_performs_no_check DigitEncoding.get_encoding 5 10
           "cl100k_base" DigitEncoding.encoding).
  reflexivity.
Defined.

(** ** Citation extraction *)

Section CitationFacts.

Import Citations SectionGenerator.

Context {score : Type} `{EqDecision score}.

Implicit Types (c : Citation score) (available used : list (Citation score)).

Lemma find_narrow {A : Type} (P Q : A → bool) (l : list A) (a : A) :
  List.find P l = Some a →
  (∀ x, Q x = true → P x = true) →
  Q a = true →
  List.find Q l = Some a.
Proof.
  intros Hfind Himp Hq. induction l as [|x l IH]; [done|].
  simpl in *. destruct (P x) eqn:Hp.
  - injection Hfind as ->. by rewrite Hq.
  - destruct (Q x) eqn:Hqx; [|by apply IH].
    apply Himp in Hqx. congruence.
Qed.

(** The loop of the code computes the resolution of the specification. *)
Lemma match_loop_resolve (doc_title : string) (page_num : Z) available :
  ∀ fallback : option (Citation score),
    (let '(exact_match, fallback_match) :=
       match_loop doc_title page_num available fallback in
     match exact_match with Some c => Some c | None => fallback_match end)
    = match List.find (λ c, bool_decide (Py.lower (document_title c) = Py.lower doc_title)
                            && bool_decide (page_number c = page_num)) available with
      | Some c => Some c
      | None =>
          match fallback with
          | Some f => Some f
          | None =>
              List.find (λ c, bool_decide (Py.lower (document_title c) = Py.lower doc_title))
                        available
          end
      end.
Proof.
  induction available as [|c rest IH]; intros fallback.
  - simpl. by destruct fallback.
  - cbn [match_loop List.find].
    destruct (bool_decide (Py.lower (document_title c) = Py.lower doc_title)) eqn:Ht;
      destruct (bool_decide (page_number c = page_num)) eqn:Hp; cbn [andb].
    + done.
    + destruct fallback as [f|].
      * rewrite bool_decide_eq_true_2 by eauto. simpl. by rewrite IH.
      * rewrite bool_decide_eq_false_2 by (by intros [? ?]). simpl. by rewrite IH.
    + by rewrite IH.
    + by rewrite IH.
Qed.

Lemma citation_to_use_resolve (doc_title : string) (page_num : Z) available :
  citation_to_use doc_title page_num available = Spec.resolve doc_title page_num available.
Proof.
  unfold citation_to_use, Spec.resolve.
  pose proof (match_loop_resolve doc_title page_num available None) as Hl.
  destruct (match_loop doc_title page_num available None) as [e f]. exact Hl.
Qed.

Lemma resolve_canonical (title : string) (page : Z) available c :
  Spec.resolve title page available = Some c → canonical available c.
Proof.
  unfold Spec.resolve, canonical.
  destruct (List.find _ available) as [c'|] eqn:Hexact.
  - intros [= ->]. pose proof Hexact as Hc. apply find_some in Hc as [_ Hc].
    apply andb_prop in Hc as [Ht%bool_decide_eq_true Hp%bool_decide_eq_true].
    eapply find_narrow; [exact Hexact | | by apply bool_decide_eq_true_2].
    intros x Hx%bool_decide_eq_true. unfold lkey in Hx. injection Hx as Hx1 Hx2.
    apply andb_true_intro. split; apply bool_decide_eq_true_2; congruence.
  - intros Hfb. pose proof Hfb as Hc. apply find_some in Hc as [_ Ht%bool_decide_eq_true].
    eapply find_narrow; [exact Hfb | | by apply bool_decide_eq_true_2].
    intros x Hx%bool_decide_eq_true. unfold lkey in Hx. injection Hx as Hx1 Hx2.
    apply bool_decide_eq_true_2. congruence.
Qed.

(** Two canonical citations with the same title and page are the same. *)
Lemma canonical_key_inj available c c' :
  canonical available c → canonical available c' → key c = key c' → c = c'.
Proof.
  unfold canonical, key. intros Hc Hc' [= Ht Hp].
  assert (Hl : lkey c = lkey c') by (unfold lkey; congruence).
  rewrite Hl in Hc. congruence.
Qed.

Lemma present_iff_elem available used c :
  Forall (canonical available) used →
  canonical available c →
  Spec.present c used = bool_decide (c ∈ used).
Proof.
  intros Hused Hc. unfold Spec.present. apply bool_decide_ext. split.
  - intros (c' & Hk & Hin)%list_elem_of_fmap.
    rewrite Forall_forall in Hused.
    assert (c = c') as ->; [|done].
    eapply canonical_key_inj; eauto.
  - intros Hin. apply list_elem_of_fmap. eauto.
Qed.

Lemma extract_step_invariant available used (m : string * string) :
  extraction_invariant available used →
  extraction_invariant available (extract_step available used m).
Proof.
  intros [Hcan Hnd]. destruct m as [doc_title page_str]. unfold extract_step.
  rewrite citation_to_use_resolve.
  destruct (Spec.resolve _ _ _) as [c|] eqn:Hres; [|done].
  apply resolve_canonical in Hres.
  case_bool_decide as Hin; [done|].
  split.
  - apply Forall_app. split; [done|]. by apply Forall_singleton.
  - rewrite fmap_app. apply NoDup_app. split; [done|]. split.
    + intros k Hk Hk'. apply list_elem_of_singleton in Hk'. subst k.
      apply list_elem_of_fmap in Hk as (c' & Hkey & Hc').
      apply Hin. assert (c = c') as ->; [|done].
      rewrite Forall_forall in Hcan. eapply canonical_key_inj; eauto.
    + apply NoDup_singleton.
Qed.

Lemma extract_loop_invariant available (markers : list (string * string)) :
  ∀ used,
    extraction_invariant available used →
    extraction_invariant available (foldl (extract_step available) used markers).
Proof.
  induction markers as [|m markers IH]; intros used Hinv; [done|].
  simpl. apply IH. by apply extract_step_invariant.
Qed.

Lemma extract_loop_by_key available (markers : list (string * string)) :
  ∀ used,
    extraction_invariant available used →
    foldl (extract_step available) used markers =
    foldl (λ result '(title, page_str),
             match Spec.resolve title (int page_str) available with
             | Some c => if Spec.present c result then result else result ++ [c]
             | None => result
             end) used markers.
Proof.
  induction markers as [|m markers IH]; intros used Hinv; [done|].
  cbn [foldl]. rewrite IH by (by apply extract_step_invariant). f_equal.
  destruct m as [title page_str]. unfold extract_step.
  rewrite citation_to_use_resolve.
  destruct (Spec.resolve _ _ _) as [c|] eqn:Hres; [|done].
  apply resolve_canonical in Hres. destruct Hinv as [Hcan _].
  by rewrite (present_iff_elem available used c).
Qed.

(** C5. The extracted list holds at most one citation per title and page,
    and the comparison of whole citations that the code makes has the effect
    of the comparison by title and page: a marker whose citation's title
    and page are present adds nothing. *)
Theorem extracted_citations_unique_by_title_and_page (text : string) available :
  NoDup ((λ c, (document_title c, page_number c))
           <$> _extract_citations_from_text text available)
  ∧ _extract_citations_from_text text available =
    Spec.extract_used_citations text available.
Proof.
  assert (Hnil : extraction_invariant available []).
  { split; [constructor | constructor]. }
  split.
  - by apply (extract_loop_invariant available (findall text) []).
  - by apply extract_loop_by_key.
Qed.

(** C6. For every marker the citation used is the first exact match (title
    without case, and page) when there is one, and otherwise the first match
    by title alone; with the available citations [A, page 1] and [A, page 2]
    (whatever their other fields) and the text "[A, p.2]", the result is the
    page-2 citation alone. *)
Theorem exact_match_takes_precedence (doc_title : string) (page_num : Z) available :
  citation_to_use doc_title page_num available =
    match List.find (λ c, bool_decide (Py.lower (document_title c) = Py.lower doc_title)
                          && bool_decide (page_number c = page_num)) available with
    | Some c => Some c
    | None =>
        List.find (λ c, bool_decide (Py.lower (document_title c) = Py.lower doc_title))
                  available
    end
  ∧ ∀ (id1 id2 text1 text2 : string) (cid1 cid2 : option string)
      (score1 score2 : option score),
      let page1 := {| document_id := id1; document_title := "A"; page_number := 1;
                      chunk_text := text1; chunk_id := cid1;
                      relevance_score := score1 |} in
      let page2 := {| document_id := id2; document_title := "A"; page_number := 2;
                      chunk_text := text2; chunk_id := cid2;
                      relevance_score := score2 |} in
      _extract_citations_from_text "[A, p.2]" [page1; page2] = [page2].
Proof.
  split.
  - apply citation_to_use_resolve.
  - intros. unfold _extract_citations_from_text.
    change (findall "[A, p.2]") with [("A", "2")].
    cbn [foldl extract_step]. rewrite citation_to_use_resolve.
    reflexivity.
Qed.

(** A marker with a page that no citation has falls back on the title. *)
Example fallback_by_title :
  _extract_citations_from_text "see [a, p.9]."
    [{| document_id := "d"; document_title := "A"; page_number := 5;
        chunk_text := "t"; chunk_id := None; relevance_score := None |}]
  = [{| document_id := "d"; document_title := "A"; page_number := 5;
        chunk_text := "t"; chunk_id := None;
        relevance_score := (None : option score) |}].
Proof.
  unfold _extract_citations_from_text.
  change (findall "see [a, p.9].") with [("a", "9")].
  cbn [foldl extract_step]. rewrite citation_to_use_resolve. reflexivity.
Qed.

End CitationFacts.

(** ** Merging with locked paragraphs *)

Section MergeFacts.

Import ParagraphLock.

Implicit Types (locked : list (Z * string)) (i : Z).

(** The dictionary built from the locks answers as the last lock listed. *)
Lemma foldl_insert_lookup locked i :
  ∀ d : gmap Z string,
    foldl (λ d '(idx, text), <[idx := text]> d) d locked !! i =
    match Spec.lock_at locked i with
    | Some t => Some t
    | None => d !! i
    end.
Proof.
  induction locked as [|[idx text] rest IH]; intros d; [done|].
  cbn [foldl Spec.lock_at]. rewrite IH.
  destruct (Spec.lock_at rest i); [done|].
  case_bool_decide as Hi.
  - subst. by rewrite lookup_insert_eq.
  - by rewrite lookup_insert_ne.
Qed.

Lemma locked_dict_lookup locked i :
  locked_dict_of locked !! i = Spec.lock_at locked i.
Proof.
  unfold locked_dict_of. rewrite foldl_insert_lookup, lookup_empty.
  by destruct (Spec.lock_at locked i).
Qed.

Lemma lock_at_is_Some locked i :
  is_Some (Spec.lock_at locked i) ↔ i ∈ locked.*1.
Proof.
  induction locked as [|[idx text] rest IH]; simpl.
  - split; [by intros [? ?] | by intros ?%elem_of_nil].
  - rewrite elem_of_cons, <- IH.
    destruct (Spec.lock_at rest i) as [t|].
    + split; eauto.
    + case_bool_decide as Hi.
      * split; [by left | eauto].
      * split; [by intros [? ?] | intros [-> | [? ?]]; done].
Qed.

Lemma locked_dict_keys locked i :
  i ∈ (map_to_list (locked_dict_of locked)).*1 ↔ i ∈ locked.*1.
Proof.
  split.
  - intros Hin. apply list_elem_of_fmap in Hin as ([k v] & -> & Hkv).
    apply elem_of_map_to_list in Hkv.
    apply lock_at_is_Some. rewrite <- locked_dict_lookup. eauto.
  - intros Hin. apply lock_at_is_Some in Hin.
    rewrite <- locked_dict_lookup in Hin. destruct Hin as [v Hv].
    apply list_elem_of_fmap. exists (i, v). split; [done|].
    by apply elem_of_map_to_list.
Qed.

(** [max] of a non-empty list is one of its elements and bounds them all. *)
Lemma foldl_max_spec (l : list Z) :
  ∀ x : Z,
    foldl Z.max x l ∈ x :: l ∧ ∀ y, y ∈ x :: l → y ≤ foldl Z.max x l.
Proof.
  induction l as [|a l IH]; intros x; simpl.
  - split; [by left|]. intros y ?%list_elem_of_singleton. lia.
  - destruct (IH (Z.max x a)) as [Hin Hub]. split.
    + apply elem_of_cons in Hin as [Heq | Hin].
      * rewrite Heq. destruct (Z.max_spec x a) as [[_ ->] | [_ ->]].
        -- right. by left.
        -- by left.
      * right. by right.
    + intros y Hy. apply elem_of_cons in Hy as [-> | Hy].
      * specialize (Hub (Z.max x a)). etrans; [|apply Hub; by left]. lia.
      * apply elem_of_cons in Hy as [-> | Hy].
        -- specialize (Hub (Z.max x a)). etrans; [|apply Hub; by left]. lia.
        -- apply Hub. by right.
Qed.

Lemma foldr_max_spec (l : list Z) (x : Z) :
  foldr Z.max x l ∈ x :: l ∧ ∀ y, y ∈ x :: l → y ≤ foldr Z.max x l.
Proof.
  induction l as [|a l [Hin Hub]]; simpl.
  - split; [by left|]. intros y ?%list_elem_of_singleton. lia.
  - split.
    + destruct (Z.max_spec a (foldr Z.max x l)) as [[_ ->] | [_ ->]].
      * apply elem_of_cons in Hin as [-> | Hin]; [by left | by do 2 right].
      * right. by left.
    + intros y Hy. apply elem_of_cons in Hy as [-> | Hy].
      * specialize (Hub x). etrans; [apply Hub; by left | lia].
      * apply elem_of_cons in Hy as [-> | Hy]; [lia|].
        etrans; [apply Hub; by right | lia].
Qed.

(** The greatest key of the dictionary is the greatest index listed. *)
Lemma locked_dict_max (idx : Z) (text : string) (rest : list (Z * string)) :
  Py.max_default (map_to_list (locked_dict_of ((idx, text) :: rest))).*1 (-1) =
  foldr Z.max idx rest.*1.
Proof.
  set (locked := (idx, text) :: rest).
  destruct (foldr_max_spec rest.*1 idx) as [Hin Hub].
  change (idx :: rest.*1) with locked.*1 in Hin, Hub.
  destruct ((map_to_list (locked_dict_of locked)).*1) as [|k ks] eqn:Hkeys.
  - exfalso. assert (Hidx : idx ∈ locked.*1) by (by left).
    apply locked_dict_keys in Hidx. rewrite Hkeys in Hidx. by apply elem_of_nil in Hidx.
  - simpl. destruct (foldl_max_spec ks k) as [Hin' Hub'].
    rewrite <- Hkeys in Hin', Hub'.
    apply Z.le_antisymm.
    + apply Hub. by apply locked_dict_keys.
    + apply Hub'. by apply locked_dict_keys.
Qed.

Lemma merged_paragraphs_emit locked (new_paragraphs : list string) (n : Z) :
  merged_paragraphs_of (locked_dict_of locked) new_paragraphs n =
  omap (Spec.emit new_paragraphs locked) (seqZ 0 n).
Proof.
  unfold merged_paragraphs_of, Py.range. apply list_omap_ext.
  apply Forall2_same_length_lookup. split; [done|].
  intros k i i' Hi Hi'. assert (i' = i) as -> by congruence.
  unfold Spec.emit. by rewrite locked_dict_lookup.
Qed.

Lemma merge_with_locks_spec (new_text : string) locked :
  locked ≠ [] →
  merge_paragraphs_with_locks new_text locked = Spec.merge new_text locked.
Proof.
  intros Hne. unfold merge_paragraphs_with_locks, Spec.merge.
  rewrite bool_decide_eq_false_2 by done. cbv zeta.
  rewrite merged_paragraphs_emit. do 2 f_equal.
  destruct locked as [|[idx text] rest]; [done|].
  rewrite locked_dict_max. unfold Spec.positions. f_equal. lia.
Qed.

(** C7, as the claim states it, fails without locks: the new text is given
    back as it is, while the algorithm of the claim trims every paragraph. *)
Lemma merge_without_locks_keeps_raw_text :
  merge_paragraphs_with_locks " Q0" [] = " Q0"
  ∧ Spec.merge " Q0" [] = "Q0"
  ∧ merge_paragraphs_with_locks " Q0" [] ≠ Spec.merge " Q0" [].
Proof. split; [reflexivity|]. split; [reflexivity|]. vm_compute. discriminate. Qed.

(** C7, amended. With at least one lock, the merge is the algorithm of the
    claim: [N] positions, the locked text at a locked position (the last lock
    listed for it), else the new paragraph of that position if there is one,
    joined by blank lines; without locks the new text is returned as it is.
    The new paragraphs Q0, Q1, Q2 with the lock (1, "Locked-P1") give
    Q0, Locked-P1, Q2. *)
Theorem merge_with_locks_follows_algorithm (new_text : string) locked :
  merge_paragraphs_with_locks new_text locked =
    match locked with
    | [] => new_text
    | _ :: _ => Spec.merge new_text locked
    end
  ∧ merge_paragraphs_with_locks
      ("Q0" +:+ blank_line +:+ "Q1" +:+ blank_line +:+ "Q2") [(1, "Locked-P1")]
    = "Q0" +:+ blank_line +:+ "Locked-P1" +:+ blank_line +:+ "Q2".
Proof.
  split.
  - destruct locked as [|lock rest]; [reflexivity|].
    by apply merge_with_locks_spec.
  - rewrite merge_with_locks_spec by done. reflexivity.
Qed.

(** A lock beyond the new paragraphs extends the text: the positions 3 and 4
    give nothing, and position 5 gives the locked text. *)
Example merge_boundary_extension :
  merge_paragraphs_with_locks
    ("Q0" +:+ blank_line +:+ "Q1" +:+ blank_line +:+ "Q2") [(5, "Locked-P5")]
  = "Q0" +:+ blank_line +:+ "Q1" +:+ blank_line +:+ "Q2" +:+ blank_line +:+ "Locked-P5".
Proof. rewrite merge_with_locks_spec by done. reflexivity. Qed.

(** C10. Without locks the merge gives the new text back unchanged, in the
    utility function and in the method of the section model. *)
Theorem merge_without_locks_is_identity (new_text : string) :
  merge_paragraphs_with_locks new_text [] = new_text
  ∧ SectionModel.merge_with_locked_paragraphs [] new_text = new_text.
Proof. split; reflexivity. Qed.

End MergeFacts.

(** ** Lock updates *)

Section UpdateFacts.

Import Citations SectionsApi.

Context {score : Type}.

(** An index that passed the range check has a paragraph. *)
Lemma getitem_in_range (paragraphs : list string) (idx : Z) :
  0 ≤ idx < Z.of_nat (length paragraphs) →
  ∃ p, getitem paragraphs idx = Ret p ∧ paragraphs !! Z.to_nat idx = Some p.
Proof.
  intros Hr. unfold getitem.
  destruct (Z.ltb_spec idx 0); [lia|].
  destruct (Z.leb_spec 0 idx); [|lia].
  destruct (Z.ltb_spec idx (Z.of_nat (length paragraphs))); [|lia].
  cbn [andb].
  destruct (lookup_lt_is_Some_2 paragraphs (Z.to_nat idx)) as [p Hp]; [lia|].
  rewrite Hp. eauto.
Qed.

Lemma locked_data_comprehension (paragraphs : list string) (indices : list Z) :
  Forall (λ idx, 0 ≤ idx < Z.of_nat (length paragraphs)) indices →
  ∃ data,
    comprehension (λ idx, p ← getitem paragraphs idx; Ret (idx, p)) indices = Ret data
    ∧ data.*1 = indices
    ∧ Forall (λ entry, paragraphs !! Z.to_nat entry.1 = Some entry.2) data.
Proof.
  induction 1 as [|idx indices Hidx _ (data & Hd & Hfst & Hall)].
  - exists []. by repeat split.
  - destruct (getitem_in_range paragraphs idx Hidx) as (p & Hp & Hlook).
    exists ((idx, p) :: data). cbn [comprehension]. rewrite Hp, Hd. simpl.
    split; [done|]. split; [by f_equal|]. by constructor.
Qed.

Lemma filter_in_range (n : Z) (indices : list Z) :
  Forall (λ idx, 0 ≤ idx < n)
         (List.filter (λ idx, (0 <=? idx) && (idx <? n)) indices).
Proof.
  apply Forall_forall. intros idx Hin%list_elem_of_In%filter_In.
  destruct Hin as [_ Hb]. apply andb_prop in Hb as [?%Z.leb_le ?%Z.ltb_lt]. lia.
Qed.

Lemma citation_responses (cs : list (Citation score)) :
  Forall (λ c, is_Some (relevance_score c)) cs →
  ∃ rs, comprehension make_citation_response cs = Ret rs.
Proof.
  induction 1 as [|c cs [r Hr] _ [rs Hrs]]; [by exists []|].
  cbn [comprehension]. rewrite Hrs.
  unfold make_citation_response. rewrite Hr. simpl. eauto.
Qed.

(** C8. For a section that exists, the update keeps exactly the requested
    indices that are in range, in the order of the request, each with the
    text of its paragraph; indices out of range are dropped and never make
    the update fail: the store is updated, and the response lists the
    indices kept (it is built whenever every stored citation has a score, as
    those made by the retriever have). *)
Theorem update_section_keeps_valid_indices
    (store : gmap string (gmap string (section_data score)))
    (session_id name : string) (request : UpdateSectionRequest)
    (sections : gmap string (section_data score)) (data : section_data score) :
  store !! session_id = Some sections →
  sections !! name = Some data →
  let paragraphs := ParagraphLock.split_into_paragraphs (req_text request) in
  let valid_indices :=
    List.filter (λ idx, (0 <=? idx) && (idx <? Z.of_nat (length paragraphs)))
                (locked_paragraph_indices request) in
  let result := update_section store session_id name request in
  (∀ idx, idx ∈ valid_indices ↔
          idx ∈ locked_paragraph_indices request
          ∧ 0 ≤ idx < Z.of_nat (length paragraphs))
  ∧ (∃ data' locked_data,
       result.1 !! session_id ≫= (.!! name) = Some data'
       ∧ locked_paragraphs data' = valid_indices
       ∧ locked_paragraphs_data data' = Some locked_data
       ∧ locked_data.*1 = valid_indices
       ∧ Forall (λ entry, paragraphs !! Z.to_nat entry.1 = Some entry.2) locked_data
       ∧ text data' = req_text request)
  ∧ (∀ response, result.2 = Ok response →
                 resp_locked_paragraphs response = valid_indices)
  ∧ (Forall (λ c, is_Some (relevance_score c)) (citations data) →
     ∃ response, result.2 = Ok response
                 ∧ resp_locked_paragraphs response = valid_indices).
Proof.
  intros Hs Hn paragraphs valid_indices result.
  split.
  { intros idx. unfold valid_indices.
    rewrite list_elem_of_In, filter_In, <- list_elem_of_In.
    rewrite andb_true_iff, Z.leb_le, Z.ltb_lt. tauto. }
  destruct (locked_data_comprehension paragraphs valid_indices)
    as (locked_data & Hcomp & Hfst & Hall); [apply filter_in_range|].
  subst result. unfold update_section. rewrite Hs, Hn.
  fold paragraphs. fold valid_indices. rewrite Hcomp. cbv zeta.
  cbn [citations section_id section_name text word_count warning generated_at].
  split; [|split].
  - exists {| section_id := section_id data;
              section_name := section_name data;
              text := req_text request;
              word_count := ParagraphLock.count_words (req_text request);
              citations := citations data;
              warning := warning data;
              locked_paragraphs := valid_indices;
              locked_paragraphs_data := Some locked_data;
              generated_at := generated_at data |}, locked_data.
    split; [|by repeat split].
    destruct (comprehension make_citation_response (citations data));
      cbn [fst]; rewrite lookup_insert_eq; simpl; by rewrite lookup_insert_eq.
  - intros response.
    destruct (comprehension make_citation_response (citations data));
      cbn [snd]; intros [= <-] || intros [=]; done.
  - intros Hscores. destruct (citation_responses _ Hscores) as [rs ->].
    cbn [snd]. eauto.
Qed.

End UpdateFacts.

Lemma update_section_keeps_valid_indices_witness :
  ∃ response,
    (SectionsApi.update_section Examples.store "session-1" "Summary"
       Examples.request).2 = SectionsApi.Ok response
    ∧ SectionsApi.resp_locked_paragraphs response = [1; 0].
Proof.
  destruct (update_section_keeps_valid_indices Examples.store "session-1" "Summary"
              Examples.request {[ "Summary" := Examples.stored ]} Examples.stored)
    as (_ & _ & _ & Hresponse); [reflexivity | reflexivity |].
  apply Hresponse. repeat constructor. by eexists.
Defined.

(** * Further properties of the code *)

(** ** [split_text]: termination, exceptions, chunks *)

Section SplitTextFurther.

Import Chunking Notions.

Variable self : RecursiveCharacterTextSplitter.

(** X1. [split_text] comes back on every text, and its result does not depend
    on the fuel of the embedding: any fuel above the length of the text gives
    the result of [split_text]. *)
Theorem split_text_fuel_independent (fuel : nat) (text : string) :
  "" ∈ separators self →
  (String.length text < fuel)%nat →
  split_text_fuel self fuel text = split_text self text
  ∧ returns_or_raises (split_text self text).
Proof.
  intros Hsep Hfuel.
  assert (Hback : returns_or_raises (split_text self text)).
  { apply split_text_fuel_enough; [done | lia]. }
  split; [|done].
  replace fuel with (S (String.length text) + (fuel - S (String.length text)))%nat by lia.
  by apply split_text_fuel_mono.
Qed.

Lemma _split_by_tokens_loop_no_raise (fuel : nat) (tokens : list Z) :
  ∀ (chunks : list string) (start : Z) (e : exn),
    _split_by_tokens_loop self fuel tokens chunks start ≠ Raise e.
Proof.
  induction fuel as [|fuel IH]; intros chunks start e; cbn [_split_by_tokens_loop];
    destruct (start <? Z.of_nat (length tokens)); done || apply IH.
Qed.

Lemma merge_loop_raises_only (rec : string → outcome (list string))
    (separator : string) (splits : list string) :
  (∀ p, raises_only empty_separator_error (rec p)) →
  ∀ st, raises_only empty_separator_error (merge_loop self rec separator st splits).
Proof.
  intros Hrec. induction splits as [|split rest IH]; intros st e; [done|].
  cbn [merge_loop]. unfold merge_step.
  destruct (Py.is_empty split); [apply IH|].
  destruct (chunk_size self <? count_tokens self split).
  - destruct (rec split) as [sub| |] eqn:Hsub; simpl; [apply IH | | done].
    intros [= <-]. by apply (Hrec split).
  - destruct (_ <=? chunk_size self); simpl; apply IH.
Qed.

Lemma try_separators_raises_only (rec : string → outcome (list string))
    (seps : list string) (text : string) :
  (∀ p, raises_only empty_separator_error (rec p)) →
  raises_only empty_separator_error (try_separators self rec seps text).
Proof.
  intros Hrec. induction seps as [|sep rest IH]; intros e.
  - cbn [try_separators]. unfold _split_by_tokens.
    intros He. by apply _split_by_tokens_loop_no_raise in He.
  - cbn [try_separators]. destruct (Py.contains sep text); [|apply IH].
    unfold Py.split. destruct (Py.is_empty sep); simpl.
    + by intros [= <-].
    + unfold _merge_splits.
      pose proof (merge_loop_raises_only rec sep (Py.split_pieces text sep) Hrec
                    {| chunks := []; current_chunk := []; current_tokens := 0 |}) as Hm.
      destruct (merge_loop _ _ _ _ _) as [st| |]; simpl.
      * case_bool_decide; [apply IH | done].
      * intros [= <-]. by apply Hm.
      * done.
Qed.

(** With the tokens of every text as given, [split_text] raises nothing but
    the exception of the empty separator. *)
Lemma split_text_raise (text : string) (e : exn) :
  split_text self text = Raise e → e = ValueError "empty separator".
Proof.
  unfold split_text. generalize (S (String.length text)) as fuel. intros fuel.
  revert text e. induction fuel as [|fuel IH]; intros text e; [done|].
  cbn [split_text_fuel].
  destruct (Py.is_empty text); [done|].
  destruct (_ <=? _); [done|].
  apply try_separators_raises_only. intros p e'. apply IH.
Qed.

Lemma join_nonempty (sep : string) (l : list string) :
  l ≠ [] → Forall (λ p, p ≠ "") l → Py.join sep l ≠ "".
Proof.
  intros Hl Hall. destruct l as [|x xs]; [done|].
  apply Forall_cons in Hall as [Hx _].
  destruct x as [|c x]; [done|].
  unfold Py.join. simpl. by destruct xs.
Qed.

Lemma flush_nonempty (separator : string) (st : merge_state) :
  Forall (λ p, p ≠ "") (chunks st) →
  Forall (λ p, p ≠ "") (current_chunk st) →
  Forall (λ p, p ≠ "")
    (if bool_decide (current_chunk st = []) then chunks st
     else chunks st ++ [Py.join separator (current_chunk st)]).
Proof.
  intros Hc Hcur. case_bool_decide as Hnil; [done|].
  apply Forall_app. split; [done|]. apply Forall_singleton.
  by apply join_nonempty.
Qed.

Lemma is_empty_false (s : string) : Py.is_empty s = false → s ≠ "".
Proof. by destruct s. Qed.

Lemma merge_loop_nonempty (rec : string → outcome (list string))
    (separator : string) (splits : list string) :
  (∀ p cs, rec p = Ret cs → Forall (λ c, c ≠ "") cs) →
  ∀ st st',
    Forall (λ p, p ≠ "") (chunks st) →
    Forall (λ p, p ≠ "") (current_chunk st) →
    merge_loop self rec separator st splits = Ret st' →
    Forall (λ p, p ≠ "") (chunks st') ∧ Forall (λ p, p ≠ "") (current_chunk st').
Proof.
  intros Hrec. induction splits as [|split rest IH]; intros st st' Hc Hcur.
  { by intros [= <-]. }
  cbn [merge_loop]. unfold merge_step.
  destruct (Py.is_empty split) eqn:Hsplit; [by apply IH|].
  apply is_empty_false in Hsplit.
  destruct (chunk_size self <? count_tokens self split).
  - destruct (rec split) as [sub| |] eqn:Hsub; simpl; [|done..].
    apply IH; simpl.
    + apply Forall_app. split; [by apply flush_nonempty | by eapply Hrec].
    + by case_bool_decide.
  - destruct (_ <=? chunk_size self); simpl; apply IH; simpl.
    + done.
    + apply Forall_app. split; [done | by apply Forall_singleton].
    + by apply flush_nonempty.
    + destruct (Py.is_empty (_get_overlap_text self (current_chunk st) separator)) eqn:Ho.
      * by apply Forall_singleton.
      * apply is_empty_false in Ho. by repeat constructor.
Qed.

Lemma try_separators_nonempty (rec : string → outcome (list string))
    (seps : list string) (text : string) (result : list string) :
  "" ∈ seps →
  (∀ p cs, rec p = Ret cs → Forall (λ c, c ≠ "") cs) →
  try_separators self rec seps text = Ret result →
  Forall (λ c, c ≠ "") result.
Proof.
  intros Hin Hrec. induction seps as [|sep rest IH]; [by apply elem_of_nil in Hin|].
  cbn [try_separators].
  destruct (Py.contains sep text) eqn:Hc.
  - unfold Py.split. destruct sep as [|a sep']; [done|]. cbn [Py.is_empty]. simpl.
    unfold _merge_splits.
    destruct (merge_loop _ _ _ _ _) as [st| |] eqn:Hloop; simpl; [|done..].
    apply merge_loop_nonempty in Hloop as [Hch Hcur]; [|done|by constructor..].
    case_bool_decide as Hnil.
    + apply IH. apply elem_of_cons in Hin as [?|?]; done.
    + intros [= <-]. by apply flush_nonempty.
  - destruct sep; [by rewrite contains_empty in Hc|].
    apply IH. apply elem_of_cons in Hin as [?|?]; done.
Qed.

(** X3. No chunk returned by [split_text] is the empty string. *)
Theorem split_text_chunks_nonempty (text : string) (result : list string) :
  "" ∈ separators self →
  split_text self text = Ret result →
  Forall (λ chunk, chunk ≠ "") result.
Proof.
  intros Hsep. unfold split_text. generalize (S (String.length text)) as fuel.
  intros fuel. revert text result.
  induction fuel as [|fuel IH]; intros text result; [done|].
  cbn [split_text_fuel].
  destruct (Py.is_empty text) eqn:He; [by intros [= <-]|].
  apply is_empty_false in He.
  destruct (_ <=? _); [intros [= <-]; by apply Forall_singleton|].
  apply try_separators_nonempty; [done|]. intros p cs. apply IH.
Qed.

End SplitTextFurther.

(** ** [_split_by_tokens]: the forced split on its own *)

Section ForcedSplitFurther.

Import Chunking Notions.

Variable self : RecursiveCharacterTextSplitter.

Lemma forced_split_windows (tokens : list Z) (fuel : nat) :
  0 ≤ chunk_overlap self < chunk_size self →
  ∀ (chunks : list string) (start : Z),
    0 ≤ start < Z.of_nat (length tokens) →
    Z.of_nat (length tokens) - start < Z.of_nat fuel →
    ∃ w ws,
      _split_by_tokens_loop self fuel tokens chunks start =
        Ret (chunks ++ (tiktoken.decode (encoding self) <$> w :: ws))
      ∧ Z.of_nat (length w) =
          Z.min (chunk_size self) (Z.of_nat (length tokens) - start)
      ∧ w ++ concat (drop (Z.to_nat (chunk_overlap self)) <$> ws) =
          drop (Z.to_nat start) tokens
      ∧ Forall (λ w, 0 < Z.of_nat (length w) ≤ chunk_size self) (w :: ws).
Proof.
  intros Hcfg. induction fuel as [|fuel IH]; intros chunks start Hs Hfuel; [lia|].
  rewrite (_split_by_tokens_loop_step self) by lia. cbv zeta.
  set (e := Z.min (start + chunk_size self) (Z.of_nat (length tokens))).
  set (w := Py.slice tokens start e).
  assert (Hw : w = take (Z.to_nat (e - start)) (drop (Z.to_nat start) tokens)).
  { unfold w. apply slice_in_range; lia. }
  assert (Hlw : Z.of_nat (length w) = e - start).
  { unfold w. rewrite length_slice by lia. lia. }
  destruct (Z.ltb_spec e (Z.of_nat (length tokens))) as [He | He].
  - destruct (IH (chunks ++ [tiktoken.decode (encoding self) w])
                 (e - chunk_overlap self)) as (w2 & ws2 & Hloop & Hl2 & Hcat & Hall);
      [lia | lia |].
    exists w, (w2 :: ws2). split; [|split; [|split]].
    + rewrite Hloop. by rewrite <- app_assoc.
    + lia.
    + cbn [fmap list_fmap concat].
      assert (Hdrop : drop (Z.to_nat (chunk_overlap self)) w2
                      ++ concat (drop (Z.to_nat (chunk_overlap self)) <$> ws2)
                      = drop (Z.to_nat e) tokens).
      { rewrite <- drop_app_le by lia. rewrite Hcat, drop_drop. f_equal. lia. }
      change (list_fmap _ _ ?f ?l) with (f <$> l).
      rewrite Hdrop, Hw.
      replace (Z.to_nat e) with (Z.to_nat start + Z.to_nat (e - start))%nat by lia.
      rewrite <- drop_drop. apply take_drop.
    + constructor; [lia | done].
  - exists w, []. split; [|split; [|split]].
    + rewrite _split_by_tokens_loop_done by lia. reflexivity.
    + lia.
    + simpl. rewrite app_nil_r, Hw. apply take_ge. rewrite length_drop. lia.
    + constructor; [lia | constructor].
Qed.

(** X4. With an overlap below the chunk size, [_split_by_tokens] returns the
    texts of token windows that are never empty and never longer than the
    chunk size, and nothing is lost: the first window followed by the later
    windows without their first [chunk_overlap] tokens is the token stream
    of the text. *)
Theorem forced_split_is_lossless (text : string) :
  0 ≤ chunk_overlap self < chunk_size self →
  ∃ windows,
    _split_by_tokens self text = Ret (tiktoken.decode (encoding self) <$> windows)
    ∧ Forall (λ w, 0 < Z.of_nat (length w) ≤ chunk_size self) windows
    ∧ remove_overlap (Z.to_nat (chunk_overlap self)) windows =
      tiktoken.encode (encoding self) text.
Proof.
  intros Hcfg. unfold _split_by_tokens. cbv zeta.
  set (tokens := tiktoken.encode (encoding self) text).
  destruct tokens as [|t tokens'] eqn:Htok.
  - exists []. by repeat split.
  - rewrite <- Htok.
    destruct (forced_split_windows tokens (S (length tokens)) Hcfg [] 0)
      as (w & ws & Hloop & _ & Hcat & Hall); [rewrite Htok; simpl; lia | lia |].
    exists (w :: ws). split; [done|]. split; [done|]. exact Hcat.
Qed.

(** X5. With an overlap that is not below the chunk size, on a text of more
    tokens than the chunk size, the loop of [_split_by_tokens] never ends:
    every window starts at or before the first token. No fuel is enough. *)
Theorem forced_split_does_not_advance (tokens : list Z) (fuel : nat)
    (chunks : list string) (start : Z) :
  chunk_size self ≤ chunk_overlap self →
  chunk_size self < Z.of_nat (length tokens) →
  tokens ≠ [] →
  start ≤ 0 →
  _split_by_tokens_loop self fuel tokens chunks start = OutOfFuel.
Proof.
  intros Hcfg Hlen Hne. revert chunks start.
  assert (0 < Z.of_nat (length tokens)) by (destruct tokens; [done | simpl; lia]).
  induction fuel as [|fuel IH]; intros chunks start Hs.
  - cbn [_split_by_tokens_loop].
    destruct (Z.ltb_spec start (Z.of_nat (length tokens))); [done | lia].
  - rewrite (_split_by_tokens_loop_step self) by lia. cbv zeta.
    destruct (Z.ltb_spec (Z.min (start + chunk_size self) (Z.of_nat (length tokens)))
                         (Z.of_nat (length tokens))); [|lia].
    apply IH. lia.
Qed.

End ForcedSplitFurther.

Lemma forced_split_is_lossless_witness :
  ∃ windows,
    Chunking._split_by_tokens (DigitEncoding.splitter 10 3) DigitEncoding.digits75 =
      Ret (tiktoken.decode (Chunking.encoding (DigitEncoding.splitter 10 3)) <$> windows)
    ∧ Forall (λ w, 0 < Z.of_nat (length w)
                   ≤ Chunking.chunk_size (DigitEncoding.splitter 10 3)) windows
    ∧ Notions.remove_overlap
        (Z.to_nat (Chunking.chunk_overlap (DigitEncoding.splitter 10 3))) windows =
      tiktoken.encode (Chunking.encoding (DigitEncoding.splitter 10 3))
        DigitEncoding.digits75.
Proof.
  refine (forced_split_is_lossless (DigitEncoding.splitter 10 3)
            DigitEncoding.digits75 _).
  unfold DigitEncoding.splitter. cbn [Chunking.chunk_overlap Chunking.chunk_size]. lia.
Defined.

Lemma forced_split_does_not_advance_witness :
  Chunking._split_by_tokens_loop (DigitEncoding.splitter 5 10) 1000
    (DigitEncoding.encode DigitEncoding.digits75) [] 0 = OutOfFuel.
Proof.
  apply forced_split_does_not_advance;
    [simpl; lia | vm_compute; reflexivity | discriminate | lia].
Defined.

Lemma split_text_fuel_independent_witness :
  Chunking.split_text_fuel (DigitEncoding.splitter 10 3) 100 DigitEncoding.two_runs =
  Chunking.split_text (DigitEncoding.splitter 10 3) DigitEncoding.two_runs
  ∧ returns_or_raises
      (Chunking.split_text (DigitEncoding.splitter 10 3) DigitEncoding.two_runs).
Proof.
  apply split_text_fuel_independent.
  - unfold DigitEncoding.splitter, Chunking.default_separators. simpl. set_solver.
  - vm_compute. lia.
Defined.

Lemma split_text_chunks_nonempty_witness :
  Forall (λ chunk, chunk ≠ "")
    ["123123123123123123123123"; "123123123 456456456456456456456456"].
Proof.
  apply (split_text_chunks_nonempty (DigitEncoding.splitter 10 3) DigitEncoding.two_runs).
  - unfold DigitEncoding.splitter, Chunking.default_separators. simpl. set_solver.
  - vm_compute. reflexivity.
Defined.

(** ** [_merge_splits] without overlap *)

Section MergeSplitsFurther.

Import Chunking Notions.

Variable self : RecursiveCharacterTextSplitter.

Lemma append_assoc (a b c : string) : (a +:+ b) +:+ c = a +:+ b +:+ c.
Proof.
  induction a as [|x a IH]; [reflexivity|].
  change (String x ((a +:+ b) +:+ c) = String x (a +:+ b +:+ c)). by rewrite IH.
Qed.

Lemma join_app (sep : string) (l1 l2 : list string) :
  l1 ≠ [] → l2 ≠ [] →
  Py.join sep (l1 ++ l2) = Py.join sep l1 +:+ sep +:+ Py.join sep l2.
Proof.
  intros H1 H2. induction l1 as [|x l1 IH]; [done|].
  destruct l1 as [|y l1].
  - destruct l2; [done|]. reflexivity.
  - change (Py.join sep ((x :: y :: l1) ++ l2))
      with (x +:+ sep +:+ Py.join sep ((y :: l1) ++ l2)).
    rewrite IH by done.
    change (Py.join sep (x :: y :: l1)) with (x +:+ sep +:+ Py.join sep (y :: l1)).
    by rewrite !append_assoc.
Qed.

Lemma join_snoc (sep : string) (l : list string) (x : string) :
  l ≠ [] → Py.join sep (l ++ [x]) = Py.join sep l +:+ sep +:+ x.
Proof. intros Hl. by rewrite join_app. Qed.

(** Joining the joins of non-empty groups is joining all the pieces. *)
Lemma join_groups (sep : string) (groups : list (list string)) :
  Forall (λ g, g ≠ []) groups →
  Py.join sep (Py.join sep <$> groups) = Py.join sep (concat groups).
Proof.
  induction 1 as [|g groups Hg Hall IH]; [done|].
  destruct groups as [|g2 groups].
  - simpl. by rewrite app_nil_r.
  - cbn [fmap list_fmap concat] in *.
    change (Py.join sep (Py.join sep g :: ?l))
      with (Py.join sep ([Py.join sep g] ++ l)).
    rewrite (join_app sep [Py.join sep g]) by done.
    change (list_fmap _ _ ?f ?l) with (f <$> l) in IH.
    rewrite IH.
    apply Forall_cons in Hall as [Hg2 _].
    rewrite (join_app sep g) by (try done; by destruct g2).
    reflexivity.
Qed.

Lemma merge_loop_grouped (rec : string → outcome (list string))
    (separator : string) (splits : list string) :
  chunk_overlap self ≤ 0 →
  Forall (λ p, count_tokens self p ≤ chunk_size self) splits →
  ∀ st pieces,
    grouped separator st pieces →
    ∃ st',
      merge_loop self rec separator st splits = Ret st'
      ∧ grouped separator st'
          (pieces ++ List.filter (λ p, negb (Py.is_empty p)) splits).
Proof.
  intros Hov Hfit. induction Hfit as [|split rest Hsplit _ IH]; intros st pieces Hg.
  { exists st. split; [done|]. by rewrite app_nil_r. }
  cbn [merge_loop List.filter]. unfold merge_step.
  destruct (Py.is_empty split) eqn:He; cbn [negb].
  { simpl. by apply IH. }
  destruct (Z.ltb_spec (chunk_size self) (count_tokens self split)); [lia|].
  destruct Hg as (groups & Hch & Hne & Hcat).
  replace (pieces ++ split :: List.filter (λ p, negb (Py.is_empty p)) rest)
    with ((pieces ++ [split]) ++ List.filter (λ p, negb (Py.is_empty p)) rest)
    by (by rewrite <- app_assoc).
  destruct (_ <=? chunk_size self); simpl.
  - apply IH. exists groups. simpl. split; [done|]. split; [done|].
    by rewrite app_assoc, Hcat.
  - assert (Hover : _get_overlap_text self (current_chunk st) separator = "").
    { unfold _get_overlap_text.
      destruct (Z.leb_spec (chunk_overlap self) 0); [|lia].
      by rewrite orb_true_r. }
    rewrite Hover. cbn [Py.is_empty]. apply IH.
    simpl. case_bool_decide as Hcur.
    + exists groups. split; [done|]. split; [done|].
      rewrite Hcur, app_nil_r in Hcat. by rewrite Hcat.
    + exists (groups ++ [current_chunk st]). split; [|split].
      * by rewrite fmap_app, Hch.
      * apply Forall_app. split; [done | by apply Forall_singleton].
      * rewrite concat_app. simpl. rewrite app_nil_r. by rewrite Hcat.
Qed.

(** X6. Without overlap, and when no piece is over the budget,
    [_merge_splits] loses nothing and invents nothing: its chunks are the
    joins of consecutive non-empty groups of the non-empty pieces, in their
    order, so that joining the chunks is joining the non-empty pieces. *)
Theorem merge_splits_partitions_pieces (rec : string → outcome (list string))
    (splits : list string) (separator : string) :
  chunk_overlap self ≤ 0 →
  Forall (λ p, count_tokens self p ≤ chunk_size self) splits →
  ∃ groups,
    _merge_splits self rec splits separator = Ret (Py.join separator <$> groups)
    ∧ Forall (λ g, g ≠ []) groups
    ∧ concat groups = List.filter (λ p, negb (Py.is_empty p)) splits
    ∧ Py.join separator (Py.join separator <$> groups) =
      Py.join separator (List.filter (λ p, negb (Py.is_empty p)) splits).
Proof.
  intros Hov Hfit. unfold _merge_splits.
  destruct (merge_loop_grouped rec separator splits Hov Hfit
              {| chunks := []; current_chunk := []; current_tokens := 0 |} [])
    as (st' & Hl & groups & Hch & Hne & Hcat).
  { exists []. by repeat split. }
  rewrite Hl. simpl in *.
  assert (Hgroups : ∃ groups',
             (if bool_decide (current_chunk st' = []) then chunks st'
              else chunks st' ++ [Py.join separator (current_chunk st')])
             = Py.join separator <$> groups'
             ∧ Forall (λ g, g ≠ []) groups'
             ∧ concat groups' = List.filter (λ p, negb (Py.is_empty p)) splits).
  { case_bool_decide as Hcur.
    - exists groups. rewrite Hcur, app_nil_r in Hcat. by repeat split.
    - exists (groups ++ [current_chunk st']). split; [|split].
      + by rewrite fmap_app, Hch.
      + apply Forall_app. split; [done | by apply Forall_singleton].
      + rewrite concat_app. simpl. by rewrite app_nil_r. }
  destruct Hgroups as (groups' & -> & Hne' & Hcat').
  exists groups'. split; [done|]. split; [done|]. split; [done|].
  by rewrite join_groups, Hcat'.
Qed.

Lemma count_tokens_append (a b : string) :
  subadditive (encoding self) →
  count_tokens self (a +:+ b) ≤ count_tokens self a + count_tokens self b.
Proof. intros Hsub. unfold count_tokens. specialize (Hsub a b). lia. Qed.

Lemma merge_loop_within_budget (rec : string → outcome (list string))
    (separator : string) (splits : list string) :
  subadditive (encoding self) →
  chunk_overlap self ≤ 0 →
  Forall (λ p, count_tokens self p ≤ chunk_size self) splits →
  ∀ st st',
    Forall (λ c, count_tokens self c ≤ chunk_size self) (chunks st) →
    (current_chunk st = [] → current_tokens st = 0) →
    (current_chunk st ≠ [] →
     count_tokens self (Py.join separator (current_chunk st)) ≤ current_tokens st
     ∧ current_tokens st ≤ chunk_size self) →
    merge_loop self rec separator st splits = Ret st' →
    Forall (λ c, count_tokens self c ≤ chunk_size self) (chunks st')
    ∧ (current_chunk st' ≠ [] →
       count_tokens self (Py.join separator (current_chunk st')) ≤ chunk_size self).
Proof.
  intros Hsub Hov Hfit.
  induction Hfit as [|split rest Hsplit _ IH]; intros st st' Hch Hnil Hcur.
  { intros [= <-]. split; [done|]. intros Hne. destruct (Hcur Hne). lia. }
  cbn [merge_loop]. unfold merge_step.
  destruct (Py.is_empty split) eqn:He; [by apply IH|].
  destruct (Z.ltb_spec (chunk_size self) (count_tokens self split)); [lia|].
  destruct (_ <=? chunk_size self) eqn:Hnew; simpl.
  - apply Z.leb_le in Hnew. apply IH; simpl.
    + done.
    + intros Happ. apply app_eq_nil in Happ as [_ Happ]. discriminate Happ.
    + intros _. split; [|exact Hnew].
      destruct (current_chunk st) as [|x xs] eqn:Hxs.
      * rewrite Hnil by done. rewrite andb_false_r. simpl.
        change (Py.join separator [split]) with split. lia.
      * destruct (Hcur ltac:(done)) as [Hjoin _].
        rewrite join_snoc by done.
        rewrite (bool_decide_eq_false_2 (x :: xs = [])) in Hnew |- * by done.
        remember (Py.join separator (x :: xs)) as joined eqn:Hjoined.
        clear Hjoined.
        pose proof (count_tokens_append joined (separator +:+ split) Hsub).
        destruct separator as [|c separator].
        -- cbn [Py.is_empty negb andb] in Hnew |- *.
           change ("" +:+ split) with split in *. lia.
        -- cbn [Py.is_empty negb andb] in Hnew |- *.
           pose proof (count_tokens_append (String c separator) split Hsub). lia.
  - assert (Hover : _get_overlap_text self (current_chunk st) separator = "").
    { unfold _get_overlap_text.
      destruct (Z.leb_spec (chunk_overlap self) 0); [|lia].
      by rewrite orb_true_r. }
    rewrite Hover. cbn [Py.is_empty]. apply IH; simpl.
    + case_bool_decide as Hc; [done|].
      apply Forall_app. split; [done|]. apply Forall_singleton.
      destruct (Hcur Hc). lia.
    + done.
    + intros _. change (Py.join separator [split]) with split. lia.
Qed.

(** X7. Without overlap, with an encoding whose counts never grow under
    concatenation, and when no piece is over the budget, every chunk that
    [_merge_splits] returns is within [chunk_size]. *)
Theorem merge_splits_within_budget (rec : string → outcome (list string))
    (splits : list string) (separator : string) (result : list string) :
  subadditive (encoding self) →
  chunk_overlap self ≤ 0 →
  Forall (λ p, count_tokens self p ≤ chunk_size self) splits →
  _merge_splits self rec splits separator = Ret result →
  Forall (λ chunk, count_tokens self chunk ≤ chunk_size self) result.
Proof.
  intros Hsub Hov Hfit. unfold _merge_splits.
  destruct (merge_loop _ _ _ _ _) as [st| |] eqn:Hl; simpl; [|done..].
  apply (merge_loop_within_budget rec separator splits Hsub Hov Hfit) in Hl
    as [Hch Hcur]; [|by constructor|done|done].
  intros [= <-]. case_bool_decide as Hc; [done|].
  apply Forall_app. split; [done|]. apply Forall_singleton. by apply Hcur.
Qed.

End MergeSplitsFurther.

Lemma char_encoding_subadditive : Notions.subadditive CharEncoding.encoding.
Proof.
  intros a b. cbn [tiktoken.encode CharEncoding.encoding].
  induction a as [|c a IH].
  - change ("" +:+ b) with b. simpl. lia.
  - change (String c a +:+ b) with (String c (a +:+ b)). simpl. lia.
Qed.

Lemma merge_splits_partitions_pieces_witness :
  ∃ groups,
    Chunking._merge_splits (CharEncoding.splitter 5 0) (λ _, Ret [])
      ["ab"; ""; "cd"; "efg"] " " = Ret (Py.join " " <$> groups)
    ∧ Forall (λ g, g ≠ []) groups
    ∧ concat groups = ["ab"; "cd"; "efg"]
    ∧ Py.join " " (Py.join " " <$> groups) = "ab cd efg".
Proof.
  apply (merge_splits_partitions_pieces (CharEncoding.splitter 5 0) (λ _, Ret [])
           ["ab"; ""; "cd"; "efg"] " ").
  - simpl. lia.
  - repeat constructor; vm_compute; discriminate.
Defined.

Lemma merge_splits_within_budget_witness :
  Forall (λ chunk, Chunking.count_tokens (CharEncoding.splitter 5 0) chunk ≤ 5)
    ["ab cd"; "efg"].
Proof.
  apply (merge_splits_within_budget (CharEncoding.splitter 5 0) (λ _, Ret [])
           ["ab"; ""; "cd"; "efg"] " ").
  - exact char_encoding_subadditive.
  - simpl. lia.
  - repeat constructor; vm_compute; discriminate.
  - vm_compute. reflexivity.
Defined.

(** ** [split_text] with a tokenizer that refuses texts *)

Section CheckedSplitText.

Import Chunking Notions.

Variable self : RecursiveCharacterTextSplitter.
Variable refused : string → option exn.

Lemma simulates_refl {A : Type} (m : outcome A) : simulates refused m m.
Proof. by left. Qed.

Lemma simulates_bind {A B : Type} (checked total : outcome A)
    (k_checked k_total : A → outcome B) :
  simulates refused checked total →
  (∀ a, simulates refused (k_checked a) (k_total a)) →
  simulates refused (checked ≫= k_checked) (total ≫= k_total).
Proof.
  intros [-> | (t & e & Ht & ->)] Hk.
  - destruct total as [a| |]; [apply Hk | by left | by left].
  - right. by exists t, e.
Qed.

Lemma simulates_bind_ret {A B : Type} (checked : outcome A) (a : A)
    (k_checked : A → outcome B) (total : outcome B) :
  simulates refused checked (Ret a) →
  simulates refused (k_checked a) total →
  simulates refused (checked ≫= k_checked) total.
Proof.
  intros [-> | (t & e & Ht & ->)] Hk; [exact Hk|].
  right. by exists t, e.
Qed.

Lemma encode_simulates (text : string) :
  simulates refused (CheckedChunking.encode self refused text)
    (Ret (tiktoken.encode (encoding self) text)).
Proof.
  unfold CheckedChunking.encode. destruct (refused text) as [e|] eqn:Hr.
  - right. by exists text, e.
  - by left.
Qed.

Lemma count_tokens_simulates (text : string) :
  simulates refused (CheckedChunking.count_tokens self refused text)
    (Ret (count_tokens self text)).
Proof.
  unfold CheckedChunking.count_tokens.
  eapply simulates_bind_ret; [apply encode_simulates | apply simulates_refl].
Qed.

Lemma _get_overlap_text_simulates (chunks : list string) (separator : string) :
  simulates refused (CheckedChunking._get_overlap_text self refused chunks separator)
    (Ret (_get_overlap_text self chunks separator)).
Proof.
  unfold CheckedChunking._get_overlap_text, _get_overlap_text.
  destruct (bool_decide (chunks = []) || (chunk_overlap self <=? 0));
    [apply simulates_refl|].
  cbv zeta. eapply simulates_bind_ret; [apply encode_simulates | apply simulates_refl].
Qed.

Lemma _split_by_tokens_simulates (text : string) :
  simulates refused (CheckedChunking._split_by_tokens self refused text)
    (_split_by_tokens self text).
Proof.
  unfold CheckedChunking._split_by_tokens, _split_by_tokens.
  eapply simulates_bind_ret; [apply encode_simulates | apply simulates_refl].
Qed.

Lemma merge_step_simulates (rec_checked rec_total : string → outcome (list string))
    (separator : string) (st : merge_state) (split : string) :
  (∀ p, simulates refused (rec_checked p) (rec_total p)) →
  simulates refused
    (CheckedChunking.merge_step self refused rec_checked separator st split)
    (merge_step self rec_total separator st split).
Proof.
  intros Hrec. unfold CheckedChunking.merge_step, merge_step.
  destruct (Py.is_empty split); [apply simulates_refl|].
  eapply simulates_bind_ret; [apply count_tokens_simulates|]. cbv zeta.
  destruct (chunk_size self <? count_tokens self split).
  - apply simulates_bind; [apply Hrec | intros a; apply simulates_refl].
  - eapply (simulates_bind_ret _
              (if negb (Py.is_empty separator)
                  && negb (bool_decide (current_chunk st = []))
               then current_tokens st + count_tokens self split
                    + count_tokens self separator
               else current_tokens st + count_tokens self split)).
    + destruct (negb (Py.is_empty separator)
                && negb (bool_decide (current_chunk st = [])));
        [|apply simulates_refl].
      eapply simulates_bind_ret; [apply count_tokens_simulates | apply simulates_refl].
    + destruct (_ <=? chunk_size self); [apply simulates_refl|].
      eapply simulates_bind_ret; [apply _get_overlap_text_simulates|]. cbv zeta.
      eapply simulates_bind_ret; [apply count_tokens_simulates | apply simulates_refl].
Qed.

Lemma merge_loop_simulates (rec_checked rec_total : string → outcome (list string))
    (separator : string) (splits : list string) :
  (∀ p, simulates refused (rec_checked p) (rec_total p)) →
  ∀ st,
    simulates refused
      (CheckedChunking.merge_loop self refused rec_checked separator st splits)
      (merge_loop self rec_total separator st splits).
Proof.
  intros Hrec. induction splits as [|split rest IH]; intros st;
    [apply simulates_refl|].
  cbn [CheckedChunking.merge_loop merge_loop].
  apply simulates_bind; [by apply merge_step_simulates | exact IH].
Qed.

Lemma try_separators_simulates (rec_checked rec_total : string → outcome (list string))
    (seps : list string) (text : string) :
  (∀ p, simulates refused (rec_checked p) (rec_total p)) →
  simulates refused
    (CheckedChunking.try_separators self refused rec_checked seps text)
    (try_separators self rec_total seps text).
Proof.
  intros Hrec. induction seps as [|separator rest IH];
    [apply _split_by_tokens_simulates|].
  cbn [CheckedChunking.try_separators try_separators].
  destruct (Py.contains separator text); [|exact IH].
  apply simulates_bind; [apply simulates_refl|]. intros splits.
  apply simulates_bind.
  - unfold CheckedChunking._merge_splits, _merge_splits.
    apply simulates_bind; [by apply merge_loop_simulates|].
    intros st. apply simulates_refl.
  - intros chunks. destruct (bool_decide (chunks = [])); [exact IH|].
    apply simulates_refl.
Qed.

(** The splitter with the tokenizer that refuses texts does what the
    splitter of [Chunking] does, or raises the exception of the tokenizer. *)
Lemma split_text_simulates (text : string) :
  simulates refused (CheckedChunking.split_text self refused text)
    (split_text self text).
Proof.
  unfold CheckedChunking.split_text, split_text.
  generalize (S (String.length text)) as fuel. intros fuel. revert text.
  induction fuel as [|fuel IH]; intros text; [apply simulates_refl|].
  cbn [CheckedChunking.split_text_fuel split_text_fuel].
  destruct (Py.is_empty text); [apply simulates_refl|].
  eapply simulates_bind_ret; [apply count_tokens_simulates|].
  destruct (_ <=? chunk_size self); [apply simulates_refl|].
  by apply try_separators_simulates.
Qed.

(** X2. The exceptions of [split_text], with a tokenizer that can refuse a
    text: whatever the text and the configuration, an exception that
    [split_text] raises is the [ValueError] of [text.split] on the empty
    separator, or an exception raised by [encode] on some text. *)
Theorem split_text_raises_only_empty_separator (text : string) (e : exn) :
  CheckedChunking.split_text self refused text = Raise e →
  e = ValueError "empty separator" ∨ ∃ t, refused t = Some e.
Proof.
  intros Hraise.
  destruct (split_text_simulates text) as [Heq | (t & e' & Ht & Heq)].
  - left. rewrite Heq in Hraise. by apply (split_text_raise self text).
  - right. exists t. rewrite Heq in Hraise. by injection Hraise as <-.
Qed.

End CheckedSplitText.

Lemma split_text_raises_only_empty_separator_witness :
  CheckedChunking.split_text (DigitEncoding.splitter 10 3) Notions.refuses_endoftext
    DigitEncoding.digits75 = Raise (ValueError "empty separator")
  ∧ CheckedChunking.split_text (DigitEncoding.splitter 10 3) Notions.refuses_endoftext
      "Grants <|endoftext|> 2024" = Raise (ValueError "disallowed special token")
  ∧ (ValueError "disallowed special token" = ValueError "empty separator"
     ∨ ∃ t, Notions.refuses_endoftext t = Some (ValueError "disallowed special token")).
Proof.
  split; [reflexivity|]. split; [reflexivity|].
  apply (split_text_raises_only_empty_separator (DigitEncoding.splitter 10 3)
           Notions.refuses_endoftext "Grants <|endoftext|> 2024"
           (ValueError "disallowed special token")).
  reflexivity.
Defined.

(** ** Citations: what the extraction returns *)

Section ExtractionFurther.

Import Citations SectionGenerator.

Context {score : Type} `{EqDecision score}.

Implicit Types (c : Citation score) (available used : list (Citation score)).

Lemma resolve_elem_of (title : string) (page : Z) available c :
  Spec.resolve title page available = Some c →
  c ∈ available ∧ Py.lower (document_title c) = Py.lower title.
Proof.
  unfold Spec.resolve.
  destruct (List.find _ available) as [c'|] eqn:Hexact.
  - intros [= ->]. apply find_some in Hexact as [Hin Hb].
    apply andb_prop in Hb as [Ht%bool_decide_eq_true _].
    split; [by apply list_elem_of_In | done].
  - intros Hfb. apply find_some in Hfb as [Hin Ht%bool_decide_eq_true].
    split; [by apply list_elem_of_In | done].
Qed.

Lemma extract_loop_sound available (markers : list (string * string)) :
  ∀ (seen : list (string * string)) used,
    Forall (λ c, c ∈ available
                 ∧ ∃ m, m ∈ seen ∧ Py.lower (document_title c) = Py.lower m.1) used →
    NoDup used →
    (length used ≤ length seen)%nat →
    let result := foldl (extract_step available) used markers in
    Forall (λ c, c ∈ available
                 ∧ ∃ m, m ∈ seen ++ markers
                        ∧ Py.lower (document_title c) = Py.lower m.1) result
    ∧ NoDup result
    ∧ (length result ≤ length (seen ++ markers))%nat.
Proof.
  induction markers as [|m markers IH]; intros seen used Hall Hnd Hlen.
  { simpl. by rewrite app_nil_r. }
  intros result. subst result. cbn [foldl].
  replace (seen ++ m :: markers) with ((seen ++ [m]) ++ markers)
    by (by rewrite <- app_assoc).
  assert (Hweak : Forall (λ c, c ∈ available
                    ∧ ∃ m', m' ∈ seen ++ [m]
                            ∧ Py.lower (document_title c) = Py.lower m'.1) used).
  { eapply Forall_impl; [exact Hall|].
    intros c (Hin & m' & Hm' & Ht). split; [done|]. exists m'.
    split; [|done]. apply elem_of_app. by left. }
  apply IH.
  - destruct m as [doc_title page_str]. unfold extract_step.
    rewrite citation_to_use_resolve.
    destruct (Spec.resolve _ _ _) as [c|] eqn:Hres; [|done].
    case_bool_decide; [done|].
    apply Forall_app. split; [done|]. apply Forall_singleton.
    apply resolve_elem_of in Hres as [Hin Ht]. split; [done|].
    exists (doc_title, page_str). split; [|done].
    apply elem_of_app. right. by left.
  - destruct m as [doc_title page_str]. unfold extract_step.
    destruct (citation_to_use _ _ _) as [c|]; [|done].
    case_bool_decide as Hin; [done|].
    apply NoDup_app. split; [done|]. split; [|apply NoDup_singleton].
    intros x Hx ->%list_elem_of_singleton. done.
  - destruct m as [doc_title page_str]. unfold extract_step.
    rewrite length_app. simpl.
    destruct (citation_to_use _ _ _) as [c|]; [|lia].
    case_bool_decide; [lia|]. rewrite length_app. simpl. lia.
Qed.

(** X8. The extraction returns citations of the available list only, each at
    most once, each with the title (without case) of some marker of the
    text, and never more of them than there are markers. *)
Theorem extraction_returns_cited_available (text : string) available :
  let result := _extract_citations_from_text text available in
  Forall (λ c, c ∈ available
               ∧ ∃ marker, marker ∈ findall text
                           ∧ Py.lower (document_title c) = Py.lower marker.1) result
  ∧ NoDup result
  ∧ (length result ≤ length (findall text))%nat.
Proof.
  apply (extract_loop_sound available (findall text) [] []); [done | constructor | done].
Qed.

Lemma prefix_single (c : ascii) (s : string) :
  String.prefix (String c "") (String c s) = true.
Proof. simpl. destruct (ascii_dec c c); [by destruct s | done]. Qed.

Lemma findall_from_no_bracket (s : string) :
  Py.contains "[" s = false → findall_from 0 s = [].
Proof.
  induction s as [|c s IH]; [done|].
  cbn [Py.contains]. intros Hc.
  apply orb_false_iff in Hc as [Hpre Hc].
  cbn [findall_from]. unfold match_here, expect.
  destruct (bool_decide ("["%char = c)) eqn:Hb.
  - apply bool_decide_eq_true in Hb. subst c.
    by rewrite prefix_single in Hpre.
  - simpl. by apply IH.
Qed.

(** X9. Nothing is extracted when no citation is available, or when the text
    has no opening bracket. *)
Theorem extraction_of_nothing (text : string) available :
  _extract_citations_from_text text [] = ([] : list (Citation score))
  ∧ (Py.contains "[" text = false → _extract_citations_from_text text available = []).
Proof.
  split.
  - unfold _extract_citations_from_text.
    induction (findall text) as [|[t p] ms IH]; [done|]. exact IH.
  - intros Hc. unfold _extract_citations_from_text, findall.
    by rewrite findall_from_no_bracket.
Qed.

End ExtractionFurther.

(** ** A citation's inline format is a marker of the extraction *)

Section InlineFormat.

Import Citations SectionGenerator CitationMethods.

Lemma pretty_digit_value (d : N) :
  (d < 10)%N → Z.of_N (N_of_ascii (pretty_N_char d)) - 48 = Z.of_N d.
Proof.
  intros Hd.
  assert (d = 0 ∨ d = 1 ∨ d = 2 ∨ d = 3 ∨ d = 4 ∨ d = 5 ∨ d = 6 ∨ d = 7
          ∨ d = 8 ∨ d = 9)%N as Hcases by lia.
  destruct_or!; subst d; reflexivity.
Qed.

Lemma pretty_digit_is_digit (d : N) : is_digit (pretty_N_char d) = true.
Proof. unfold pretty_N_char. by repeat case_match. Qed.

(** Reading the digits that [pretty_N_go] writes gives the number back. *)
Lemma int_go_pretty (x : N) :
  ∀ s, int_go 0 (pretty_N_go x s) = int_go (Z.of_N x) s.
Proof.
  induction (N.lt_wf_0 x) as [x _ IH]. intros s.
  assert (x = 0 ∨ 0 < x)%N as [-> | Hx] by lia; [by rewrite pretty_N_go_0|].
  rewrite pretty_N_go_step by done.
  rewrite IH by (by apply N.div_lt). cbn [int_go].
  rewrite pretty_digit_value by (by apply N.mod_lt).
  f_equal. pose proof (N.div_mod x 10). lia.
Qed.

Lemma digits_pretty (x : N) :
  ∀ s, digits (pretty_N_go x s) = (pretty_N_go x (digits s).1, (digits s).2).
Proof.
  induction (N.lt_wf_0 x) as [x _ IH]. intros s.
  assert (x = 0 ∨ 0 < x)%N as [-> | Hx] by lia.
  { rewrite !pretty_N_go_0. by destruct (digits s). }
  rewrite pretty_N_go_step by done.
  rewrite IH by (by apply N.div_lt). cbn [digits].
  rewrite pretty_digit_is_digit. destruct (digits s) as [d r]. cbn [fst snd].
  by rewrite <- pretty_N_go_step.
Qed.

Lemma pretty_go_append (x : N) :
  ∀ s r, pretty_N_go x s +:+ r = pretty_N_go x (s +:+ r).
Proof.
  induction (N.lt_wf_0 x) as [x _ IH]. intros s r.
  assert (x = 0 ∨ 0 < x)%N as [-> | Hx] by lia; [by rewrite !pretty_N_go_0|].
  rewrite (pretty_N_go_step x s), (pretty_N_go_step x (s +:+ r)) by done.
  rewrite IH by (by apply N.div_lt). reflexivity.
Qed.

Lemma pretty_go_head (x : N) :
  ∀ s, (0 < x)%N → ∃ d t, pretty_N_go x s = String d t ∧ is_digit d = true.
Proof.
  induction (N.lt_wf_0 x) as [x _ IH]. intros s Hx.
  rewrite pretty_N_go_step by done.
  destruct (N.eq_0_gt_0_cases (x `div` 10)) as [-> | Hq].
  - rewrite pretty_N_go_0. eexists _, _. split; [done|].
    apply pretty_digit_is_digit.
  - apply IH; [by apply N.div_lt | done].
Qed.

(** [str] of a number that is not negative: its digits, at least one. *)
Lemma str_nonneg (n : Z) :
  0 ≤ n →
  (n = 0 ∧ str n = "0")
  ∨ ∃ x : N, (0 < x)%N ∧ n = Z.of_N x ∧ str n = pretty_N_go x "".
Proof.
  intros Hn. destruct n as [|p|p]; [by left | | lia].
  right. exists (N.pos p). split; [lia|]. split; [done|]. reflexivity.
Qed.

Lemma int_str (n : Z) : 0 ≤ n → int (str n) = n.
Proof.
  intros Hn. destruct (str_nonneg n Hn) as [[-> ->] | (x & Hx & -> & ->)];
    [reflexivity|].
  unfold int. by rewrite int_go_pretty.
Qed.

(** After the digits of [str n], [digits] stops at a character that is not a
    digit. *)
Lemma digits_str (n : Z) (c : ascii) (rest : string) :
  0 ≤ n → is_digit c = false →
  digits (str n +:+ String c rest) = (str n, String c rest).
Proof.
  intros Hn Hc. destruct (str_nonneg n Hn) as [[-> ->] | (x & Hx & -> & ->)].
  - change ("0" +:+ String c rest) with (String "0" (String c rest)).
    cbn [digits]. rewrite Hc. reflexivity.
  - rewrite pretty_go_append, digits_pretty.
    change ("" +:+ String c rest) with (String c rest).
    cbn [digits]. by rewrite Hc.
Qed.

Lemma str_head (n : Z) :
  0 ≤ n → ∃ d s, str n = String d s ∧ is_digit d = true.
Proof.
  intros Hn. destruct (str_nonneg n Hn) as [[-> ->] | (x & Hx & -> & Hs)].
  - by exists "0"%char, "".
  - rewrite Hs. by apply pretty_go_head.
Qed.

Lemma digit_not_space (c : ascii) : is_digit c = true → Py.isspace c = false.
Proof. destruct c as [[] [] [] [] [] [] [] []]; by vm_compute. Qed.

Lemma expect_other (c a : ascii) (s : string) :
  a ≠ c → expect c (String a s) = None.
Proof. intros Hne. unfold expect. by rewrite bool_decide_eq_false_2. Qed.

Lemma expect_same (c : ascii) (s : string) : expect c (String c s) = Some s.
Proof. unfold expect. by rewrite bool_decide_eq_true_2. Qed.

(** The tail of the pattern on [, p.<digits>\]]. *)
Lemma match_tail_inline (n : Z) (rest : string) :
  0 ≤ n →
  match_tail (", p." +:+ str n +:+ String "]" rest) = Some (str n, rest).
Proof.
  intros Hn. unfold match_tail.
  change (", p." +:+ str n +:+ String "]" rest)
    with (String "," (String " " (String "p" (String "."
            (str n +:+ String "]" rest))))).
  rewrite expect_same. cbn [mbind option_bind].
  change (spaces (String " " (String "p" ?s))) with (String "p" s).
  rewrite expect_same. cbn [mbind option_bind].
  rewrite expect_same. cbn [mbind option_bind].
  destruct (str_head n Hn) as (d & t & Hs & Hd).
  assert (Hsp : spaces (str n +:+ String "]" rest) = str n +:+ String "]" rest).
  { rewrite Hs. change (String d t +:+ ?r) with (String d (t +:+ r)).
    cbn [spaces]. by rewrite digit_not_space. }
  rewrite Hsp, digits_str by done.
  rewrite Hs at 1. cbn [Py.is_empty].
  rewrite expect_same. reflexivity.
Qed.

(** No tail of the pattern starts in a run without comma and bracket that a
    closing bracket follows. *)
Lemma match_title_no_tail (u rest : string) :
  Forall (λ a, a ≠ ","%char ∧ a ≠ "]"%char) (list_ascii_of_string u) →
  match_title (u +:+ String "]" rest) = None.
Proof.
  induction u as [|a u IH]; intros Hall.
  { change ("" +:+ String "]" rest) with (String "]" rest). cbn [match_title].
    by rewrite bool_decide_eq_true_2. }
  cbn [list_ascii_of_string] in Hall. apply Forall_cons in Hall as [[Hc Hb] Hall].
  change (String a u +:+ ?r) with (String a (u +:+ r)). cbn [match_title].
  rewrite bool_decide_eq_false_2 by done. rewrite IH by done.
  unfold match_tail. destruct u as [|b u].
  - change ("" +:+ String "]" rest) with (String "]" rest).
    by rewrite expect_other.
  - change (String b u +:+ ?r) with (String b (u +:+ r)).
    cbn [list_ascii_of_string] in Hall. apply Forall_cons in Hall as [[Hc' _] _].
    by rewrite expect_other.
Qed.

Lemma str_chars (n : Z) :
  0 ≤ n → Forall (λ a, is_digit a = true) (list_ascii_of_string (str n)).
Proof.
  intros Hn.
  assert (Hgo : ∀ x s, Forall (λ a, is_digit a = true) (list_ascii_of_string s) →
                Forall (λ a, is_digit a = true)
                       (list_ascii_of_string (pretty_N_go x s))).
  { intros x. induction (N.lt_wf_0 x) as [x _ IH]. intros s Hs.
    destruct (N.eq_0_gt_0_cases x) as [-> | Hx]; [by rewrite pretty_N_go_0|].
    rewrite pretty_N_go_step by done. apply IH; [by apply N.div_lt|].
    cbn [list_ascii_of_string]. constructor; [apply pretty_digit_is_digit | done]. }
  destruct (str_nonneg n Hn) as [[-> ->] | (x & Hx & -> & ->)].
  - by repeat constructor.
  - apply Hgo. constructor.
Qed.

Lemma match_title_inline (title : string) (n : Z) (rest : string) :
  title ≠ "" →
  Py.contains "]" title = false →
  0 ≤ n →
  match_title (title +:+ ", p." +:+ str n +:+ String "]" rest) =
  Some (title, str n, rest).
Proof.
  intros Hne Hfree Hn. induction title as [|a title IH]; [done|].
  cbn [Py.contains] in Hfree. apply orb_false_iff in Hfree as [Hpre Hfree].
  assert (Ha : a ≠ "]"%char).
  { intros ->. by rewrite prefix_single in Hpre. }
  change (String a title +:+ ?r) with (String a (title +:+ r)). cbn [match_title].
  rewrite bool_decide_eq_false_2 by done.
  destruct title as [|b title].
  - change ("" +:+ ?r) with r.
    assert (Hnone : match_title (", p." +:+ str n +:+ String "]" rest) = None).
    { change (", p." +:+ str n +:+ String "]" rest)
        with (String "," ((" p." +:+ str n) +:+ String "]" rest)).
      cbn [match_title]. rewrite bool_decide_eq_false_2 by done.
      rewrite match_title_no_tail.
      - unfold match_tail.
        change ((" p." +:+ str n) +:+ String "]" rest)
          with (String " " (String "p" (String "." (str n +:+ String "]" rest)))).
        by rewrite expect_other.
      - change (" p." +:+ str n)
          with (String " " (String "p" (String "." (str n)))).
        cbn [list_ascii_of_string]. repeat (constructor; [done|]).
        eapply Forall_impl; [by apply str_chars|].
        intros c Hc. split; intros ->; discriminate Hc. }
    rewrite Hnone, match_tail_inline by done. reflexivity.
  - rewrite IH by done. reflexivity.
Qed.

Lemma findall_from_skip_all (s : string) :
  ∀ skip, (String.length s ≤ skip)%nat → findall_from skip s = [].
Proof.
  induction s as [|a s IH]; intros skip Hlen; [done|].
  destruct skip as [|k]; [simpl in Hlen; lia|].
  cbn [findall_from]. apply IH. simpl in Hlen. lia.
Qed.

Context {score : Type} `{EqDecision score}.

(** X10. What [to_inline_format] writes, the extraction reads: for a citation
    with a non-empty title without closing bracket and a page that is not
    negative, the inline format holds exactly one marker, with the title
    and the page of the citation, and extracting from it with the citation
    at the head of the available list gives the citation back. *)
Theorem inline_format_round_trip (c : Citation score)
    (others : list (Citation score)) :
  document_title c ≠ "" →
  Py.contains "]" (document_title c) = false →
  0 ≤ page_number c →
  findall (to_inline_format c) = [(document_title c, str (page_number c))]
  ∧ int (str (page_number c)) = page_number c
  ∧ _extract_citations_from_text (to_inline_format c) (c :: others) = [c].
Proof.
  intros Hne Hfree Hpage.
  assert (Hfind : findall (to_inline_format c)
                  = [(document_title c, str (page_number c))]).
  { unfold findall, to_inline_format.
    change ("[" +:+ ?r) with (String "[" r).
    change (str (page_number c) +:+ "]")
      with (str (page_number c) +:+ String "]" "").
    cbn [findall_from]. unfold match_here. cbn [expect].
    rewrite bool_decide_eq_true_2 by done. cbn [mbind option_bind].
    rewrite match_title_inline by done.
    by rewrite findall_from_skip_all by (simpl; lia). }
  split; [done|]. split; [by apply int_str|].
  unfold _extract_citations_from_text. rewrite Hfind.
  cbn [foldl extract_step]. rewrite int_str by done.
  rewrite citation_to_use_resolve. unfold Spec.resolve. cbn [List.find].
  rewrite !bool_decide_eq_true_2 by done. cbn [andb].
  rewrite bool_decide_eq_false_2 by (by intros ?%elem_of_nil). reflexivity.
Qed.

End InlineFormat.

Lemma inline_format_round_trip_witness :
  SectionGenerator.findall (CitationMethods.to_inline_format Examples.report_page_3)
  = [("Annual Report", "3")]
  ∧ SectionGenerator.int (CitationMethods.str 3) = 3
  ∧ SectionGenerator._extract_citations_from_text
      (CitationMethods.to_inline_format Examples.report_page_3)
      [Examples.report_page_3] = [Examples.report_page_3].
Proof.
  apply (inline_format_round_trip Examples.report_page_3 []);
    [discriminate | reflexivity | simpl; lia].
Defined.

Lemma extraction_of_nothing_witness :
  SectionGenerator._extract_citations_from_text "no marker here, p.3]"
    [Examples.report_page_3] = [].
Proof.
  apply (extraction_of_nothing "no marker here, p.3]" [Examples.report_page_3]).
  reflexivity.
Defined.

(** ** Snippets *)

Section SnippetFacts.

Import Citations CitationMethods.

Lemma length_substring_0 (s : string) :
  ∀ n, String.length (String.substring 0 n s) = Nat.min n (String.length s).
Proof.
  induction s as [|a s IH]; intros [|n]; simpl; try done. by rewrite IH.
Qed.

Lemma prefix_substring_0 (s : string) :
  ∀ n, String.prefix (String.substring 0 n s) s = true.
Proof.
  induction s as [|a s IH]; intros [|n]; simpl; try done.
  destruct (ascii_dec a a); [apply IH | done].
Qed.

Context {score : Type}.

(** X11. For a limit that is not negative, [get_snippet] gives the text
    itself when it fits, and otherwise its first [max_chars] characters
    followed by three dots; the snippet never has more than [max_chars + 3]
    characters. *)
Theorem get_snippet_is_bounded (c : Citation score) (max_chars : Z) :
  0 ≤ max_chars →
  Z.of_nat (String.length (get_snippet c max_chars)) ≤ max_chars + 3
  ∧ (Z.of_nat (String.length (chunk_text c)) ≤ max_chars →
     get_snippet c max_chars = chunk_text c)
  ∧ (max_chars < Z.of_nat (String.length (chunk_text c)) →
     ∃ head,
       get_snippet c max_chars = head +:+ "..."
       ∧ Z.of_nat (String.length head) = max_chars
       ∧ String.prefix head (chunk_text c) = true).
Proof.
  intros Hmax. unfold get_snippet.
  destruct (Z.leb_spec (Z.of_nat (String.length (chunk_text c))) max_chars)
    as [Hfit | Hlong].
  - split; [lia|]. split; [done | lia].
  - assert (Hhead : Z.of_nat (String.length (str_upto (chunk_text c) max_chars))
                    = max_chars).
    { unfold str_upto, Py.clamp_index. rewrite length_substring_0.
      destruct (Z.ltb_spec max_chars 0); lia. }
    split; [|split; [lia|]].
    + rewrite length_append. simpl. lia.
    + intros _. exists (str_upto (chunk_text c) max_chars).
      split; [done|]. split; [done|]. apply prefix_substring_0.
Qed.

End SnippetFacts.

Lemma get_snippet_is_bounded_witness :
  Z.of_nat (String.length (CitationMethods.get_snippet Examples.report_page_3 7)) ≤ 7 + 3
  ∧ (Z.of_nat (String.length (Citations.chunk_text Examples.report_page_3)) ≤ 7 →
     CitationMethods.get_snippet Examples.report_page_3 7
     = Citations.chunk_text Examples.report_page_3)
  ∧ (7 < Z.of_nat (String.length (Citations.chunk_text Examples.report_page_3)) →
     ∃ head,
       CitationMethods.get_snippet Examples.report_page_3 7 = head +:+ "..."
       ∧ Z.of_nat (String.length head) = 7
       ∧ String.prefix head (Citations.chunk_text Examples.report_page_3) = true).
Proof. apply (get_snippet_is_bounded Examples.report_page_3 7). lia. Defined.

(** ** Further facts about the paragraphs ([utils/paragraph_lock.py]) *)

Section ParagraphFacts.

Import ParagraphLock Notions.

Lemma prefix_append (sep a s : string) :
  String.prefix sep a = true → String.prefix sep (a +:+ s) = true.
Proof.
  revert a. induction sep as [|x sep IH]; intros a.
  { intros _. by destruct (a +:+ s). }
  destruct a as [|y a]; [done|].
  change (String y a +:+ s) with (String y (a +:+ s)). cbn [String.prefix].
  destruct (ascii_dec x y); [|done]. apply IH.
Qed.

Lemma contains_tail (sep : string) (c : ascii) (s : string) :
  Py.contains sep (String c s) = false → Py.contains sep s = false.
Proof.
  intros H. change (Py.contains sep (String c s))
    with (String.prefix sep (String c s) || Py.contains sep s) in H.
  by apply orb_false_iff in H as [_ H].
Qed.

Lemma contains_head (sep : string) (s : string) :
  Py.contains sep s = false → String.prefix sep s = false.
Proof.
  intros H. destruct s as [|c s].
  - simpl in H. by apply orb_false_iff in H as [H _].
  - change (Py.contains sep (String c s))
      with (String.prefix sep (String c s) || Py.contains sep s) in H.
    by apply orb_false_iff in H as [H _].
Qed.

Lemma contains_append_l (sep a s : string) :
  Py.contains sep (a +:+ s) = false → Py.contains sep a = false.
Proof.
  induction a as [|c a IH]; intros H.
  - change ("" +:+ s) with s in H. apply contains_head in H.
    destruct sep as [|x sep]; [by destruct s|]. reflexivity.
  - change (String c a +:+ s) with (String c (a +:+ s)) in H.
    change (String.prefix sep (String c a) || Py.contains sep a = false).
    apply orb_false_iff. split.
    + apply contains_head in H.
      destruct (String.prefix sep (String c a)) eqn:Hp; [|done].
      apply (prefix_append _ _ s) in Hp.
      change (String c a +:+ s) with (String c (a +:+ s)) in Hp. congruence.
    + apply IH. by apply contains_tail in H.
Qed.

Lemma no_start_contains (sep acc s : string) :
  sep ≠ "" → no_start sep acc s = true → Py.contains sep acc = false.
Proof.
  intros Hsep. induction acc as [|c acc IH]; intros H.
  - by destruct sep.
  - cbn [no_start] in H. apply andb_true_iff in H as [Hp Hrest].
    apply negb_true_iff in Hp.
    change (String.prefix sep (String c acc) || Py.contains sep acc = false).
    apply orb_false_iff. split; [|by apply IH].
    destruct (String.prefix sep (String c acc)) eqn:Hq; [|done].
    apply (prefix_append _ _ s) in Hq. congruence.
Qed.

Lemma no_start_snoc (sep acc : string) (c : ascii) (s : string) :
  no_start sep acc (String c s) = true →
  String.prefix sep (String c s) = false →
  no_start sep (acc +:+ String c "") s = true.
Proof.
  intros H Hp. induction acc as [|a acc IH].
  - change ("" +:+ String c "") with (String c "").
    cbn [no_start]. change (String c "" +:+ s) with (String c s).
    by rewrite Hp.
  - change (String a acc +:+ String c "") with (String a (acc +:+ String c "")).
    cbn [no_start] in *. apply andb_true_iff in H as [Hq Hrest].
    apply andb_true_iff. split; [|by apply IH].
    change (String a (acc +:+ String c "") +:+ s)
      with (String a ((acc +:+ String c "") +:+ s)).
    rewrite append_assoc. exact Hq.
Qed.

(** No piece of [s.split(sep)] holds the separator. *)
Lemma split_from_pieces_clean (sep : string) :
  sep ≠ "" →
  ∀ (s : string) (skip : nat) (acc p : string),
    no_start sep acc s = true →
    (skip ≠ 0%nat → acc = "") →
    p ∈ Py.split_from sep skip acc s →
    Py.contains sep p = false.
Proof.
  intros Hsep. induction s as [|c s IH]; intros skip acc p Hacc Hskip Hin.
  - simpl in Hin. apply list_elem_of_singleton in Hin as ->.
    by apply (no_start_contains _ _ "").
  - destruct skip as [|k].
    + rewrite split_from_cons in Hin.
      destruct (String.prefix sep (String c s)) eqn:Hp.
      * apply elem_of_cons in Hin as [-> | Hin].
        -- by apply (no_start_contains _ _ (String c s)).
        -- eapply (IH _ "" p); [done| |exact Hin]. done.
      * apply (IH 0%nat (acc +:+ String c "") p); [|done|exact Hin].
        by apply no_start_snoc.
    + simpl in Hin. rewrite (Hskip ltac:(done)) in *.
      apply (IH k "" p); [done|done|exact Hin].
Qed.

Lemma lstrip_head (s : string) :
  Py.lstrip s = "" ∨ ∃ c r, Py.lstrip s = String c r ∧ Py.isspace c = false.
Proof.
  induction s as [|c s IH]; [by left|].
  cbn [Py.lstrip]. destruct (Py.isspace c) eqn:Hc; [exact IH|].
  right. by exists c, s.
Qed.

Lemma rstrip_idem (s : string) : Py.rstrip (Py.rstrip s) = Py.rstrip s.
Proof.
  induction s as [|c s IH]; [done|].
  cbn [Py.rstrip]. cbv zeta.
  destruct (Py.isspace c && Py.is_empty (Py.rstrip s)) eqn:Hc; [done|].
  cbn [Py.rstrip]. cbv zeta. by rewrite IH, Hc.
Qed.

Lemma rstrip_head (c : ascii) (r : string) :
  Py.isspace c = false → Py.rstrip (String c r) = String c (Py.rstrip r).
Proof. intros Hc. cbn [Py.rstrip]. cbv zeta. by rewrite Hc. Qed.

Lemma strip_idem (s : string) : Py.strip (Py.strip s) = Py.strip s.
Proof.
  unfold Py.strip. destruct (lstrip_head s) as [-> | (c & r & -> & Hc)]; [done|].
  rewrite rstrip_head by done. cbn [Py.lstrip]. rewrite Hc.
  rewrite rstrip_head by done. by rewrite rstrip_idem.
Qed.

Lemma contains_lstrip (sep s : string) :
  Py.contains sep s = false → Py.contains sep (Py.lstrip s) = false.
Proof.
  induction s as [|c s IH]; [done|]. intros H.
  cbn [Py.lstrip]. destruct (Py.isspace c); [|done].
  apply IH. by apply contains_tail in H.
Qed.

Lemma rstrip_decompose (s : string) : ∃ t, s = Py.rstrip s +:+ t.
Proof.
  induction s as [|c s [t IH]]; [by exists ""|].
  cbn [Py.rstrip]. cbv zeta.
  destruct (Py.isspace c && Py.is_empty (Py.rstrip s)).
  - by exists (String c s).
  - exists t. change (String c s = String c (Py.rstrip s +:+ t)). by rewrite <- IH.
Qed.

Lemma contains_rstrip (sep s : string) :
  Py.contains sep s = false → Py.contains sep (Py.rstrip s) = false.
Proof.
  intros H. destruct (rstrip_decompose s) as [t Ht].
  rewrite Ht in H. by apply contains_append_l in H.
Qed.

Lemma contains_strip (sep s : string) :
  Py.contains sep s = false → Py.contains sep (Py.strip s) = false.
Proof. intros H. unfold Py.strip. by apply contains_rstrip, contains_lstrip. Qed.

Lemma paragraphs_well_formed (text : string) :
  Forall well_formed_paragraph (split_into_paragraphs text).
Proof.
  unfold split_into_paragraphs. destruct (Py.is_empty text); [constructor|].
  cbv zeta. apply Forall_fmap, Forall_forall. intros p Hin.
  apply list_elem_of_In, filter_In in Hin as [Hin Hne].
  apply list_elem_of_In in Hin.
  apply negb_true_iff, is_empty_false in Hne.
  split; [exact Hne|]. split; [apply strip_idem|].
  apply contains_strip.
  apply (split_from_pieces_clean blank_line ltac:(done) text 0%nat "" p); done.
Qed.

(** X12. Every paragraph returned by [split_into_paragraphs], the utility
    and the method of the section model alike, is well formed: it is not
    empty, it has no space at either end ([strip] leaves it unchanged) and it
    holds no blank line. *)
Theorem split_into_paragraphs_well_formed (text : string) :
  Forall well_formed_paragraph (split_into_paragraphs text)
  ∧ Forall well_formed_paragraph (GeneratedSection.split_into_paragraphs text).
Proof. split; apply paragraphs_well_formed. Qed.

Lemma append_nil_r (s : string) : s +:+ "" = s.
Proof.
  induction s as [|c s IH]; [done|].
  change (String c (s +:+ "") = String c s). by rewrite IH.
Qed.

Lemma prefix_refl (s : string) : String.prefix s s = true.
Proof.
  induction s as [|c s IH]; [done|]. cbn [String.prefix].
  by destruct (ascii_dec c c).
Qed.

(** The scan passes over a stretch in which no separator starts. *)
Lemma split_from_pass (sep p t : string) :
  ∀ acc,
    no_start sep p t = true →
    Py.split_from sep 0 acc (p +:+ t) = Py.split_from sep 0 (acc +:+ p) t.
Proof.
  induction p as [|c p IH]; intros acc H.
  - by rewrite append_nil_r.
  - cbn [no_start] in H. apply andb_true_iff in H as [Hp Hrest].
    apply negb_true_iff in Hp.
    change (String c p +:+ t) with (String c (p +:+ t)) in *.
    rewrite split_from_cons, Hp, IH by done.
    by rewrite append_assoc.
Qed.

Lemma split_from_skip (sep x rest : string) :
  ∀ acc,
    Py.split_from sep (String.length x) acc (x +:+ rest) =
    Py.split_from sep 0 acc rest.
Proof. induction x as [|c x IH]; intros acc; [done|]. apply IH. Qed.

Lemma split_from_sep (sep acc rest : string) :
  sep ≠ "" →
  Py.split_from sep 0 acc (sep +:+ rest) = acc :: Py.split_from sep 0 "" rest.
Proof.
  intros Hsep. destruct sep as [|a sep]; [done|].
  pose proof (prefix_append _ _ rest (prefix_refl (String a sep))) as Hp.
  change (String a sep +:+ rest) with (String a (sep +:+ rest)) in *.
  rewrite split_from_cons, Hp. f_equal. apply split_from_skip.
Qed.

(** Splitting a join gives the pieces back, when no separator starts inside
    a piece. *)
Lemma split_from_join (sep : string) (ps : list string) :
  sep ≠ "" →
  Forall (λ p, ∀ t, no_start sep p t = true) ps →
  ∀ p acc,
    (∀ t, no_start sep p t = true) →
    Py.split_from sep 0 acc (Py.join sep (p :: ps)) = (acc +:+ p) :: ps.
Proof.
  intros Hsep. induction 1 as [|q qs Hq Hqs IH]; intros p acc Hp.
  - change (Py.join sep [p]) with p. rewrite <- (append_nil_r p) at 1.
    by rewrite split_from_pass.
  - change (Py.join sep (p :: q :: qs)) with (p +:+ sep +:+ Py.join sep (q :: qs)).
    rewrite split_from_pass, split_from_sep by done.
    by rewrite IH.
Qed.

Lemma rstrip_cons (c : ascii) (p : string) :
  Py.rstrip (String c p) = String c p →
  Py.rstrip p = p ∧ (Py.isspace c = true → p ≠ "").
Proof.
  cbn [Py.rstrip]. cbv zeta.
  destruct (Py.isspace c && Py.is_empty (Py.rstrip p)) eqn:Hc; [done|].
  intros [= Hp]. split; [done|]. intros Hs. rewrite Hs, Hp in Hc.
  by destruct p.
Qed.

(** No blank line starts inside a paragraph that holds none and does not end
    in a space, whatever follows it. *)
Lemma paragraph_no_start (p t : string) :
  Py.rstrip p = p → Py.contains blank_line p = false →
  no_start blank_line p t = true.
Proof.
  induction p as [|c p IH]; intros Hr Hc; [done|].
  apply rstrip_cons in Hr as [Hr Hne].
  cbn [no_start]. apply andb_true_iff. split.
  - apply negb_true_iff.
    change (String c p +:+ t) with (String c (p +:+ t)).
    unfold blank_line. cbn [String.prefix].
    destruct (ascii_dec Py.LF c) as [<-|]; [|done].
    destruct p as [|d p]; [by destruct Hne|].
    change (String d p +:+ t) with (String d (p +:+ t)). cbn [String.prefix].
    destruct (ascii_dec Py.LF d) as [<-|]; [|done].
    apply contains_head in Hc. rewrite <- Hc.
    unfold blank_line. cbn [String.prefix].
    destruct (ascii_dec Py.LF Py.LF); [|done].
    by destruct (p +:+ t); destruct p.
  - apply IH; [done|]. by apply contains_tail in Hc.
Qed.

Lemma strip_fixed_rstrip (p : string) : Py.strip p = p → Py.rstrip p = p.
Proof. intros H. rewrite <- H. unfold Py.strip. apply rstrip_idem. Qed.

Lemma strip_filter_well_formed (ps : list string) :
  Forall well_formed_paragraph ps →
  Py.strip <$> List.filter (λ p, negb (Py.is_empty (Py.strip p))) ps = ps.
Proof.
  induction 1 as [|p ps (Hne & Hs & _) _ IH]; [done|].
  cbn [List.filter]. rewrite Hs.
  destruct p as [|c p]; [done|]. cbn [Py.is_empty negb fmap list_fmap].
  rewrite Hs. f_equal. exact IH.
Qed.

Lemma split_join_paragraphs (ps : list string) :
  Forall well_formed_paragraph ps →
  split_into_paragraphs (Py.join blank_line ps) = ps.
Proof.
  intros Hall. destruct ps as [|p ps]; [done|].
  unfold split_into_paragraphs.
  destruct (Py.is_empty (Py.join blank_line (p :: ps))) eqn:He.
  { exfalso. apply (join_nonempty blank_line (p :: ps)); [done| |].
    - eapply Forall_impl; [exact Hall|]. by intros ? [? _].
    - by destruct (Py.join blank_line (p :: ps)). }
  cbv zeta. unfold Py.split_pieces.
  assert (Hns : Forall (λ p, ∀ t, no_start blank_line p t = true) (p :: ps)).
  { eapply Forall_impl; [exact Hall|]. intros q (_ & Hs & Hc) t.
    apply paragraph_no_start; [by apply strip_fixed_rstrip | done]. }
  apply Forall_cons in Hns as [Hp Hps].
  rewrite split_from_join by done.
  change ("" +:+ p) with p. by apply strip_filter_well_formed.
Qed.

(** X13. Round trip: joining well-formed paragraphs with blank lines and
    splitting the text again gives the same paragraphs, in the same order. *)
Theorem split_join_round_trip (ps : list string) :
  Forall well_formed_paragraph ps →
  split_into_paragraphs (Py.join blank_line ps) = ps.
Proof. apply split_join_paragraphs. Qed.

End ParagraphFacts.

Lemma split_join_round_trip_witness :
  Forall Notions.well_formed_paragraph ["Q0"; "Locked P1"]
  ∧ ParagraphLock.split_into_paragraphs
      (Py.join ParagraphLock.blank_line ["Q0"; "Locked P1"])
    = ["Q0"; "Locked P1"].
Proof.
  assert (H : Forall Notions.well_formed_paragraph ["Q0"; "Locked P1"]).
  { repeat constructor; done. }
  split; [exact H|]. apply (split_join_round_trip _ H).
Defined.

(** ** Further facts about the merge with locked paragraphs *)

Section MergeFurther.

Import ParagraphLock Notions.

Implicit Types (locked : list (Z * string)) (i : Z).

Lemma lock_at_elem locked i (t : string) :
  Spec.lock_at locked i = Some t → (i, t) ∈ locked.
Proof.
  induction locked as [|[idx text] rest IH]; [done|].
  cbn [Spec.lock_at]. destruct (Spec.lock_at rest i) as [t'|].
  - intros [= ->]. right. by apply IH.
  - case_bool_decide as Hi; [|done]. intros [= ->]. subst. by left.
Qed.

Lemma emit_well_formed locked (new_paragraphs : list string) i (p : string) :
  Forall (λ l, well_formed_paragraph l.2) locked →
  Forall well_formed_paragraph new_paragraphs →
  Spec.emit new_paragraphs locked i = Some p → well_formed_paragraph p.
Proof.
  intros Hl Hn. unfold Spec.emit.
  destruct (Spec.lock_at locked i) as [t|] eqn:Ht.
  - intros [= <-]. apply lock_at_elem in Ht.
    by apply (proj1 (Forall_forall _ _) Hl (i, t)).
  - destruct (i <? _); [|done]. intros Hp.
    by apply (Forall_lookup_1 _ _ _ _ Hn Hp).
Qed.

(** Splitting the merged text again gives the merged paragraphs. *)
Lemma split_merge (new_text : string) locked :
  locked ≠ [] →
  Forall (λ l, well_formed_paragraph l.2) locked →
  split_into_paragraphs (merge_paragraphs_with_locks new_text locked) =
  omap (Spec.emit (split_into_paragraphs new_text) locked)
       (seqZ 0 (Spec.positions (split_into_paragraphs new_text) locked)).
Proof.
  intros Hne Hl. rewrite merge_with_locks_spec by done. unfold Spec.merge.
  cbv zeta. apply split_join_paragraphs.
  apply Forall_forall. intros p Hp.
  apply list_elem_of_omap in Hp as (i & _ & Hp).
  eapply emit_well_formed; [exact Hl | apply paragraphs_well_formed | exact Hp].
Qed.

Lemma omap_all_some {A B : Type} (f : A → option B) (l : list A) :
  Forall (λ x, is_Some (f x)) l → Some <$> omap f l = f <$> l.
Proof.
  induction 1 as [|x l [y Hy] _ IH]; [done|].
  cbn [omap list_omap fmap list_fmap]. rewrite Hy. cbn. by f_equal.
Qed.

Lemma positions_in_range locked (new_paragraphs : list string) :
  locked ≠ [] →
  Forall (λ l, 0 ≤ l.1 < Z.of_nat (length new_paragraphs)) locked →
  Spec.positions new_paragraphs locked = Z.of_nat (length new_paragraphs).
Proof.
  intros Hne Hall. destruct locked as [|[idx text] rest]; [done|].
  unfold Spec.positions.
  destruct (foldr_max_spec rest.*1 idx) as [Hin _].
  change (idx :: rest.*1) with (((idx, text) :: rest).*1) in Hin.
  apply list_elem_of_fmap in Hin as (l & Hl & Hin).
  apply (proj1 (Forall_forall _ _) Hall) in Hin. lia.
Qed.

Lemma emit_in_range locked (new_paragraphs : list string) i :
  0 ≤ i < Z.of_nat (length new_paragraphs) →
  is_Some (Spec.emit new_paragraphs locked i).
Proof.
  intros Hi. unfold Spec.emit.
  destruct (Spec.lock_at locked i); [done|].
  rewrite (proj2 (Z.ltb_lt _ _)) by lia.
  apply lookup_lt_is_Some. lia.
Qed.

Lemma merged_in_range (new_text : string) locked :
  locked ≠ [] →
  Forall (λ l, well_formed_paragraph l.2) locked →
  Forall (λ l, 0 ≤ l.1 < Z.of_nat (length (split_into_paragraphs new_text))) locked →
  let merged := split_into_paragraphs (merge_paragraphs_with_locks new_text locked) in
  length merged = length (split_into_paragraphs new_text)
  ∧ ∀ k : nat,
      (k < length (split_into_paragraphs new_text))%nat →
      merged !! k =
      match locked_dict_of locked !! Z.of_nat k with
      | Some t => Some t
      | None => split_into_paragraphs new_text !! k
      end.
Proof.
  intros Hne Hl Hr merged. unfold merged. clear merged.
  rewrite split_merge, positions_in_range by done.
  set (new_paragraphs := split_into_paragraphs new_text) in *.
  assert (Hsome : Some <$> omap (Spec.emit new_paragraphs locked)
                    (seqZ 0 (Z.of_nat (length new_paragraphs)))
                  = Spec.emit new_paragraphs locked
                    <$> seqZ 0 (Z.of_nat (length new_paragraphs))).
  { apply omap_all_some, Forall_forall. intros i Hi.
    apply elem_of_seqZ in Hi. apply emit_in_range. lia. }
  split.
  - apply (f_equal length) in Hsome. rewrite !length_fmap, length_seqZ in Hsome. lia.
  - intros k Hk. apply (f_equal (λ l, l !! k)) in Hsome.
    rewrite !list_lookup_fmap, lookup_seqZ_lt in Hsome by lia.
    cbn in Hsome. rewrite Z.add_0_l in Hsome.
    destruct (omap _ _ !! k) as [p|] eqn:Hp; [|done].
    cbn in Hsome. injection Hsome as ->.
    unfold Spec.emit. rewrite locked_dict_lookup.
    destruct (Spec.lock_at locked (Z.of_nat k)); [done|].
    rewrite (proj2 (Z.ltb_lt _ _)) by lia. by rewrite Nat2Z.id.
Qed.

(** X14. A locked paragraph stays in its place. When every lock is a
    well-formed paragraph and points inside the new text, the merged text has
    as many paragraphs as the new text, and its paragraph [k] is the text
    locked at [k] (the last lock listed for [k]), or the new paragraph [k]
    where nothing is locked. *)
Theorem locked_paragraphs_stay_in_place (new_text : string) locked :
  locked ≠ [] →
  Forall (λ l, well_formed_paragraph l.2) locked →
  Forall (λ l, 0 ≤ l.1 < Z.of_nat (length (split_into_paragraphs new_text))) locked →
  let merged := split_into_paragraphs (merge_paragraphs_with_locks new_text locked) in
  length merged = length (split_into_paragraphs new_text)
  ∧ ∀ k : nat,
      (k < length (split_into_paragraphs new_text))%nat →
      merged !! k =
      match locked_dict_of locked !! Z.of_nat k with
      | Some t => Some t
      | None => split_into_paragraphs new_text !! k
      end.
Proof. apply merged_in_range. Qed.

(** X16. Merging is idempotent when every lock is a well-formed paragraph
    and points inside the new text: merging the merged text with the same
    locks changes nothing. *)
Theorem merge_is_idempotent (new_text : string) locked :
  Forall (λ l, well_formed_paragraph l.2) locked →
  Forall (λ l, 0 ≤ l.1 < Z.of_nat (length (split_into_paragraphs new_text))) locked →
  merge_paragraphs_with_locks (merge_paragraphs_with_locks new_text locked) locked
  = merge_paragraphs_with_locks new_text locked.
Proof.
  intros Hl Hr. destruct (decide (locked = [])) as [->|Hne]; [done|].
  destruct (merged_in_range new_text locked Hne Hl Hr) as [Hlen Hlook].
  rewrite (merge_with_locks_spec (merge_paragraphs_with_locks _ _)) by done.
  rewrite (merge_with_locks_spec new_text) at 2 by done.
  unfold Spec.merge. cbv zeta.
  set (merged := split_into_paragraphs (merge_paragraphs_with_locks new_text locked)) in *.
  set (new_paragraphs := split_into_paragraphs new_text) in *.
  rewrite !positions_in_range by (done || by rewrite Hlen).
  rewrite Hlen. f_equal. apply list_omap_ext.
  apply Forall2_same_length_lookup. split; [done|].
  intros k i i' Hi Hi'. assert (i' = i) as -> by congruence.
  apply lookup_seqZ in Hi as [-> Hk]. rewrite Z.add_0_l.
  unfold Spec.emit. destruct (Spec.lock_at locked (Z.of_nat k)) eqn:Hlock; [done|].
  rewrite Hlen. destruct (Z.of_nat k <? _); [|done].
  rewrite Nat2Z.id, Hlook by lia.
  by rewrite locked_dict_lookup, Hlock.
Qed.

Lemma locked_in_merged (new_text : string) locked i (t : string) :
  Forall (λ l, well_formed_paragraph l.2) locked →
  0 ≤ i →
  locked_dict_of locked !! i = Some t →
  t ∈ split_into_paragraphs (merge_paragraphs_with_locks new_text locked).
Proof.
  intros Hl Hi Ht. rewrite locked_dict_lookup in Ht.
  assert (Hne : locked ≠ []) by (by destruct locked).
  rewrite split_merge by done.
  apply list_elem_of_omap. exists i. split.
  - apply elem_of_seqZ. split; [lia|].
    assert (Hin : i ∈ locked.*1) by (apply lock_at_is_Some; eauto).
    destruct locked as [|[idx text] rest]; [done|].
    unfold Spec.positions.
    destruct (foldr_max_spec rest.*1 idx) as [_ Hub].
    specialize (Hub i Hin). lia.
  - unfold Spec.emit. by rewrite Ht.
Qed.

(** X15. A locked paragraph is never lost: whatever the new text, every text
    locked at an index that is not negative is a paragraph of the merged
    text. *)
Theorem locked_paragraphs_never_lost (new_text : string) locked i (t : string) :
  Forall (λ l, well_formed_paragraph l.2) locked →
  0 ≤ i →
  locked_dict_of locked !! i = Some t →
  t ∈ split_into_paragraphs (merge_paragraphs_with_locks new_text locked).
Proof. apply locked_in_merged. Qed.

End MergeFurther.

Lemma locked_paragraphs_stay_in_place_witness :
  let new_text := "Q0" +:+ ParagraphLock.blank_line +:+ "Q1" in
  let locked := [(1, "Locked P1")] in
  let merged :=
    ParagraphLock.split_into_paragraphs
      (ParagraphLock.merge_paragraphs_with_locks new_text locked) in
  length merged = length (ParagraphLock.split_into_paragraphs new_text)
  ∧ ∀ k : nat,
      (k < length (ParagraphLock.split_into_paragraphs new_text))%nat →
      merged !! k =
      match ParagraphLock.locked_dict_of locked !! Z.of_nat k with
      | Some t => Some t
      | None => ParagraphLock.split_into_paragraphs new_text !! k
      end.
Proof.
  refine (locked_paragraphs_stay_in_place
            ("Q0" +:+ ParagraphLock.blank_line +:+ "Q1") [(1, "Locked P1")] _ _ _).
  - done.
  - repeat constructor; done.
  - repeat constructor; vm_compute; done.
Defined.

Lemma merge_is_idempotent_witness :
  let new_text := "Q0" +:+ ParagraphLock.blank_line +:+ "Q1" in
  let locked := [(1, "Locked P1")] in
  ParagraphLock.merge_paragraphs_with_locks
    (ParagraphLock.merge_paragraphs_with_locks new_text locked) locked
  = ParagraphLock.merge_paragraphs_with_locks new_text locked.
Proof.
  refine (merge_is_idempotent
            ("Q0" +:+ ParagraphLock.blank_line +:+ "Q1") [(1, "Locked P1")] _ _).
  - repeat constructor; done.
  - repeat constructor; vm_compute; done.
Defined.

Lemma locked_paragraphs_never_lost_witness :
  "Locked P5" ∈ ParagraphLock.split_into_paragraphs
                  (ParagraphLock.merge_paragraphs_with_locks "Q0" [(5, "Locked P5")]).
Proof.
  refine (locked_paragraphs_never_lost "Q0" [(5, "Locked P5")] 5 "Locked P5" _ _ _).
  - repeat constructor; done.
  - lia.
  - reflexivity.
Defined.

(** ** The section model and the utilities agree ([models/section.py]) *)

Section ModelFacts.

Import ParagraphLock SectionModel.

Lemma split_into_paragraphs_unguarded (text : string) :
  split_into_paragraphs text =
  Py.strip <$> List.filter (λ p, negb (Py.is_empty (Py.strip p)))
                           (Py.split_pieces text blank_line).
Proof. unfold split_into_paragraphs. by destruct text. Qed.

Lemma locked_dict_of_model (lps : list LockedParagraph) :
  ∀ d : gmap Z string,
    foldl (λ d lp, <[index lp := text lp]> d) d lps =
    foldl (λ d '(idx, text), <[idx := text]> d) d ((λ lp, (index lp, text lp)) <$> lps).
Proof. induction lps as [|lp lps IH]; intros d; [done|]. cbn. apply IH. Qed.

(** X17. The method [GeneratedSection.merge_with_locked_paragraphs] and the
    utility [merge_paragraphs_with_locks] compute the same text from the same
    locks, although the method splits the new text without the guard for the
    empty text and counts the positions in another way. *)
Theorem model_merge_agrees_with_utility (lps : list LockedParagraph)
    (new_text : string) :
  merge_with_locked_paragraphs lps new_text =
  merge_paragraphs_with_locks new_text ((λ lp, (index lp, text lp)) <$> lps).
Proof.
  unfold merge_with_locked_paragraphs, merge_paragraphs_with_locks.
  destruct lps as [|lp lps]; [done|].
  rewrite !bool_decide_eq_false_2 by done. cbv zeta.
  rewrite <- split_into_paragraphs_unguarded.
  unfold locked_dict_of. rewrite <- locked_dict_of_model.
  do 2 f_equal. lia.
Qed.

Lemma split_ws_go_empty (s : string) :
  Py.rstrip s = "" → Py.split_ws_go "" s = [].
Proof.
  induction s as [|c s IH]; [done|].
  cbn [Py.rstrip]. cbv zeta.
  destruct (Py.isspace c) eqn:Hc; [|done].
  destruct (Py.rstrip s) eqn:Hr; [|done].
  intros _. cbn [Py.split_ws_go]. rewrite Hc. cbn. by apply IH.
Qed.

Lemma split_ws_go_rstrip (s : string) :
  ∀ cur, Py.split_ws_go cur (Py.rstrip s) = Py.split_ws_go cur s.
Proof.
  induction s as [|c s IH]; intros cur; [done|].
  cbn [Py.rstrip]. cbv zeta.
  destruct (Py.isspace c) eqn:Hc.
  - destruct (Py.is_empty (Py.rstrip s)) eqn:He.
    + cbn [andb Py.split_ws_go]. rewrite Hc.
      rewrite split_ws_go_empty by (by destruct (Py.rstrip s)).
      by rewrite app_nil_r.
    + cbn [andb Py.split_ws_go]. rewrite Hc. by rewrite IH.
  - cbn [andb Py.split_ws_go]. rewrite Hc. apply IH.
Qed.

Lemma split_ws_lstrip (s : string) :
  Py.split_ws (Py.lstrip s) = Py.split_ws s.
Proof.
  unfold Py.split_ws. induction s as [|c s IH]; [done|].
  cbn [Py.lstrip]. destruct (Py.isspace c) eqn:Hc; [|reflexivity].
  rewrite IH. cbn [Py.split_ws_go]. by rewrite Hc.
Qed.

Lemma split_ws_go_words (s : string) :
  ∀ cur, Forall (λ w, Py.is_empty w = false) (Py.split_ws_go cur s).
Proof.
  induction s as [|c s IH]; intros cur.
  - cbn. destruct (Py.is_empty cur) eqn:He; repeat constructor; done.
  - cbn [Py.split_ws_go]. destruct (Py.isspace c); [|apply IH].
    apply Forall_app. split; [|apply IH].
    destruct (Py.is_empty cur) eqn:He; repeat constructor; done.
Qed.

Lemma filter_all {A : Type} (f : A → bool) (l : list A) :
  Forall (λ x, f x = true) l → List.filter f l = l.
Proof.
  induction 1 as [|x l Hx _ IH]; [done|]. cbn. rewrite Hx. by f_equal.
Qed.

(** X18. The three word counters give the same number on every text: the
    [strip] and the filter of empty words in the utility, and the guard for
    the empty text in the utility and in the model, change nothing. *)
Theorem word_counters_agree (text : string) :
  ParagraphLock.count_words text = SectionGenerator.count_words text
  ∧ GeneratedSection.count_words text = SectionGenerator.count_words text.
Proof.
  unfold ParagraphLock.count_words, GeneratedSection.count_words,
    SectionGenerator.count_words.
  split; [|by destruct text].
  destruct text as [|c text]; [done|]. cbn [Py.is_empty].
  rewrite filter_all.
  - unfold Py.strip, Py.split_ws at 1. by rewrite split_ws_go_rstrip, split_ws_lstrip.
  - eapply Forall_impl; [apply split_ws_go_words|].
    intros w Hw. cbn. by rewrite Hw.
Qed.

Import GeneratedSection.

Lemma filter_filter_negb {A : Type} (f : A → bool) (l : list A) :
  List.filter f (List.filter (λ x, negb (f x)) l) = [].
Proof.
  induction l as [|x l IH]; [done|]. cbn [List.filter].
  destruct (f x) eqn:Hx; cbn [negb]; [exact IH|].
  cbn [List.filter]. by rewrite Hx.
Qed.

Lemma filter_idem {A : Type} (f : A → bool) (l : list A) :
  List.filter f (List.filter f l) = List.filter f l.
Proof.
  induction l as [|x l IH]; [done|]. cbn [List.filter].
  destruct (f x) eqn:Hx; [|exact IH].
  cbn [List.filter]. rewrite Hx. by f_equal.
Qed.

Lemma existsb_app_index (l1 l2 : list LockedParagraph) (j : Z) :
  is_paragraph_locked (l1 ++ l2) j = is_paragraph_locked l1 j || is_paragraph_locked l2 j.
Proof. apply existsb_app. Qed.

Lemma is_paragraph_locked_other (lps : list LockedParagraph) (i j : Z) :
  j ≠ i →
  is_paragraph_locked
    (List.filter (λ lp, negb (bool_decide (index lp = i))) lps) j
  = is_paragraph_locked lps j.
Proof.
  intros Hj. induction lps as [|lp lps IH]; [done|]. cbn [List.filter].
  destruct (decide (index lp = i)) as [Hi|Hi].
  - rewrite bool_decide_eq_true_2 by done. cbn.
    rewrite (bool_decide_eq_false_2 (index lp = j)) by congruence.
    exact IH.
  - rewrite bool_decide_eq_false_2 by done. cbn.
    unfold is_paragraph_locked in IH. by rewrite IH.
Qed.

(** X19. [lock_paragraph] leaves exactly one lock for the index, the new one,
    listed last; every lock of another index is kept; an index is locked
    afterwards when it was locked before or is the index just locked; and
    indices that were pairwise different stay so. *)
Theorem lock_paragraph_replaces_lock (lps : list LockedParagraph)
    (paragraph_index : Z) (new_text now : string) :
  let lps' := lock_paragraph lps paragraph_index new_text now in
  let lock := {| index := paragraph_index; text := new_text; locked_at := Some now |} in
  List.filter (λ lp, bool_decide (index lp = paragraph_index)) lps' = [lock]
  ∧ List.filter (λ lp, negb (bool_decide (index lp = paragraph_index))) lps'
    = List.filter (λ lp, negb (bool_decide (index lp = paragraph_index))) lps
  ∧ (∀ j, is_paragraph_locked lps' j
          = is_paragraph_locked lps j || bool_decide (j = paragraph_index))
  ∧ (NoDup (index <$> lps) → NoDup (index <$> lps')).
Proof.
  intros lps' lock. unfold lps', lock_paragraph. clear lps'.
  set (same := λ lp, bool_decide (index lp = paragraph_index)).
  pose proof (filter_filter_negb same lps) as Hsame.
  pose proof (filter_idem (λ lp, negb (same lp)) lps) as Hkeep.
  set (keep := λ lp, negb (same lp)) in *.
  change (λ lp, negb (bool_decide (index lp = paragraph_index))) with keep.
  split; [|split; [|split]].
  - rewrite List.filter_app, Hsame. cbn. unfold same. cbn.
    by rewrite bool_decide_eq_true_2.
  - rewrite List.filter_app, Hkeep. cbn. unfold keep at 2, same. cbn.
    rewrite bool_decide_eq_true_2 by done. cbn. by rewrite app_nil_r.
  - intros j. rewrite existsb_app_index. cbn. rewrite orb_false_r.
    destruct (decide (j = paragraph_index)) as [->|Hj].
    + rewrite !bool_decide_eq_true_2 by done. by rewrite !orb_true_r.
    + rewrite (bool_decide_eq_false_2 (paragraph_index = j)) by done.
      rewrite (bool_decide_eq_false_2 (j = paragraph_index)) by done.
      rewrite !orb_false_r. by apply is_paragraph_locked_other.
  - intros Hnd. rewrite fmap_app. apply NoDup_app. split; [|split].
    + clear Hsame Hkeep. induction lps as [|lp lps IH]; [constructor|].
      cbn in Hnd. apply NoDup_cons in Hnd as [Hlp Hnd].
      cbn [List.filter]. destruct (keep lp); [|by apply IH].
      cbn. apply NoDup_cons. split; [|by apply IH].
      intros Hin. apply Hlp.
      apply list_elem_of_fmap in Hin as (lp' & -> & Hin).
      apply list_elem_of_In, filter_In in Hin as [Hin _].
      apply list_elem_of_fmap. exists lp'. split; [done|]. by apply list_elem_of_In.
    + intros i Hi Hi'. cbn in Hi'. apply list_elem_of_singleton in Hi' as ->.
      apply list_elem_of_fmap in Hi as (lp' & Heq & Hin).
      apply list_elem_of_In, filter_In in Hin as [_ Hk].
      unfold keep, same in Hk. rewrite bool_decide_eq_true_2 in Hk by done. done.
    + cbn. apply NoDup_singleton.
Qed.

End ModelFacts.

(** ** Further facts about the handlers ([api/routes/sections.py]) *)

Section HandlerFacts.

Import Citations SectionsApi Notions.

Context {score : Type}.

Implicit Types (store : gmap string (gmap string (section_data score)))
  (request : UpdateSectionRequest) (data : section_data score).

(** The section as [update_section] leaves it. *)
Lemma update_section_found store (session_id name : string) request
    (sections : gmap string (section_data score)) data :
  store !! session_id = Some sections →
  sections !! name = Some data →
  let paragraphs := ParagraphLock.split_into_paragraphs (req_text request) in
  let valid_indices :=
    List.filter (λ idx, (0 <=? idx) && (idx <? Z.of_nat (length paragraphs)))
                (locked_paragraph_indices request) in
  ∃ locked_data,
    locked_data.*1 = valid_indices
    ∧ Forall (λ entry, paragraphs !! Z.to_nat entry.1 = Some entry.2) locked_data
    ∧ let data' :=
        {| section_id := section_id data;
           section_name := section_name data;
           text := req_text request;
           word_count := ParagraphLock.count_words (req_text request);
           citations := citations data;
           warning := warning data;
           locked_paragraphs := valid_indices;
           locked_paragraphs_data := Some locked_data;
           generated_at := generated_at data |} in
      update_section store session_id name request =
      (<[session_id := <[name := data']> sections]> store,
       match comprehension make_citation_response (citations data) with
       | Ret cs =>
           Ok {| resp_section_id := section_id data;
                 resp_section_name := section_name data;
                 resp_text := req_text request;
                 resp_word_count := ParagraphLock.count_words (req_text request);
                 resp_citations := cs;
                 resp_warning := warning data;
                 resp_locked_paragraphs := valid_indices;
                 resp_generated_at := generated_at data |}
       | _ => HTTPException 500
       end).
Proof.
  intros Hs Hn paragraphs valid_indices.
  destruct (locked_data_comprehension paragraphs valid_indices)
    as (locked_data & Hcomp & Hfst & Hall); [apply filter_in_range|].
  exists locked_data. split; [done|]. split; [done|].
  cbv zeta. unfold update_section. rewrite Hs, Hn.
  fold paragraphs. fold valid_indices. rewrite Hcomp. cbv zeta.
  cbn [citations section_id section_name text word_count warning generated_at].
  by destruct (comprehension make_citation_response (citations data)).
Qed.

Lemma update_section_missing store (session_id name : string) request :
  store !! session_id ≫= (.!! name) = None →
  update_section store session_id name request = (store, HTTPException 404).
Proof.
  intros Hnone. unfold update_section.
  destruct (store !! session_id) as [sections|]; [|done].
  cbn in Hnone. by rewrite Hnone.
Qed.

Lemma lookup_section_insert store (session_id name : string)
    (sections : gmap string (section_data score)) data :
  <[session_id := <[name := data]> sections]> store !! session_id ≫= (.!! name)
  = Some data.
Proof. rewrite lookup_insert_eq. cbn. by rewrite lookup_insert_eq. Qed.

Lemma lookup_section_insert_ne store (session_id name session_id' name' : string)
    (sections : gmap string (section_data score)) data :
  store !! session_id = Some sections →
  (session_id', name') ≠ (session_id, name) →
  <[session_id := <[name := data]> sections]> store !! session_id' ≫= (.!! name')
  = store !! session_id' ≫= (.!! name').
Proof.
  intros Hs Hne. destruct (decide (session_id' = session_id)) as [->|Hsid].
  - rewrite lookup_insert_eq, Hs. cbn. rewrite lookup_insert_ne; [done|congruence].
  - by rewrite lookup_insert_ne.
Qed.

(** X20. [update_section] touches the addressed section only: it answers 404
    exactly when the section is not in the store, and then leaves the store
    as it is; every other section of the store is left as it is in any case;
    and of the addressed section it keeps the identifier, the name, the
    citations, the warning and the time stamp. *)
Theorem update_section_touches_one_section store (session_id name : string) request :
  let result := update_section store session_id name request in
  (result.2 = HTTPException 404 ↔ store !! session_id ≫= (.!! name) = None)
  ∧ (result.2 = HTTPException 404 → result.1 = store)
  ∧ (∀ session_id' name',
       (session_id', name') ≠ (session_id, name) →
       result.1 !! session_id' ≫= (.!! name') = store !! session_id' ≫= (.!! name'))
  ∧ (∀ data, store !! session_id ≫= (.!! name) = Some data →
       ∃ data', result.1 !! session_id ≫= (.!! name) = Some data'
         ∧ section_id data' = section_id data
         ∧ section_name data' = section_name data
         ∧ citations data' = citations data
         ∧ warning data' = warning data
         ∧ generated_at data' = generated_at data).
Proof.
  intros result. unfold result. clear result.
  destruct (store !! session_id ≫= (.!! name)) as [data|] eqn:Hlook.
  - destruct (store !! session_id) as [sections|] eqn:Hs; [|done].
    cbn in Hlook.
    destruct (update_section_found store session_id name request sections data Hs Hlook)
      as (locked_data & _ & _ & ->).
    cbn [fst snd]. split; [|split; [|split]].
    + split; [|done].
      by destruct (comprehension make_citation_response (citations data)).
    + by destruct (comprehension make_citation_response (citations data)).
    + intros session_id' name' Hne. by apply lookup_section_insert_ne.
    + intros data0 [= <-]. eexists. split; [apply lookup_section_insert|].
      by repeat split.
  - rewrite update_section_missing by done. cbn [fst snd].
    split; [done|]. split; [done|]. split; [done|]. intros data0 [=].
Qed.

(** X21. What [update_section] answers is what [get_section] answers next:
    reading the section from the store that the update leaves gives the
    same status code, and a response on the one side is the same response on
    the other. The detail text of an error answer is not part of the
    comparison: the two handlers word their 500 differently. *)
Theorem get_section_after_update store (session_id name : string) request :
  let updated := update_section store session_id name request in
  let read := get_section updated.1 session_id name in
  status_code read = status_code updated.2
  ∧ (∀ response, updated.2 = Ok response ↔ read = Ok response).
Proof.
  intros updated read. unfold read, updated. clear read updated.
  destruct (store !! session_id ≫= (.!! name)) as [data|] eqn:Hlook.
  - destruct (store !! session_id) as [sections|] eqn:Hs; [|done].
    cbn in Hlook.
    destruct (update_section_found store session_id name request sections data Hs Hlook)
      as (locked_data & _ & _ & ->).
    cbn [fst snd]. unfold get_section.
    rewrite lookup_insert_eq, lookup_insert_eq.
    cbn [citations section_id section_name text word_count warning generated_at
         locked_paragraphs].
    by destruct (comprehension make_citation_response (citations data)).
  - rewrite update_section_missing by done. cbn [fst snd].
    unfold get_section. destruct (store !! session_id) as [sections|]; [|done].
    cbn in Hlook. by rewrite Hlook.
Qed.

Lemma locked_data_determined (paragraphs : list string) (l1 l2 : list (Z * string)) :
  l1.*1 = l2.*1 →
  Forall (λ entry, paragraphs !! Z.to_nat entry.1 = Some entry.2) l1 →
  Forall (λ entry, paragraphs !! Z.to_nat entry.1 = Some entry.2) l2 →
  l1 = l2.
Proof.
  intros Hf H1. revert l2 Hf.
  induction H1 as [|[i t] l Ht _ IH]; intros [|[i' t'] l'] Hf H2; try done.
  cbn in Hf. injection Hf as -> Hf.
  apply Forall_cons in H2 as [Ht' H2]. cbn in Ht, Ht'.
  f_equal; [congruence|]. by apply IH.
Qed.

(** X22. [update_section] is idempotent: the same request a second time
    leaves the same store and gives the same response. *)
Theorem update_section_is_idempotent store (session_id name : string) request :
  update_section (update_section store session_id name request).1
                 session_id name request
  = update_section store session_id name request.
Proof.
  destruct (store !! session_id ≫= (.!! name)) as [data|] eqn:Hlook.
  - destruct (store !! session_id) as [sections|] eqn:Hs; [|done].
    cbn in Hlook.
    destruct (update_section_found store session_id name request sections data Hs Hlook)
      as (locked_data & Hfst & Hall & Heq).
    cbv zeta in Heq. rewrite Heq. cbn [fst].
    set (data' := {| section_id := section_id data; text := req_text request |}) in *.
    destruct (update_section_found
                (<[session_id := <[name := data']> sections]> store)
                session_id name request (<[name := data']> sections) data')
      as (locked_data' & Hfst' & Hall' & Heq');
      [apply lookup_insert_eq | apply lookup_insert_eq |].
    cbv zeta in Heq'. rewrite Heq'.
    rewrite (locked_data_determined _ locked_data' locked_data)
      by (done || congruence).
    cbn [section_id section_name citations warning generated_at].
    by rewrite !insert_insert_eq.
  - by rewrite !update_section_missing by (by rewrite ?update_section_missing).
Qed.

Lemma regenerate_section_found store (session_id name : string)
    (sections : gmap string (section_data score)) data
    (result : generation_result score) (now : string) :
  store !! session_id = Some sections →
  sections !! name = Some data →
  let merged_text :=
    match locked_paragraphs_data data with
    | Some (lp :: lps) =>
        ParagraphLock.merge_paragraphs_with_locks (generated_text result) (lp :: lps)
    | _ => generated_text result
    end in
  let data' :=
    {| section_id := section_id data;
       section_name := section_name data;
       text := merged_text;
       word_count := ParagraphLock.count_words merged_text;
       citations := citations_used result;
       warning := result_warning result;
       locked_paragraphs := locked_paragraphs data;
       locked_paragraphs_data := locked_paragraphs_data data;
       generated_at := now |} in
  regenerate_section store true session_id name (Some result) now =
  (<[session_id := <[name := data']> sections]> store,
   match comprehension make_citation_response (citations_used result) with
   | Ret cs =>
       Ok {| resp_section_id := section_id data;
             resp_section_name := section_name data;
             resp_text := merged_text;
             resp_word_count := ParagraphLock.count_words merged_text;
             resp_citations := cs;
             resp_warning := result_warning result;
             resp_locked_paragraphs := locked_paragraphs data;
             resp_generated_at := now |}
   | _ => HTTPException 500
   end).
Proof.
  intros Hs Hn. cbv zeta. unfold regenerate_section. cbn [negb].
  rewrite Hs, Hn. cbv zeta.
  cbn [citations section_id section_name text word_count warning generated_at].
  by destruct (comprehension make_citation_response (citations_used result)).
Qed.

Lemma locked_dict_of_paragraphs (paragraphs : list string)
    (locked : list (Z * string)) (idx : Z) (p : string) :
  Forall (λ entry, paragraphs !! Z.to_nat entry.1 = Some entry.2) locked →
  idx ∈ locked.*1 →
  paragraphs !! Z.to_nat idx = Some p →
  ParagraphLock.locked_dict_of locked !! idx = Some p.
Proof.
  intros Hall Hin Hp. rewrite locked_dict_lookup.
  apply lock_at_is_Some in Hin as [t Ht]. rewrite Ht.
  apply lock_at_elem in Ht.
  apply (proj1 (Forall_forall _ _) Hall) in Ht. cbn in Ht. congruence.
Qed.

(** X23. Regeneration keeps the locked paragraphs. After [update_section] has
    stored the locks of a request, [regenerate_section] with any newly
    generated text leaves a section whose text still holds every locked
    paragraph of the request; and when the new text has at least as many
    paragraphs as the text of the request, every locked paragraph is at its
    own index. The lock list is kept, and the response carries the text that
    is stored. *)
Theorem regenerate_keeps_locked_paragraphs store (session_id name : string)
    request (result : generation_result score) (now : string) data :
  store !! session_id ≫= (.!! name) = Some data →
  let paragraphs := ParagraphLock.split_into_paragraphs (req_text request) in
  let updated := update_section store session_id name request in
  let regenerated :=
    regenerate_section updated.1 true session_id name (Some result) now in
  ∃ data',
    regenerated.1 !! session_id ≫= (.!! name) = Some data'
    ∧ (∀ response, updated.2 = Ok response →
         locked_paragraphs data' = resp_locked_paragraphs response)
    ∧ (∀ response, regenerated.2 = Ok response → resp_text response = text data')
    ∧ (∀ idx p,
         idx ∈ locked_paragraphs data' →
         paragraphs !! Z.to_nat idx = Some p →
         p ∈ ParagraphLock.split_into_paragraphs (text data'))
    ∧ ((length paragraphs
        ≤ length (ParagraphLock.split_into_paragraphs (generated_text result)))%nat →
       ∀ idx p,
         idx ∈ locked_paragraphs data' →
         paragraphs !! Z.to_nat idx = Some p →
         ParagraphLock.split_into_paragraphs (text data') !! Z.to_nat idx = Some p).
Proof.
  intros Hlook paragraphs updated regenerated.
  unfold regenerated, updated. clear regenerated updated.
  destruct (store !! session_id) as [sections|] eqn:Hs; [|done].
  cbn in Hlook.
  destruct (update_section_found store session_id name request sections data Hs Hlook)
    as (locked_data & Hfst & Hall & Heq).
  cbv zeta in Heq. rewrite Heq. cbn [fst snd]. clear Heq.
  fold paragraphs in Hfst, Hall.
  set (valid_indices := List.filter _ (locked_paragraph_indices request)) in *.
  erewrite regenerate_section_found;
    [|apply lookup_insert_eq|apply lookup_insert_eq].
  cbn [fst snd locked_paragraphs locked_paragraphs_data section_id section_name].
  eexists. split; [apply lookup_section_insert|].
  cbn [locked_paragraphs text].
  assert (Hrange : Forall (λ idx, 0 ≤ idx < Z.of_nat (length paragraphs)) valid_indices)
    by apply filter_in_range.
  assert (Hwf : Forall (λ l, well_formed_paragraph l.2) locked_data).
  { eapply Forall_impl; [exact Hall|]. intros [i t] Ht. cbn in *.
    apply (Forall_lookup_1 _ _ _ _ (paragraphs_well_formed (req_text request)) Ht). }
  split; [|split; [|split]].
  - intros response.
    destruct (comprehension make_citation_response (citations data));
      intros [= <-] || intros [=]; done.
  - intros response.
    destruct (comprehension make_citation_response (citations_used result));
      intros [= <-] || intros [=]; done.
  - intros idx p Hidx Hp.
    destruct locked_data as [|lp lps].
    { cbn in Hfst. rewrite <- Hfst in Hidx. by apply elem_of_nil in Hidx. }
    apply (locked_in_merged _ _ idx); [done| |].
    + apply (proj1 (Forall_forall _ _) Hrange) in Hidx. lia.
    + eapply locked_dict_of_paragraphs; [exact Hall| |exact Hp]. by rewrite Hfst.
  - intros Hlen idx p Hidx Hp.
    destruct locked_data as [|lp lps].
    { cbn in Hfst. rewrite <- Hfst in Hidx. by apply elem_of_nil in Hidx. }
    pose proof (proj1 (Forall_forall _ _) Hrange _ Hidx) as Hi. cbn beta in Hi.
    destruct (merged_in_range (generated_text result) (lp :: lps)) as [_ Hk];
      [done|done| |].
    { apply Forall_forall. intros [i t] Hin.
      assert (Hi' : i ∈ valid_indices).
      { rewrite <- Hfst. apply list_elem_of_fmap. by exists (i, t). }
      apply (proj1 (Forall_forall _ _) Hrange) in Hi'. cbn. lia. }
    rewrite Hk by lia. rewrite Z2Nat.id by lia.
    erewrite locked_dict_of_paragraphs; [done|exact Hall| |exact Hp].
    by rewrite Hfst.
Qed.

(** X24. What [regenerate_section] answers for a known session, when
    retrieval and generation succeed, is what [get_section] answers next: the
    same status code, and a response on the one side is the same response on
    the other. The detail text of an error answer is not part of the
    comparison: the two handlers word their 500 differently. *)
Theorem get_section_after_regenerate store (session_id name : string)
    (result : generation_result score) (now : string) :
  let regenerated :=
    regenerate_section store true session_id name (Some result) now in
  let read := get_section regenerated.1 session_id name in
  status_code read = status_code regenerated.2
  ∧ (∀ response, regenerated.2 = Ok response ↔ read = Ok response).
Proof.
  intros regenerated read. unfold read, regenerated. clear read regenerated.
  destruct (store !! session_id) as [sections|] eqn:Hs.
  - destruct (sections !! name) as [data|] eqn:Hn.
    + erewrite regenerate_section_found by done. cbn [fst snd].
      unfold get_section. rewrite lookup_insert_eq, lookup_insert_eq.
      cbn [citations section_id section_name text word_count warning generated_at
           locked_paragraphs].
      by destruct (comprehension make_citation_response (citations_used result)).
    + assert (regenerate_section store true session_id name (Some result) now
              = (store, HTTPException 404)) as ->.
      { unfold regenerate_section. cbn [negb]. by rewrite Hs, Hn. }
      cbn [fst snd]. unfold get_section. by rewrite Hs, Hn.
  - assert (regenerate_section store true session_id name (Some result) now
            = (store, HTTPException 404)) as ->.
    { unfold regenerate_section. cbn [negb]. by rewrite Hs. }
    cbn [fst snd]. unfold get_section. by rewrite Hs.
Qed.

End HandlerFacts.

Lemma regenerate_keeps_locked_paragraphs_witness :
  let result :=
    {| SectionsApi.generated_text :=
         "N0" +:+ ParagraphLock.blank_line +:+ "N1"
         +:+ ParagraphLock.blank_line +:+ "N2";
       SectionsApi.citations_used := [Examples.report_page_3];
       SectionsApi.result_warning := None |} in
  let paragraphs :=
    ParagraphLock.split_into_paragraphs (SectionsApi.req_text Examples.request) in
  let updated :=
    SectionsApi.update_section Examples.store "session-1" "Summary" Examples.request in
  let regenerated :=
    SectionsApi.regenerate_section updated.1 true "session-1" "Summary"
      (Some result) "2024-02-02T00:00:00" in
  ∃ data',
    regenerated.1 !! "session-1" ≫= (.!! "Summary") = Some data'
    ∧ (∀ response, updated.2 = SectionsApi.Ok response →
         SectionsApi.locked_paragraphs data'
         = SectionsApi.resp_locked_paragraphs response)
    ∧ (∀ response, regenerated.2 = SectionsApi.Ok response →
         SectionsApi.resp_text response = SectionsApi.text data')
    ∧ (∀ idx p,
         idx ∈ SectionsApi.locked_paragraphs data' →
         paragraphs !! Z.to_nat idx = Some p →
         p ∈ ParagraphLock.split_into_paragraphs (SectionsApi.text data'))
    ∧ ((length paragraphs
        ≤ length (ParagraphLock.split_into_paragraphs
                    (SectionsApi.generated_text result)))%nat →
       ∀ idx p,
         idx ∈ SectionsApi.locked_paragraphs data' →
         paragraphs !! Z.to_nat idx = Some p →
         ParagraphLock.split_into_paragraphs (SectionsApi.text data')
           !! Z.to_nat idx = Some p).
Proof.
  refine (regenerate_keeps_locked_paragraphs Examples.store "session-1" "Summary"
            Examples.request _ "2024-02-02T00:00:00" Examples.stored _).
  reflexivity.
Defined.

(** ** The indexing service ([services/indexing_service.py]) *)

Section IndexingFacts.

Import Chunking IndexingService Notions.

Variable text_splitter : RecursiveCharacterTextSplitter.
Variable parse_file : string → exn + list page.
Variable add_documents : add_documents_call → option exn.

(** Every splitter made by [create_text_splitter] has the default
    separators. *)
Hypothesis default_splitter : separators text_splitter = default_separators.

Lemma empty_separator_listed : "" ∈ separators text_splitter.
Proof. rewrite default_splitter. unfold default_separators. set_solver. Qed.

Lemma foldl_append_chunk (file_path document_id document_title : string)
    (page_number : Z) (page_chunks : list string) :
  ∀ st,
    let st' :=
      foldl (append_chunk file_path document_id document_title page_number)
            st page_chunks in
    let kept := List.filter not_blank page_chunks in
    texts st' = texts st ++ kept
    ∧ metadatas st' =
      metadatas st ++
      imap (λ k _, {| md_document_id := document_id;
                      md_document_title := document_title;
                      md_page_number := page_number;
                      md_chunk_index := chunk_index st + Z.of_nat k;
                      md_source_file := file_path |}) kept
    ∧ chunk_index st' = chunk_index st + Z.of_nat (length kept).
Proof.
  induction page_chunks as [|chunk_text rest IH]; intros st.
  - cbn. rewrite !app_nil_r. repeat split. lia.
  - cbn [foldl List.filter]. cbv zeta in *.
    destruct (IH (append_chunk file_path document_id document_title page_number
                    st chunk_text)) as (Ht & Hm & Hc).
    rewrite Ht, Hm, Hc. clear Ht Hm Hc IH.
    unfold append_chunk, not_blank.
    destruct (Py.is_empty (Py.strip chunk_text)); cbn [negb]; [done|].
    cbn [texts metadatas chunk_index imap length].
    rewrite <- !app_assoc. cbn [app].
    split; [done|]. split; [|lia].
    f_equal. f_equal.
    + f_equal. lia.
    + apply imap_ext. intros k x _. cbn. f_equal. lia.
Qed.

Lemma chunk_pages_spec (file_path document_id document_title : string)
    (pages : list page) :
  ∀ st st',
    chunk_pages text_splitter file_path document_id document_title st pages = Ret st' →
    ∃ chunks_per_page,
      Forall2 (λ page page_chunks,
                 split_text text_splitter (page_text page) = Ret page_chunks)
              pages chunks_per_page
      ∧ let kept := kept_chunks pages chunks_per_page in
        texts st' = texts st ++ kept.*2
        ∧ metadatas st' =
          metadatas st ++
          imap (λ k entry, {| md_document_id := document_id;
                              md_document_title := document_title;
                              md_page_number := entry.1;
                              md_chunk_index := chunk_index st + Z.of_nat k;
                              md_source_file := file_path |}) kept.
Proof.
  induction pages as [|page rest IH]; intros st st' Hrun.
  - cbn in Hrun. injection Hrun as <-. exists []. split; [constructor|].
    cbn. by rewrite !app_nil_r.
  - cbn [chunk_pages] in Hrun.
    destruct (split_text text_splitter (page_text page)) as [page_chunks| |] eqn:Hsplit;
      [|done|done].
    cbn in Hrun. apply IH in Hrun as (chunks_per_page & Hall & Ht & Hm).
    destruct (foldl_append_chunk file_path document_id document_title
                (page_number page) page_chunks st) as (Ht1 & Hm1 & Hc1).
    cbv zeta in *. rewrite Ht1 in Ht. rewrite Hm1, Hc1 in Hm. clear Ht1 Hm1 Hc1.
    exists (page_chunks :: chunks_per_page). split; [by constructor|].
    unfold kept_chunks in *. cbn [zip_with concat].
    rewrite Ht, Hm, fmap_app, imap_app, <- !app_assoc, <- list_fmap_compose.
    rewrite imap_fmap, length_fmap.
    split.
    + do 2 f_equal. by rewrite <- (list_fmap_id (List.filter _ _)) at 1.
    + do 2 f_equal. apply imap_ext. intros k x _. cbn. f_equal. lia.
Qed.

Lemma imap_index_seqZ {A : Type} (l : list A) :
  ∀ c : Z, imap (λ k _, c + Z.of_nat k) l = seqZ c (Z.of_nat (length l)).
Proof.
  induction l as [|x l IH]; intros c; [done|].
  cbn [imap length]. rewrite Nat2Z.inj_succ, seqZ_cons by lia.
  f_equal; [lia|]. rewrite Z.pred_succ, <- IH.
  apply imap_ext. intros k y _. cbn. lia.
Qed.

Lemma kept_chunks_not_blank (pages : list page) :
  ∀ chunks_per_page,
    Forall (λ entry, not_blank entry.2 = true) (kept_chunks pages chunks_per_page).
Proof.
  unfold kept_chunks. induction pages as [|page rest IH];
    intros [|page_chunks chunks_per_page]; try constructor.
  cbn [zip_with concat]. apply Forall_app. split; [|apply IH].
  apply Forall_fmap, Forall_forall. intros chunk_text Hin.
  by apply list_elem_of_In, filter_In in Hin as [_ Hin].
Qed.

Lemma chunk_pages_comes_back (file_path document_id document_title : string)
    (pages : list page) :
  ∀ st,
    returns_or_raises
      (chunk_pages text_splitter file_path document_id document_title st pages).
Proof.
  induction pages as [|page rest IH]; intros st; [done|].
  cbn [chunk_pages].
  pose proof (split_text_total text_splitter (page_text page) empty_separator_listed)
    as Hback.
  destruct (split_text text_splitter (page_text page)); [apply IH|done|done].
Qed.

(** What [index_document] answers, case by case. *)
Lemma index_document_answers (session_id file_path document_id document_title : string) :
  ∃ call result,
    index_document text_splitter parse_file add_documents
      session_id file_path document_id document_title = Ret (call, result)
    ∧ IndexingService.document_id result = document_id
    ∧ (success result = true →
       ∃ c, call = Some c
            ∧ add_documents c = None
            ∧ chunk_count result = Z.of_nat (length (call_texts c))
            ∧ 0 < chunk_count result
            ∧ IndexingService.document_title result = Some document_title
            ∧ error result = None)
    ∧ (success result = false →
       chunk_count result = 0
       ∧ is_Some (error result)
       ∧ IndexingService.document_title result = None).
Proof.
  unfold index_document.
  destruct (parse_file file_path) as [e|pages].
  { do 2 eexists. split; [done|]. cbn. by repeat split. }
  case_bool_decide.
  { do 2 eexists. split; [done|]. cbn. by repeat split. }
  pose proof (chunk_pages_comes_back file_path document_id document_title pages
                {| texts := []; metadatas := []; chunk_index := 0 |}) as Hback.
  destruct (chunk_pages _ _ _ _ _ _) as [st|e|]; [| |done].
  - case_bool_decide as Ht.
    { do 2 eexists. split; [done|]. cbn. by repeat split. }
    destruct (add_documents _) as [e|] eqn:Hadd.
    + do 2 eexists. split; [done|]. cbn. by repeat split.
    + do 2 eexists. split; [done|]. cbn. split; [done|]. split; [|done].
      intros _. eexists. split; [done|]. cbn. repeat split; try done.
      destruct (texts st); [done|]. cbn [length]. lia.
  - do 2 eexists. split; [done|]. cbn. by repeat split.
Qed.

(** X25. [index_document] always answers: it ends and never raises, whatever
    the parser, the splitter and the vector store do. A success says that
    the vector store took the chunks, counts them (at least one) and names
    the document; a failure counts no chunk and carries an error text. *)
Theorem index_document_always_answers
    (session_id file_path document_id document_title : string) :
  ∃ call result,
    index_document text_splitter parse_file add_documents
      session_id file_path document_id document_title = Ret (call, result)
    ∧ IndexingService.document_id result = document_id
    ∧ (success result = true →
       ∃ c, call = Some c
            ∧ add_documents c = None
            ∧ chunk_count result = Z.of_nat (length (call_texts c))
            ∧ 0 < chunk_count result
            ∧ IndexingService.document_title result = Some document_title
            ∧ error result = None)
    ∧ (success result = false →
       chunk_count result = 0
       ∧ is_Some (error result)
       ∧ IndexingService.document_title result = None).
Proof. apply index_document_answers. Qed.

(** X26. What [index_document] hands to the vector store: the chunks of the
    pages that are not blank, in the order of the pages, never none, with as
    many metadata entries as texts; the entry of the [k]-th text carries the
    document, the number of the page of the text, and the chunk index [k],
    so the chunk indices are 0, 1, 2, ... without gap. *)
Theorem index_document_hands_over_chunks
    (session_id file_path document_id document_title : string)
    (c : add_documents_call) (result : indexing_result) :
  index_document text_splitter parse_file add_documents
    session_id file_path document_id document_title = Ret (Some c, result) →
  ∃ pages chunks_per_page,
    parse_file file_path = inr pages
    ∧ Forall2 (λ page page_chunks,
                 split_text text_splitter (page_text page) = Ret page_chunks)
              pages chunks_per_page
    ∧ call_session_id c = session_id
    ∧ call_texts c = (kept_chunks pages chunks_per_page).*2
    ∧ call_metadatas c =
      imap (λ k entry, {| md_document_id := document_id;
                          md_document_title := document_title;
                          md_page_number := entry.1;
                          md_chunk_index := Z.of_nat k;
                          md_source_file := file_path |})
           (kept_chunks pages chunks_per_page)
    ∧ call_texts c ≠ []
    ∧ length (call_texts c) = length (call_metadatas c)
    ∧ md_chunk_index <$> call_metadatas c
      = seqZ 0 (Z.of_nat (length (call_texts c)))
    ∧ Forall (λ chunk_text, Py.strip chunk_text ≠ "") (call_texts c).
Proof.
  unfold index_document.
  destruct (parse_file file_path) as [e|pages]; [done|].
  case_bool_decide; [done|].
  destruct (chunk_pages _ _ _ _ _ _) as [st|e|] eqn:Hrun; [|done|done].
  case_bool_decide as Hne; [done|].
  apply chunk_pages_spec in Hrun as (chunks_per_page & Hall & Ht & Hm).
  cbn [texts metadatas chunk_index app] in Ht, Hm.
  assert (Hcall : ∀ r, Ret (Some {| call_session_id := session_id;
                                    call_texts := texts st;
                                    call_metadatas := metadatas st |}, r)
                       = Ret (Some c, result) →
                       c = {| call_session_id := session_id;
                              call_texts := texts st;
                              call_metadatas := metadatas st |}).
  { by intros r [= <- _]. }
  intros Hc. assert (c = {| call_session_id := session_id;
                            call_texts := texts st;
                            call_metadatas := metadatas st |}) as ->.
  { cbv zeta in Hc. destruct (add_documents _); by eapply Hcall. }
  clear Hc Hcall. cbn [call_session_id call_texts call_metadatas].
  exists pages, chunks_per_page. split; [done|]. split; [done|]. split; [done|].
  split; [done|].
  split. { rewrite Hm. apply imap_ext. intros k x _. cbn. f_equal. }
  split; [done|].
  split. { by rewrite Ht, Hm, length_fmap, length_imap. }
  split.
  { rewrite Hm, Ht, fmap_imap, length_fmap.
    rewrite <- (imap_index_seqZ (kept_chunks pages chunks_per_page) 0).
    apply imap_ext. by intros k x _. }
  rewrite Ht. apply Forall_fmap.
  eapply Forall_impl; [apply kept_chunks_not_blank|].
  intros [pn chunk_text]. unfold not_blank. cbn [snd compose].
  by destruct (Py.strip chunk_text).
Qed.

Lemma split_text_blob (text : string) :
  text ≠ "" →
  chunk_size text_splitter < count_tokens text_splitter text →
  separator_free text →
  split_text text_splitter text = Raise empty_separator_error.
Proof.
  intros Hne Hbig (H1 & H2 & H3 & H4).
  unfold split_text. cbn [split_text_fuel].
  destruct text as [|a text]; [done|]. cbn [Py.is_empty].
  destruct (Z.leb_spec (count_tokens text_splitter (String a text))
                       (chunk_size text_splitter)); [lia|].
  rewrite default_splitter. by apply try_separators_blob.
Qed.

Lemma split_text_small (text : string) :
  text = "" ∨ count_tokens text_splitter text ≤ chunk_size text_splitter →
  ∃ chunks, split_text text_splitter text = Ret chunks.
Proof.
  intros Hsmall. unfold split_text. cbn [split_text_fuel].
  destruct (Py.is_empty text) eqn:He; [by eexists|].
  destruct Hsmall as [-> | Hsmall]; [done|].
  destruct (Z.leb_spec (count_tokens text_splitter text) (chunk_size text_splitter));
    [by eexists | lia].
Qed.

(** The loop over the pages does not get past such a page. *)
Lemma chunk_pages_blob (file_path document_id document_title : string)
    (before after : list page) (page : page) :
  page_text page ≠ "" →
  chunk_size text_splitter < count_tokens text_splitter (page_text page) →
  separator_free (page_text page) →
  ∀ st,
    (∃ e, chunk_pages text_splitter file_path document_id document_title st
            (before ++ page :: after) = Raise e)
    ∧ (Forall (λ earlier,
                 page_text earlier = ""
                 ∨ count_tokens text_splitter (page_text earlier)
                   ≤ chunk_size text_splitter) before →
       chunk_pages text_splitter file_path document_id document_title st
         (before ++ page :: after) = Raise empty_separator_error).
Proof.
  intros Hne Hbig Hfree.
  induction before as [|first rest IH]; intros st; cbn [app chunk_pages].
  - rewrite split_text_blob by done. split; [by eexists | done].
  - pose proof (split_text_total text_splitter (page_text first) empty_separator_listed)
      as Hback.
    split.
    + destruct (split_text text_splitter (page_text first)) as [chunks|e|];
        [|by eexists|done].
      cbn. apply IH.
    + intros Hsmall. apply Forall_cons in Hsmall as [Hfirst Hsmall].
      destruct (split_text_small _ Hfirst) as [chunks ->]. cbn. by apply IH.
Qed.

(** X27. One page fails the whole document: when some page of a document is
    a text over the budget without any of the four real separators,
    [index_document] answers with a failure and hands nothing of the
    document to the vector store, whatever the other pages are; and when
    every page before it is empty or within the budget, the error text is the
    one of [text.split] on the empty separator. (The hypotheses take the
    token counts of the pages they name as given.) *)
Theorem one_page_fails_the_document
    (session_id file_path document_id document_title : string)
    (before after : list page) (page : page) :
  parse_file file_path = inr (before ++ page :: after) →
  page_text page ≠ "" →
  chunk_size text_splitter < count_tokens text_splitter (page_text page) →
  separator_free (page_text page) →
  (∃ error,
     index_document text_splitter parse_file add_documents
       session_id file_path document_id document_title
     = Ret (None, failure document_id error))
  ∧ (Forall (λ earlier,
               page_text earlier = ""
               ∨ count_tokens text_splitter (page_text earlier)
                 ≤ chunk_size text_splitter) before →
     index_document text_splitter parse_file add_documents
       session_id file_path document_id document_title
     = Ret (None, failure document_id "empty separator")).
Proof.
  intros Hparse Hne Hbig Hfree. unfold index_document. rewrite Hparse.
  rewrite bool_decide_eq_false_2 by (by destruct before).
  destruct (chunk_pages_blob file_path document_id document_title before after page
              Hne Hbig Hfree {| texts := []; metadatas := []; chunk_index := 0 |})
    as [[e He] Hsmall].
  split.
  - rewrite He. by eexists.
  - intros Hbefore. by rewrite (Hsmall Hbefore).
Qed.

Lemma index_documents_loop_spec (session_id : string) (documents : list document) :
  ∀ acc,
    ∃ new_results,
      index_documents_loop text_splitter parse_file add_documents session_id acc documents
      = Ret {| total_documents := total_documents acc;
               successful :=
                 successful acc
                 + Z.of_nat (length (List.filter success new_results));
               failed :=
                 failed acc
                 + Z.of_nat (length (List.filter (λ r, negb (success r)) new_results));
               total_chunks :=
                 total_chunks acc + foldr (λ r n, chunk_count r + n) 0 new_results;
               results := results acc ++ new_results |}
      ∧ Forall2 (λ doc r,
                   ∃ call,
                     index_document text_splitter parse_file add_documents session_id
                       (doc_file_path doc) (doc_document_id doc) (doc_document_title doc)
                     = Ret (call, r))
                documents new_results.
Proof.
  induction documents as [|doc rest IH]; intros acc.
  - exists []. split; [|constructor]. cbn. rewrite !Z.add_0_r, app_nil_r.
    by destruct acc.
  - cbn [index_documents_loop].
    destruct (index_document_answers session_id (doc_file_path doc)
                (doc_document_id doc) (doc_document_title doc))
      as (call & result & Hrun & _ & Hok & Hfail).
    rewrite Hrun. cbn.
    destruct (success result) eqn:Hs.
    + destruct (IH {| total_documents := total_documents acc;
                      successful := successful acc + 1;
                      failed := failed acc;
                      total_chunks := total_chunks acc + chunk_count result;
                      results := results acc ++ [result] |})
        as (new_results & -> & Hall).
      exists (result :: new_results). split; [|constructor; eauto].
      cbn [total_documents successful failed total_chunks results List.filter foldr].
      rewrite Hs. cbn [negb length]. rewrite <- app_assoc. cbn [app].
      f_equal. f_equal; lia.
    + destruct (IH {| total_documents := total_documents acc;
                      successful := successful acc;
                      failed := failed acc + 1;
                      total_chunks := total_chunks acc;
                      results := results acc ++ [result] |})
        as (new_results & -> & Hall).
      exists (result :: new_results). split; [|constructor; eauto].
      cbn [total_documents successful failed total_chunks results List.filter foldr].
      rewrite Hs. cbn [negb length]. rewrite <- app_assoc. cbn [app].
      destruct (Hfail eq_refl) as (-> & _). f_equal. f_equal; lia.
Qed.

(** X28. The counts of [index_multiple_documents] add up: it always answers,
    with one result for each document, in order, each being what
    [index_document] answers for that document; [successful] and [failed]
    count the results by their [success] flag and sum to [total_documents],
    the number of documents; [total_chunks] is the sum of the chunk counts of
    the results. *)
Theorem index_multiple_documents_counts (session_id : string)
    (documents : list document) :
  ∃ summary,
    index_multiple_documents text_splitter parse_file add_documents session_id documents
    = Ret summary
    ∧ Forall2 (λ doc r,
                 ∃ call,
                   index_document text_splitter parse_file add_documents session_id
                     (doc_file_path doc) (doc_document_id doc) (doc_document_title doc)
                   = Ret (call, r))
              documents (results summary)
    ∧ total_documents summary = Z.of_nat (length documents)
    ∧ successful summary = Z.of_nat (length (List.filter success (results summary)))
    ∧ failed summary
      = Z.of_nat (length (List.filter (λ r, negb (success r)) (results summary)))
    ∧ successful summary + failed summary = total_documents summary
    ∧ total_chunks summary = foldr (λ r n, chunk_count r + n) 0 (results summary).
Proof.
  unfold index_multiple_documents.
  destruct (index_documents_loop_spec session_id documents
              {| total_documents := Z.of_nat (length documents);
                 successful := 0; failed := 0; total_chunks := 0; results := [] |})
    as (new_results & -> & Hall).
  eexists. split; [done|].
  cbn [total_documents successful failed total_chunks results app].
  split; [done|]. split; [done|]. split; [lia|]. split; [lia|]. split; [|lia].
  apply Forall2_length in Hall. rewrite Hall. clear Hall.
  induction new_results as [|r rest IH]; [done|].
  cbn [List.filter length]. destruct (success r); cbn [negb length]; lia.
Qed.

End IndexingFacts.

Lemma index_document_always_answers_witness :
  ∃ call result,
    IndexingService.index_document (CharEncoding.splitter 600 90)
      IndexingExamples.parse_file IndexingExamples.add_documents
      "session-1" "notes.pdf" "doc-1" "Notes" = Ret (call, result)
    ∧ IndexingService.document_id result = "doc-1"
    ∧ (IndexingService.success result = true →
       ∃ c, call = Some c
            ∧ IndexingExamples.add_documents c = None
            ∧ IndexingService.chunk_count result
              = Z.of_nat (length (IndexingService.call_texts c))
            ∧ 0 < IndexingService.chunk_count result
            ∧ IndexingService.document_title result = Some "Notes"
            ∧ IndexingService.error result = None)
    ∧ (IndexingService.success result = false →
       IndexingService.chunk_count result = 0
       ∧ is_Some (IndexingService.error result)
       ∧ IndexingService.document_title result = None).
Proof.
  refine (index_document_always_answers (CharEncoding.splitter 600 90)
            IndexingExamples.parse_file IndexingExamples.add_documents _
            "session-1" "notes.pdf" "doc-1" "Notes").
  reflexivity.
Defined.

Lemma index_document_hands_over_chunks_witness :
  IndexingService.index_document (CharEncoding.splitter 600 90)
    IndexingExamples.parse_file IndexingExamples.add_documents
    "session-1" "notes.pdf" "doc-1" "Notes"
  = Ret (Some IndexingExamples.notes_call, IndexingExamples.notes_result)
  ∧ IndexingService.md_chunk_index
      <$> IndexingService.call_metadatas IndexingExamples.notes_call
    = seqZ 0 (Z.of_nat (length (IndexingService.call_texts IndexingExamples.notes_call))).
Proof.
  assert (H : IndexingService.index_document (CharEncoding.splitter 600 90)
                IndexingExamples.parse_file IndexingExamples.add_documents
                "session-1" "notes.pdf" "doc-1" "Notes"
              = Ret (Some IndexingExamples.notes_call, IndexingExamples.notes_result))
    by reflexivity.
  split; [exact H|].
  destruct (index_document_hands_over_chunks (CharEncoding.splitter 600 90)
              IndexingExamples.parse_file IndexingExamples.add_documents
              "session-1" "notes.pdf" "doc-1" "Notes"
              IndexingExamples.notes_call IndexingExamples.notes_result H)
    as (pages & chunks_per_page & _ & _ & _ & _ & _ & _ & _ & Hindex & _).
  exact Hindex.
Defined.

Lemma one_page_fails_the_document_witness :
  IndexingService.index_document (DigitEncoding.splitter 20 3)
    IndexingExamples.parse_file IndexingExamples.add_documents
    "session-1" "scan.pdf" "doc-2" "Scan"
  = Ret (None, IndexingService.failure "doc-2" "empty separator").
Proof.
  refine (proj2 (one_page_fails_the_document (DigitEncoding.splitter 20 3)
            IndexingExamples.parse_file IndexingExamples.add_documents _
            "session-1" "scan.pdf" "doc-2" "Scan"
            [ {| IndexingService.page_text := "Revenue grew.";
                 IndexingService.page_number := 1 |} ]
            []
            {| IndexingService.page_text := DigitEncoding.digits75;
               IndexingService.page_number := 2 |} _ _ _ _) _).
  - reflexivity.
  - reflexivity.
  - done.
  - vm_compute. reflexivity.
  - repeat split; vm_compute; reflexivity.
  - constructor; [|constructor]. right. vm_compute. discriminate.
Defined.

Lemma index_multiple_documents_counts_witness :
  ∃ summary,
    IndexingService.index_multiple_documents (DigitEncoding.splitter 10 3)
      IndexingExamples.parse_file IndexingExamples.add_documents
      "session-1" IndexingExamples.documents
    = Ret summary
    ∧ IndexingService.successful summary + IndexingService.failed summary
      = IndexingService.total_documents summary.
Proof.
  destruct (index_multiple_documents_counts (DigitEncoding.splitter 10 3)
              IndexingExamples.parse_file IndexingExamples.add_documents eq_refl
              "session-1" IndexingExamples.documents)
    as (summary & Hrun & _ & _ & _ & _ & Hsum & _).
  exists summary. split; [exact Hrun | exact Hsum].
Defined.

(** ** The positions of the paragraphs ([utils/paragraph_lock.py]) *)

Section PositionFacts.

Import ParagraphLock ParagraphPositions Notions.

Lemma prefix_decompose (sub s : string) :
  String.prefix sub s = true → ∃ rest, s = sub +:+ rest.
Proof.
  revert s. induction sub as [|x sub IH]; intros s H; [by exists s|].
  destruct s as [|y s]; [done|]. cbn [String.prefix] in H.
  destruct (ascii_dec x y) as [->|]; [|done].
  destruct (IH s H) as [rest ->]. by exists rest.
Qed.

Lemma str_drop_append (a b : string) : Py.str_drop (String.length a) (a +:+ b) = b.
Proof. induction a as [|c a IH]; [done|]. exact IH. Qed.

Lemma str_drop_add (n m : nat) (s : string) :
  Py.str_drop (n + m) s = Py.str_drop m (Py.str_drop n s).
Proof.
  revert s. induction n as [|n IH]; intros s; [done|].
  destruct s as [|c s]; [by destruct m|]. apply IH.
Qed.

Lemma str_drop_decompose (n : nat) (s : string) :
  (n ≤ String.length s)%nat →
  ∃ a, s = a +:+ Py.str_drop n s ∧ String.length a = n.
Proof.
  revert s. induction n as [|n IH]; intros s Hn; [by exists ""|].
  destruct s as [|c s]; [cbn in Hn; lia|].
  destruct (IH s) as (a & Ha & Hlen); [cbn in Hn; lia|].
  exists (String c a). split; [|cbn; lia].
  cbn [Py.str_drop]. change (String c s = String c (a +:+ Py.str_drop n s)).
  by rewrite <- Ha.
Qed.

Lemma find_at_eq (sub s : string) :
  Py.find_at sub s =
  if String.prefix sub s then Some O
  else match s with
       | EmptyString => None
       | String _ s' => S <$> Py.find_at sub s'
       end.
Proof. by destruct s. Qed.

(** [find] stops at the first occurrence, which is not after a given one. *)
Lemma find_at_occurs (p a b : string) :
  ∃ k a' b',
    Py.find_at p (a +:+ p +:+ b) = Some k
    ∧ (k ≤ String.length a)%nat
    ∧ a +:+ p +:+ b = a' +:+ p +:+ b'
    ∧ String.length a' = k.
Proof.
  induction a as [|c a (k & a' & b' & Hfind & Hk & Heq & Hlen)].
  - exists O, "", b. change ("" +:+ p +:+ b) with (p +:+ b).
    rewrite find_at_eq, (prefix_append _ _ b (prefix_refl p)). by repeat split.
  - change (String c a +:+ p +:+ b) with (String c (a +:+ p +:+ b)).
    rewrite find_at_eq.
    destruct (String.prefix p (String c (a +:+ p +:+ b))) eqn:Hp.
    + apply prefix_decompose in Hp as [rest Hrest].
      exists O, "", rest. repeat split; [cbn; lia | exact Hrest].
    + rewrite Hfind. exists (S k), (String c a'), b'.
      repeat split; [cbn; lia | | cbn; lia].
      change (String c a' +:+ p +:+ b') with (String c (a' +:+ p +:+ b')).
      by rewrite Heq.
Qed.

Lemma suffix_extend (u v b b' : string) :
  u +:+ b' = v +:+ b → (String.length u ≤ String.length v)%nat →
  ∃ x, b' = x +:+ b.
Proof.
  revert v. induction u as [|c u IH]; intros v Heq Hlen.
  - by exists v.
  - destruct v as [|d v]; [cbn in Hlen; lia|].
    change (String c (u +:+ b') = String d (v +:+ b)) in Heq.
    injection Heq as _ Heq. apply (IH v Heq). cbn in Hlen. lia.
Qed.

Lemma in_order_extend (ps : list string) (x b : string) :
  in_order ps b → in_order ps (x +:+ b).
Proof.
  destruct ps as [|p ps]; [done|]. cbn [in_order].
  intros (a & b0 & -> & Hrest). exists (x +:+ a), b0.
  split; [by rewrite append_assoc | done].
Qed.

Lemma split_from_nonempty (sep : string) (s : string) :
  ∀ (skip : nat) (acc : string), Py.split_from sep skip acc s ≠ [].
Proof.
  induction s as [|c s IH]; intros skip acc; [done|].
  destruct skip as [|k]; [|apply IH].
  rewrite split_from_cons. destruct (String.prefix sep (String c s)); [done|apply IH].
Qed.

Lemma join_cons (sep x : string) (l : list string) :
  l ≠ [] → Py.join sep (x :: l) = x +:+ sep +:+ Py.join sep l.
Proof. by destruct l. Qed.

(** Joining the pieces of a split gives the text back. *)
Lemma join_split_from (sep : string) :
  sep ≠ "" →
  ∀ (n : nat) (s acc : string),
    (String.length s ≤ n)%nat →
    Py.join sep (Py.split_from sep 0 acc s) = acc +:+ s.
Proof.
  intros Hsep. induction n as [|n IH]; intros s acc Hn.
  - destruct s; [|cbn in Hn; lia]. cbn. by rewrite append_nil_r.
  - destruct s as [|c s]; [cbn; by rewrite append_nil_r|].
    rewrite split_from_cons.
    destruct (String.prefix sep (String c s)) eqn:Hp.
    + apply prefix_decompose in Hp as [rest Hrest].
      destruct sep as [|a sep]; [done|].
      change (String a sep +:+ rest) with (String a (sep +:+ rest)) in Hrest.
      injection Hrest as -> ->.
      cbn [String.length Nat.pred]. rewrite split_from_skip.
      rewrite join_cons by apply split_from_nonempty.
      rewrite IH; [done|]. cbn in Hn. rewrite length_append in Hn. lia.
    + rewrite IH by (cbn in Hn; lia). by rewrite append_assoc.
Qed.

Lemma lstrip_decompose (s : string) : ∃ l, s = l +:+ Py.lstrip s.
Proof.
  induction s as [|c s [l IH]]; [by exists ""|].
  cbn [Py.lstrip]. destruct (Py.isspace c); [|by exists ""].
  exists (String c l). change (String c s = String c (l +:+ Py.lstrip s)).
  by rewrite <- IH.
Qed.

Lemma strip_decompose (s : string) : ∃ l r, s = l +:+ Py.strip s +:+ r.
Proof.
  destruct (lstrip_decompose s) as [l Hl].
  destruct (rstrip_decompose (Py.lstrip s)) as [r Hr].
  exists l, r. unfold Py.strip. by rewrite <- Hr.
Qed.

Lemma in_order_join (sep : string) (f : string → bool) (pieces : list string) :
  in_order (Py.strip <$> List.filter f pieces) (Py.join sep pieces).
Proof.
  induction pieces as [|piece rest IH]; [done|].
  cbn [List.filter]. destruct (decide (rest = [])) as [->|Hrest].
  - destruct (f piece); [|done]. cbn.
    destruct (strip_decompose piece) as (l & r & Hp). by exists l, r.
  - rewrite join_cons by done. destruct (f piece).
    + cbn [fmap list_fmap in_order].
      destruct (strip_decompose piece) as (l & r & Hp).
      exists l, (r +:+ sep +:+ Py.join sep rest). split.
      * rewrite Hp at 1. by rewrite !append_assoc.
      * by apply in_order_extend, in_order_extend.
    + by apply in_order_extend, in_order_extend.
Qed.

(** The paragraphs occur in the text one after the other. *)
Lemma paragraphs_in_order (text : string) :
  in_order (split_into_paragraphs text) text.
Proof.
  unfold split_into_paragraphs. destruct (Py.is_empty text); [done|].
  cbv zeta. unfold Py.split_pieces.
  pose proof (join_split_from blank_line ltac:(done) (String.length text) text ""
                ltac:(done)) as Hjoin.
  change ("" +:+ text) with text in Hjoin. rewrite <- Hjoin at 2.
  apply in_order_join.
Qed.

Lemma substring_str_drop (n m : nat) (s : string) :
  String.substring n m s = String.substring 0 m (Py.str_drop n s).
Proof.
  revert s. induction n as [|n IH]; intros s; [done|].
  destruct s as [|c s]; [by destruct m|]. apply IH.
Qed.

Lemma substring_prefix (p b : string) :
  String.substring 0 (String.length p) (p +:+ b) = p.
Proof.
  induction p as [|c p IH]; [by destruct b|].
  change (String c (String.substring 0 (String.length p) (p +:+ b)) = String c p).
  by rewrite IH.
Qed.

(** One step of the search: the paragraph is found, at or after the place
    where the search starts, and the paragraphs after it follow. *)
Lemma find_in_order (text p : string) (rest : list string) (search_start : Z) :
  0 ≤ search_start ≤ Z.of_nat (String.length text) →
  in_order (p :: rest) (Py.str_drop (Z.to_nat search_start) text) →
  search_start ≤ Py.find text p search_start
  ∧ Py.find text p search_start + Z.of_nat (String.length p)
    ≤ Z.of_nat (String.length text)
  ∧ String.substring (Z.to_nat (Py.find text p search_start)) (String.length p) text = p
  ∧ in_order rest
      (Py.str_drop
         (Z.to_nat (Py.find text p search_start + Z.of_nat (String.length p))) text).
Proof.
  intros [Hs0 Hs1] (a & b & Heq & Hrest).
  destruct (find_at_occurs p a b) as (k & a' & b' & Hfind & Hk & Heq' & Hlen).
  assert (Hf : Py.find text p search_start = search_start + Z.of_nat k).
  { unfold Py.find. cbv zeta.
    rewrite (proj2 (Z.ltb_ge search_start 0)) by lia.
    rewrite (proj2 (Z.ltb_ge _ _)) by lia.
    by rewrite Heq, Hfind. }
  rewrite Hf.
  destruct (str_drop_decompose (Z.to_nat search_start) text) as (a0 & Ha0 & Hl0); [lia|].
  assert (Htotal : String.length text
                   = (Z.to_nat search_start + k + String.length p + String.length b')%nat).
  { rewrite Ha0 at 1. rewrite Heq, Heq', !length_append. lia. }
  split; [lia|]. split; [lia|]. split.
  - rewrite substring_str_drop.
    replace (Z.to_nat (search_start + Z.of_nat k))
      with (Z.to_nat search_start + k)%nat by lia.
    rewrite str_drop_add, Heq, Heq', <- Hlen, str_drop_append.
    apply substring_prefix.
  - replace (Z.to_nat (search_start + Z.of_nat k + Z.of_nat (String.length p)))
      with (Z.to_nat search_start + String.length (a' +:+ p))%nat
      by (rewrite length_append; lia).
    rewrite str_drop_add, Heq, Heq', <- append_assoc, str_drop_append.
    destruct (suffix_extend (a' +:+ p) (a +:+ p) b b') as [x ->].
    + by rewrite !append_assoc.
    + rewrite !length_append. lia.
    + by apply in_order_extend.
Qed.

Lemma search_loop_greedy (text : string) (paragraphs : list string) :
  ∀ (n j : nat) (search_start : Z),
    (j + n ≤ length paragraphs)%nat →
    0 ≤ search_start ≤ Z.of_nat (String.length text) →
    in_order (drop j paragraphs) (Py.str_drop (Z.to_nat search_start) text) →
    search_loop text paragraphs (seqZ (Z.of_nat j) (Z.of_nat n)) search_start
    = Ret (Some (greedy_end text (take n (drop j paragraphs)) search_start))
    ∧ 0 ≤ greedy_end text (take n (drop j paragraphs)) search_start
        ≤ Z.of_nat (String.length text)
    ∧ in_order (drop (j + n) paragraphs)
        (Py.str_drop
           (Z.to_nat (greedy_end text (take n (drop j paragraphs)) search_start)) text).
Proof.
  induction n as [|n IH]; intros j search_start Hj Hs Hord.
  - rewrite seqZ_nil by lia. rewrite take_0, Nat.add_0_r.
    cbn [search_loop greedy_end]. split; [done|]. split; [lia|done].
  - destruct (lookup_lt_is_Some_2 paragraphs j) as [p Hp]; [lia|].
    rewrite (drop_S _ _ _ Hp) in *.
    rewrite Nat2Z.inj_succ, seqZ_cons, Z.pred_succ by lia.
    cbn [search_loop take greedy_end].
    destruct (getitem_in_range paragraphs (Z.of_nat j)) as (p' & -> & Hp'); [lia|].
    rewrite Nat2Z.id, Hp in Hp'. injection Hp' as <-. cbn.
    destruct (find_in_order text p (drop (S j) paragraphs) search_start Hs Hord)
      as (Hge & Hle & _ & Hnext).
    rewrite (proj2 (Z.eqb_neq _ _)) by lia.
    replace (Z.succ (Z.of_nat j)) with (Z.of_nat (S j)) by lia.
    replace (j + S n)%nat with (S j + n)%nat by lia.
    apply IH; [lia | lia | done].
Qed.

Lemma greedy_end_snoc (text : string) (ps : list string) (p : string) :
  ∀ search_start,
    greedy_end text (ps ++ [p]) search_start
    = Py.find text p (greedy_end text ps search_start)
      + Z.of_nat (String.length p).
Proof. induction ps as [|q ps IH]; intros search_start; [done|]. apply IH. Qed.

(** What [get_paragraph_boundaries] returns for a paragraph that exists. *)
Lemma boundaries_found (text : string) (i : nat) (p : string) :
  split_into_paragraphs text !! i = Some p →
  let start :=
    Py.find text p (greedy_end text (take i (split_into_paragraphs text)) 0) in
  get_paragraph_boundaries text (Z.of_nat i)
  = Ret (start, start + Z.of_nat (String.length p))
  ∧ 0 ≤ start
  ∧ start + Z.of_nat (String.length p) ≤ Z.of_nat (String.length text)
  ∧ String.substring (Z.to_nat start) (String.length p) text = p.
Proof.
  intros Hp start. unfold start. clear start.
  set (paragraphs := split_into_paragraphs text) in *.
  pose proof (lookup_lt_Some _ _ _ Hp) as Hi.
  destruct (search_loop_greedy text paragraphs i 0 0) as (Hloop & Hend & Hord);
    [lia | lia | apply paragraphs_in_order |].
  rewrite drop_0 in *. cbn [Nat.add] in Hord. rewrite (drop_S _ _ _ Hp) in Hord.
  destruct (find_in_order text p _ _ Hend Hord) as (Hge & Hle & Hsub & _).
  split; [|split; [lia|split; [lia|done]]].
  unfold get_paragraph_boundaries. fold paragraphs. cbv zeta.
  rewrite (proj2 (Z.ltb_ge _ _)) by lia. rewrite (proj2 (Z.leb_gt _ _)) by lia.
  cbn [orb].
  destruct (getitem_in_range paragraphs (Z.of_nat i)) as (p' & -> & Hp'); [lia|].
  rewrite Nat2Z.id, Hp in Hp'. injection Hp' as <-. cbn.
  unfold Py.range. change 0 with (Z.of_nat 0) at 1. rewrite Hloop. cbn.
  by rewrite (proj2 (Z.eqb_neq _ _)) by lia.
Qed.

(** X29. For a paragraph that exists, [get_paragraph_boundaries] always
    finds it: it returns a start and an end inside the text, the end being
    the start plus the length of the paragraph, and the text between them is
    the paragraph. For an index out of range it returns (-1, -1). *)
Theorem paragraph_boundaries_delimit (text : string) (paragraph_index : Z) :
  (paragraph_index < 0
   ∨ Z.of_nat (length (split_into_paragraphs text)) ≤ paragraph_index →
   get_paragraph_boundaries text paragraph_index = Ret (-1, -1))
  ∧ (∀ p,
       0 ≤ paragraph_index →
       split_into_paragraphs text !! Z.to_nat paragraph_index = Some p →
       ∃ start_pos,
         get_paragraph_boundaries text paragraph_index
         = Ret (start_pos, start_pos + Z.of_nat (String.length p))
         ∧ 0 ≤ start_pos
         ∧ start_pos + Z.of_nat (String.length p) ≤ Z.of_nat (String.length text)
         ∧ String.substring (Z.to_nat start_pos) (String.length p) text = p).
Proof.
  split.
  - intros Hout. unfold get_paragraph_boundaries. cbv zeta.
    destruct Hout.
    + by rewrite (proj2 (Z.ltb_lt _ _)) by lia.
    + rewrite (proj2 (Z.leb_le _ _)) by lia. by rewrite orb_true_r.
  - intros p Hi Hp. eexists.
    rewrite <- (Z2Nat.id paragraph_index) at 1 by lia.
    by apply boundaries_found.
Qed.

Lemma find_loop_first (text : string) (cursor_position : Z) (paragraphs : list string) :
  ∀ (rest : list string) (j : nat),
    rest = drop j paragraphs →
    let start i :=
      match paragraphs !! i with
      | Some p => Py.find text p (greedy_end text (take i paragraphs) 0)
      | None => -1
      end in
    let stop i :=
      match paragraphs !! i with
      | Some p => start i + Z.of_nat (String.length p)
      | None => -1
      end in
    let inside i := start i ≤ cursor_position ≤ stop i in
    let result :=
      find_loop text cursor_position (Z.of_nat j) rest
        (greedy_end text (take j paragraphs) 0) in
    (result = (-1, "")
     ∧ ∀ i, (j ≤ i < length paragraphs)%nat → ¬ inside i)
    ∨ (∃ i, result.1 = Z.of_nat i
            ∧ paragraphs !! i = Some result.2
            ∧ (j ≤ i)%nat
            ∧ inside i
            ∧ ∀ i', (j ≤ i' < i)%nat → ¬ inside i').
Proof.
  intros rest. induction rest as [|para rest IH]; intros j Hrest start stop inside result.
  - left. split; [done|]. intros i [Hji Hi].
    assert (length (drop j paragraphs) = 0%nat) as Hlen by (by rewrite <- Hrest).
    rewrite length_drop in Hlen. lia.
  - assert (Hpara : paragraphs !! j = Some para).
    { rewrite <- (Nat.add_0_r j), <- lookup_drop, <- Hrest. done. }
    assert (Hrest' : rest = drop (S j) paragraphs).
    { rewrite <- (Nat.add_1_r j), <- drop_drop, <- Hrest. done. }
    unfold result. cbn [find_loop]. cbv zeta.
    assert (Hstart : Py.find text para (greedy_end text (take j paragraphs) 0) = start j).
    { unfold start. by rewrite Hpara. }
    assert (Hstop : start j + Z.of_nat (String.length para) = stop j).
    { unfold stop. by rewrite Hpara. }
    rewrite Hstart, Hstop.
    destruct ((start j <=? cursor_position) && (cursor_position <=? stop j)) eqn:Hin.
    + right. exists j. cbn [fst snd]. repeat split; try done.
      * apply andb_true_iff in Hin as [?%Z.leb_le ?%Z.leb_le]. done.
      * apply andb_true_iff in Hin as [?%Z.leb_le ?%Z.leb_le]. done.
      * intros i' ?. lia.
    + assert (Hnot : ¬ inside j).
      { intros [H1 H2]. apply andb_false_iff in Hin as [Hin|Hin];
          [apply Z.leb_gt in Hin | apply Z.leb_gt in Hin]; lia. }
      assert (Hnext : stop j = greedy_end text (take (S j) paragraphs) 0).
      { rewrite (take_S_r _ _ _ Hpara), greedy_end_snoc. by rewrite Hstart, Hstop. }
      rewrite Hnext. replace (Z.of_nat j + 1) with (Z.of_nat (S j)) by lia.
      destruct (IH (S j) Hrest') as [[Hres Hnone] | (i & Hi1 & Hi2 & Hji & Hins & Hfirst)].
      * left. split; [done|]. intros i [Hji Hi].
        destruct (decide (i = j)) as [->|]; [done|]. apply Hnone. lia.
      * right. exists i. repeat split; try done; try lia.
        -- apply Hins.
        -- apply Hins.
        -- intros i' [Hj' Hi'].
           destruct (decide (i' = j)) as [->|]; [done|]. apply Hfirst. lia.
Qed.

(** X30. [find_paragraph_at_position] gives the first paragraph whose
    boundaries, as [get_paragraph_boundaries] computes them, hold the cursor
    position (the two ends included), with its index, and (-1, "") when no
    paragraph does. *)
Theorem find_paragraph_is_first_inside (text : string) (cursor_position : Z) :
  let paragraphs := split_into_paragraphs text in
  let inside (i : nat) :=
    ∃ start_pos end_pos,
      get_paragraph_boundaries text (Z.of_nat i) = Ret (start_pos, end_pos)
      ∧ start_pos ≤ cursor_position ≤ end_pos in
  let result := find_paragraph_at_position text cursor_position in
  (result = (-1, "") ∧ ∀ i, (i < length paragraphs)%nat → ¬ inside i)
  ∨ (∃ i, result.1 = Z.of_nat i
          ∧ paragraphs !! i = Some result.2
          ∧ inside i
          ∧ ∀ i', (i' < i)%nat → ¬ inside i').
Proof.
  intros paragraphs inside result.
  assert (Hinside : ∀ i p,
            paragraphs !! i = Some p →
            inside i ↔
            Py.find text p (greedy_end text (take i paragraphs) 0) ≤ cursor_position
            ≤ Py.find text p (greedy_end text (take i paragraphs) 0)
              + Z.of_nat (String.length p)).
  { intros i p Hp. destruct (boundaries_found text i p Hp) as (Hb & _).
    unfold inside. split.
    - intros (s0 & e0 & Hb' & Hc). rewrite Hb in Hb'. by injection Hb' as <- <-.
    - intros Hc. eauto. }
  unfold result, find_paragraph_at_position.
  destruct (Py.is_empty text || (cursor_position <? 0)
            || (Z.of_nat (String.length text) <? cursor_position)) eqn:Hguard.
  - left. split; [done|]. intros i Hi.
    destruct (lookup_lt_is_Some_2 paragraphs i Hi) as [p Hp].
    rewrite (Hinside i p Hp).
    destruct (boundaries_found text i p Hp) as (_ & H0 & Hlen & _).
    cbv zeta in H0, Hlen. fold paragraphs in H0, Hlen.
    apply orb_true_iff in Hguard as [Hguard|Hguard];
      [apply orb_true_iff in Hguard as [Hguard|Hguard]|].
    + destruct text; [|done]. cbn in Hi. lia.
    + apply Z.ltb_lt in Hguard. lia.
    + apply Z.ltb_lt in Hguard. lia.
  - fold paragraphs.
    destruct (find_loop_first text cursor_position paragraphs paragraphs 0 eq_refl)
      as [[Hres Hnone] | (i & Hi1 & Hi2 & _ & Hins & Hfirst)].
    + left. cbn in Hres. split; [done|]. intros i Hi.
      destruct (lookup_lt_is_Some_2 paragraphs i Hi) as [p Hp].
      rewrite (Hinside i p Hp). specialize (Hnone i ltac:(lia)).
      by rewrite Hp in Hnone.
    + right. exists i. cbn in Hi1, Hi2. split; [done|]. split; [done|].
      split.
      * rewrite (Hinside i _ Hi2). by rewrite Hi2 in Hins.
      * intros i' Hi'.
        destruct (lookup_lt_is_Some_2 paragraphs i') as [p' Hp'].
        { apply lookup_lt_Some in Hi2. lia. }
        rewrite (Hinside i' p' Hp'). specialize (Hfirst i' ltac:(lia)).
        by rewrite Hp' in Hfirst.
Qed.

End PositionFacts.
